(** * Time-domain orchestration of phoebe/backend/backends.py

    A shallow embedding of the planning and orchestration code of
    [phoebe.backend.backends]: the mesh-requirement resolver, the two time-grid
    planners, the virtual mesh datasets, the luminosity calibration, the
    per-item dispatch of the main loop and the translation of legacy meshes.

    Conventions of the embedding:
    - Python strings are [string]; a component that may be [None] is an
      [option string]; the value [None] of a kind is the empty string.
    - times are exact rationals in canonical form ([Qc]), so that Python's
      [==] on times is Leibniz equality; an entry of a work item's time array
      is an [option Qc] because the protomesh item carries [[None]].
    - the bundle, the system and the external services are records of
      functions (lookups that the code guards with [try/except ValueError]
      return an [option]).
    - an exception is a value of [py_error]; code that mutates containers
      before raising returns the mutated state together with the error. *)

From Stdlib Require Import List String Ascii Bool Arith Lia ZArith.
From Stdlib Require Import QArith Qcanon Permutation Sorted.
Import ListNotations.
Close Scope Qc_scope.
Close Scope Q_scope.
Open Scope string_scope.
Open Scope list_scope.

(** ** Python helpers *)

(** [x in l] for a list of strings. *)
Definition str_in (x : string) (l : list string) : bool :=
  existsb (String.eqb x) l.

(** Truth value of a Python string used as a condition. *)
Definition str_truthy (s : string) : bool :=
  match s with
  | EmptyString => false
  | String _ _ => true
  end.

(** [s1 in s2] for strings: substring test. *)
Fixpoint str_contains (sub s : string) : bool :=
  if String.prefix sub s then true
  else match s with
       | EmptyString => false
       | String _ s' => str_contains sub s'
       end.

(** [s[:-n]] *)
Definition str_drop_last (n : nat) (s : string) : string :=
  String.substring 0 (String.length s - n) s.

(** ** Exceptions *)

Inductive py_error : Type :=
| NotImplementedError (msg : string)
| ValueError (msg : string)
| KeyError (key : string)
| NameError (name : string)
| IndexError (msg : string)
| AttributeError (msg : string).

(** A computation that returns a value or raises. *)
Definition result (A : Type) : Type := (py_error + A)%type.

Definition bind {A B : Type} (m : result A) (f : A -> result B) : result B :=
  match m with
  | inl e => inl e
  | inr a => f a
  end.

Notation "x <- m ;; k" := (bind m (fun x => k))
  (at level 61, m at next level, right associativity).
Notation "' pat <- m ;; k" := (bind m (fun x => match x with pat => k end))
  (at level 61, pat pattern, m at next level, right associativity).

(** ** The bundle

    Only the lookups made by the code of this module. [compute] labels and
    dataset labels are strings. *)

Record Bundle : Type := {
  (* b.datasets *)
  datasets : list string;
  (* b.get_compute(compute).kind *)
  compute_kind : string -> string;
  (* b.get_value(qualifier='enabled', dataset, compute); None: ValueError *)
  enabled : string -> string -> option bool;
  (* b.hierarchy.get_stars() and get_meshables() *)
  get_stars : list string;
  get_meshables : list string;
  (* b.filter(context='dataset', dataset, component).exclude(kind='*_dep').kind *)
  obs_kind : string -> option string -> string;
  (* obs_ps.get_value(qualifier=timequalifier, component, unit=u.d);
     None: ValueError *)
  obs_times : string -> option string -> string -> option (list Qc);
  (* b.get_value(qualifier='lc_method', compute, dataset) *)
  lc_method : string -> string -> string;
  (* b.get_value(qualifier='rv_method', compute, component, dataset) *)
  rv_method : string -> option string -> string -> string;
  (* b.get_value(qualifier='exptime', dataset) in days *)
  exptime : string -> Qc;
  (* b.get_value(qualifier='fti_method', dataset, compute) *)
  fti_method : string -> string -> string;
  (* b.get_value(qualifier='fti_oversample', dataset, compute): a count *)
  fti_oversample : string -> string -> nat;
  (* b.get_value(qualifier='pblum_ref', component, dataset) *)
  pblum_ref : string -> string -> string;
  (* b.get_dataset().kinds *)
  dataset_kinds : list string;
  (* b.get_dataset(dataset=dataset, kind='*dep').kind *)
  dep_kind : string -> option string
}.

(** ** MeshRequirementResolver *)

Definition _backends_that_support_protomesh : list string := ["phoebe"; "legacy"].
Definition _backends_that_support_automesh : list string := ["phoebe"; "legacy"].
Definition _backends_that_require_meshing : list string := ["phoebe"; "legacy"].

Definition _needs_mesh (b : Bundle) (dataset kind : string)
           (component : option string) (compute : string) : bool :=
  let ck := compute_kind b compute in
  if negb (str_in ck _backends_that_require_meshing) then false
  else if negb (str_in kind ["mesh"; "lc"; "rv"]) then false
  else if (kind =? "lc") && (ck =? "phoebe")
          && (lc_method b compute dataset =? "analytical") then false
  else if (kind =? "rv")
          && ((ck =? "legacy")
              || (rv_method b compute component dataset =? "dynamical")) then false
  else true.

Definition _timequalifier_by_kind (kind : string) : string :=
  if kind =? "etv" then "time_ephems" else "times".

(** ** Times and work items *)

Definition Qc_eqb (x y : Qc) : bool :=
  match (x ?= y)%Qc with Eq => true | _ => false end.

Definition Qc_ltb (x y : Qc) : bool :=
  match (x ?= y)%Qc with Lt => true | _ => false end.

Definition Qc_leb (x y : Qc) : bool :=
  match (x ?= y)%Qc with Gt => false | _ => true end.

Definition Qc_of_nat (n : nat) : Qc := Q2Qc (inject_Z (Z.of_nat n)).

(** One entry of a [times] array: a time in days, or [None]. *)
Definition otime_eqb (x y : option Qc) : bool :=
  match x, y with
  | Some a, Some b => Qc_eqb a b
  | None, None => true
  | _, _ => false
  end.

(** Python 2 orders [None] before every number. *)
Definition otime_leb (x y : option Qc) : bool :=
  match x, y with
  | None, _ => true
  | Some _, None => false
  | Some a, Some b => Qc_leb a b
  end.

(** The dictionary [this_info] describing one work item. *)
Module Info.
Record t : Type := mk {
  dataset : string;
  component : option string;
  kind : string;
  needs_mesh : bool;
  times : list (option Qc)
}.
End Info.

(** [l.index(x)] guarded by [x in l]: [None] when [x] is not in [l]. *)
Fixpoint index_of (x : Qc) (l : list Qc) : option nat :=
  match l with
  | [] => None
  | y :: l' => if Qc_eqb x y then Some O
               else match index_of x l' with
                    | Some n => Some (S n)
                    | None => None
                    end
  end.

(** [infos[ind].append(this_info)]; [ind] is always a valid index in the
    callers, the lists [times] and [infos] growing together. *)
Fixpoint append_at (ind : nat) (this_info : Info.t) (infos : list (list Info.t))
  : list (list Info.t) :=
  match infos, ind with
  | [], _ => []
  | l :: infos', O => (l ++ [this_info]) :: infos'
  | l :: infos', S n => l :: append_at n this_info infos'
  end.

(** A Python dict with string keys, in order of first insertion. The
    iteration order of a Python 2 dict is unspecified; where it matters the
    order is a parameter of the model. *)
Fixpoint dict_set {V : Type} (k : string) (v : V) (d : list (string * V))
  : list (string * V) :=
  match d with
  | [] => [(k, v)]
  | (k', v') :: d' =>
      if k =? k' then (k, v) :: d' else (k', v') :: dict_set k v d'
  end.

Fixpoint dict_get {V : Type} (k : string) (d : list (string * V)) : option V :=
  match d with
  | [] => None
  | (k', v') :: d' => if k =? k' then Some v' else dict_get k d'
  end.

Definition dict_values {V : Type} (d : list (string * V)) : list V := map snd d.

(** ** TimeGridPlanner *)

(** [np.linspace(start, stop, num)] with the default [endpoint=True]:
    [arange(0, num) * step + start] with [step = (stop - start) / (num - 1)],
    the last entry set to [stop]; a single sample is [start]. The numbers
    are exact rationals here; the code evaluates the same expressions on
    doubles, whose operations round. *)
Definition linspace (start stop : Qc) (num : nat) : list Qc :=
  match num with
  | O => []
  | S O => [start]
  | S (S _ as div) =>
      let step := ((stop - start) / Qc_of_nat div)%Qc in
      map (fun i => (Qc_of_nat i * step + start)%Qc) (seq 0 div) ++ [stop]
  end.

Definition Qc_two : Qc := Q2Qc 2%Q.

(** The oversampled times of line 135:
    [np.array([np.linspace(t-exptime/2., t+exptime/2., n) for t in this_times]).flatten()] *)
Definition oversample_times (exptime_ : Qc) (exp_oversample : nat)
           (this_times : list Qc) : list Qc :=
  flat_map (fun t => linspace (t - exptime_ / Qc_two)%Qc
                              (t + exptime_ / Qc_two)%Qc exp_oversample)
           this_times.

Definition nonempty {A : Type} (l : list A) : bool :=
  match l with [] => false | _ :: _ => true end.

Definition is_none {A : Type} (o : option A) : bool :=
  match o with None => true | Some _ => false end.

(** Lines 117-119: the override by the passed times. *)
Definition override_times (provided_times : option (list Qc))
           (this_times : list Qc) : list Qc :=
  match provided_times with
  | Some pt => if nonempty this_times then pt else this_times
  | None => this_times
  end.

(** Lines 122-125: the condition under which the times are oversampled. *)
Definition oversample_applies (b : Bundle) (compute : string)
           (allow_oversample : bool) (dataset kind : string) : bool :=
  allow_oversample && str_in kind ["lc"]
  && Qc_ltb (Q2Qc 0%Q) (exptime b dataset)
  && (fti_method b dataset compute =? "oversample").

(** Lines 117-135: the resolved time array of a (dataset, component). *)
Definition resolve_times (b : Bundle) (compute : string)
           (provided_times : option (list Qc)) (allow_oversample : bool)
           (dataset kind : string) (this_times : list Qc) : list Qc :=
  let this_times := override_times provided_times this_times in
  if oversample_applies b compute allow_oversample dataset kind
  then oversample_times (exptime b dataset) (fti_oversample b dataset compute)
                        this_times
  else this_times.

(** Lines 156-161: one time of one work item enters the grid. *)
Definition add_time (this_info : Info.t)
           (acc : list Qc * list (list Info.t)) (time_ : Qc)
  : list Qc * list (list Info.t) :=
  let (times, infos) := acc in
  match index_of time_ times with
  | Some ind => (times, append_at ind this_info infos)
  | None => (times ++ [time_], infos ++ [[this_info]])
  end.

(** The accumulators [times], [infos] and [needed_syns] of the planners. *)
Record Plan : Type := mkPlan {
  p_times : list Qc;
  p_infos : list (list Info.t);
  p_needed_syns : list Info.t
}.

(** Lines 138-141: the components a (dataset, component) stands for. *)
Definition item_components (b : Bundle) (component : option string)
           (kind : string) : list (option string) :=
  if is_none component && str_in kind ["mesh"]
  then map Some (get_meshables b)
  else [component].

Definition mk_info (b : Bundle) (compute dataset : string) (kind : string)
           (this_times : list Qc) (component : option string) : Info.t :=
  Info.mk dataset component kind
          (_needs_mesh b dataset kind component compute)
          (map Some this_times).

(** Lines 143-161: one work item is recorded and its times registered. *)
Definition add_item_by_time (this_times : list Qc) (st : Plan)
           (this_info : Info.t) : Plan :=
  let (times, infos) :=
    fold_left (add_time this_info) this_times (p_times st, p_infos st) in
  mkPlan times infos (p_needed_syns st ++ [this_info]).

(** Lines 254-256 of the by-dataset planner: the item is its own group. *)
Definition add_item_by_dataset (st : Plan) (this_info : Info.t) : Plan :=
  mkPlan (p_times st) (p_infos st ++ [[this_info]])
         (p_needed_syns st ++ [this_info]).

(** Lines 100-161: the body of the loop over [get_stars()+[None]]. *)
Definition extract_component_by_time (b : Bundle) (compute : string)
           (provided_times : option (list Qc)) (allow_oversample : bool)
           (dataset : string) (st : Plan) (component : option string) : Plan :=
  let kind := obs_kind b dataset component in
  if is_none component && negb (str_in kind ["lc"; "mesh"]) then st
  else
    match obs_times b dataset component (_timequalifier_by_kind kind) with
    | None => st
    | Some this_times =>
        let this_times :=
          resolve_times b compute provided_times allow_oversample
                        dataset kind this_times in
        if nonempty this_times then
          fold_left (add_item_by_time this_times)
                    (map (mk_info b compute dataset kind this_times)
                         (item_components b component kind))
                    st
        else st
    end.

(** The time array that lines 100-135 resolve for a dataset and one of the
    components of [get_stars()+[None]]; empty when the pair is skipped. *)
Definition resolved_time_array (b : Bundle) (compute : string)
           (provided_times : option (list Qc)) (allow_oversample : bool)
           (dataset : string) (component : option string) : list Qc :=
  let kind := obs_kind b dataset component in
  if is_none component && negb (str_in kind ["lc"; "mesh"]) then []
  else
    match obs_times b dataset component (_timequalifier_by_kind kind) with
    | None => []
    | Some this_times =>
        resolve_times b compute provided_times allow_oversample
                      dataset kind this_times
    end.

(** Lines 84-99: the body of the loop over [b.datasets]. *)
Definition dataset_is_planned (b : Bundle) (compute dataset : string) : bool :=
  if dataset =? "_default" then false
  else match enabled b dataset compute with
       | None => false
       | Some dataset_enabled => dataset_enabled
       end.

Definition extract_dataset_by_time (b : Bundle) (compute : string)
           (provided_times : option (list Qc)) (allow_oversample : bool)
           (st : Plan) (dataset : string) : Plan :=
  if dataset_is_planned b compute dataset then
    fold_left (extract_component_by_time b compute provided_times
                                         allow_oversample dataset)
              (map Some (get_stars b) ++ [None]) st
  else st.

(** Lines 219-256: the same loop body in the by-dataset planner (no
    oversampling, no merging of times). *)
Definition extract_component_by_dataset (b : Bundle) (compute : string)
           (provided_times : option (list Qc))
           (dataset : string) (st : Plan) (component : option string) : Plan :=
  let kind := obs_kind b dataset component in
  if is_none component && negb (str_in kind ["lc"; "mesh"]) then st
  else
    match obs_times b dataset component (_timequalifier_by_kind kind) with
    | None => st
    | Some this_times =>
        let this_times := override_times provided_times this_times in
        if nonempty this_times then
          fold_left add_item_by_dataset
                    (map (mk_info b compute dataset kind this_times)
                         (item_components b component kind))
                    st
        else st
    end.

Definition extract_dataset_by_dataset (b : Bundle) (compute : string)
           (provided_times : option (list Qc))
           (st : Plan) (dataset : string) : Plan :=
  if dataset_is_planned b compute dataset then
    fold_left (extract_component_by_dataset b compute provided_times dataset)
              (map Some (get_stars b) ++ [None]) st
  else st.

(** ** Virtual mesh datasets *)

(** [_handle_protomesh] (lines 268-284). *)
Definition protomesh_info (component : string) : Info.t :=
  Info.mk "protomesh" (Some component) "mesh" false [None].

Definition _handle_protomesh (b : Bundle) (compute : string)
           (needed_syns : list Info.t) (infos : list (list Info.t))
  : list Info.t * list (list Info.t) :=
  if str_in (compute_kind b compute) _backends_that_support_protomesh
  then (needed_syns ++ map protomesh_info (get_meshables b), infos)
  else (needed_syns, infos).

(** Line 302: the dict comprehension keyed by dataset keeps, for every
    dataset, the last mesh-requiring item that is not of kind mesh. *)
Definition wants_automesh (info : Info.t) : bool :=
  Info.needs_mesh info && negb (str_in (Info.kind info) ["mesh"]).

Definition needs_mesh_infos (needed_syns : list Info.t) : list Info.t :=
  dict_values
    (fold_left (fun d info => dict_set (Info.dataset info) info d)
               (filter wants_automesh needed_syns) []).

(** [list(set(l))]: the distinct entries of [l]. *)
Definition nub_otimes (l : list (option Qc)) : list (option Qc) :=
  fold_right (fun x acc => if existsb (otime_eqb x) acc then acc else x :: acc)
             [] l.

Fixpoint insert_otime (x : option Qc) (l : list (option Qc))
  : list (option Qc) :=
  match l with
  | [] => [x]
  | y :: l' => if otime_leb x y then x :: l else y :: insert_otime x l'
  end.

(** [a.sort()] on an array of times. *)
Definition sort_otimes (l : list (option Qc)) : list (option Qc) :=
  fold_right insert_otime [] l.

(** Lines 313-319: the time array of an automesh item. *)
Definition automesh_times (needed_syns : list Info.t) : list (option Qc) :=
  sort_otimes (nub_otimes (flat_map Info.times (needs_mesh_infos needed_syns))).

Definition automesh_info (this_times : list (option Qc)) (component : string)
  : Info.t :=
  Info.mk "pbmesh" (Some component) "mesh" true this_times.

(** Lines 329-331: [ind = times.index(time); infos[ind].append(this_info)];
    [times.index] raises ValueError on a time that is not in the grid. *)
Fixpoint register_automesh (this_info : Info.t) (times : list Qc)
         (this_times : list (option Qc)) (infos : list (list Info.t))
  : result (list (list Info.t)) :=
  match this_times with
  | [] => inr infos
  | time :: rest =>
      match match time with
            | Some t => index_of t times
            | None => None
            end with
      | Some ind =>
          register_automesh this_info times rest (append_at ind this_info infos)
      | None => inl (ValueError "is not in list")
      end
  end.

(** The loop over [get_meshables()] of lines 309-333. The argument [times]
    is [None] for the falsy values [None] and [False] of the callers. *)
Fixpoint automesh_loop (this_times : list (option Qc)) (times : option (list Qc))
         (components : list string)
         (needed_syns : list Info.t) (infos : list (list Info.t))
  : result (list Info.t * list (list Info.t)) :=
  match components with
  | [] => inr (needed_syns, infos)
  | component :: rest =>
      let this_info := automesh_info this_times component in
      infos' <-
        match times with
        | Some ts =>
            if nonempty ts
            then register_automesh this_info ts this_times infos
            else inr infos
        | None => inr infos
        end;;
      automesh_loop this_times times rest (needed_syns ++ [this_info]) infos'
  end.

(** [_handle_automesh] (lines 286-335). *)
Definition _handle_automesh (b : Bundle) (compute : string)
           (needed_syns : list Info.t) (infos : list (list Info.t))
           (times : option (list Qc))
  : result (list Info.t * list (list Info.t)) :=
  if str_in (compute_kind b compute) _backends_that_support_automesh
  then automesh_loop (automesh_times needed_syns) times (get_meshables b)
                     needed_syns infos
  else inr (needed_syns, infos).

(** ** SyntheticAllocator *)

(** The group of empty parameters created for one work item, by its tags;
    the parameters themselves come from [phoebe.parameters.dataset]. *)
Record Syn : Type := mkSyn {
  syn_kind : string;
  syn_dataset : string;
  syn_component : option string;
  syn_times : list (option Qc);
  (* needed_syn['dataset_fields'], set for the items of kind mesh only *)
  syn_dataset_fields : option (list (string * string))
}.

(** [_create_syns] (lines 338-371). *)
Definition _create_syns (b : Bundle) (needed_syns : list Info.t) : list Syn :=
  let needs_mesh :=
    fold_left (fun d info => dict_set (Info.dataset info) (Info.kind info) d)
              (filter Info.needs_mesh needed_syns) [] in
  map (fun needed_syn =>
         mkSyn (Info.kind needed_syn) (Info.dataset needed_syn)
               (Info.component needed_syn) (Info.times needed_syn)
               (if Info.kind needed_syn =? "mesh" then Some needs_mesh else None))
      needed_syns.

(** ** The two planners *)

(** [ti.sort()] on the pairs (time, infolist): a stable sort on the time.
    The times of the grid are pairwise distinct (see [plan_times_NoDup]), so
    the comparison of two pairs never reaches their second component. *)
Fixpoint insert_ti (x : Qc * list Info.t) (l : list (Qc * list Info.t))
  : list (Qc * list Info.t) :=
  match l with
  | [] => [x]
  | y :: l' => if Qc_leb (fst x) (fst y) then x :: l else y :: insert_ti x l'
  end.

Definition sort_ti (l : list (Qc * list Info.t)) : list (Qc * list Info.t) :=
  fold_right insert_ti [] l.

Definition empty_plan : Plan := mkPlan [] [] [].

(** Lines 78-161: the loop over the datasets. *)
Definition scan_by_time (b : Bundle) (compute : string)
           (provided_times : option (list Qc)) (allow_oversample : bool) : Plan :=
  fold_left (extract_dataset_by_time b compute provided_times allow_oversample)
            (datasets b) empty_plan.

(** [_extract_from_bundle_by_time] (lines 60-175). *)
Definition _extract_from_bundle_by_time (b : Bundle) (compute : string)
           (protomesh pbmesh : bool) (times : option (list Qc))
           (allow_oversample : bool)
  : result (list Qc * list (list Info.t) * list Syn) :=
  let st := scan_by_time b compute times allow_oversample in
  let times := p_times st in
  let '(needed_syns, infos) :=
    if protomesh
    then _handle_protomesh b compute (p_needed_syns st) (p_infos st)
    else (p_needed_syns st, p_infos st) in
  '(needed_syns, infos) <-
    (if pbmesh
     then _handle_automesh b compute needed_syns infos (Some times)
     else inr (needed_syns, infos));;
  let '(times, infos) :=
    if nonempty times
    then let ti := sort_ti (combine times infos) in (map fst ti, map snd ti)
    else (times, infos) in
  inr (times, infos, _create_syns b needed_syns).

Definition scan_by_dataset (b : Bundle) (compute : string)
           (provided_times : option (list Qc)) : Plan :=
  fold_left (extract_dataset_by_dataset b compute provided_times)
            (datasets b) empty_plan.

(** [_extract_from_bundle_by_dataset] (lines 177-266). *)
Definition _extract_from_bundle_by_dataset (b : Bundle) (compute : string)
           (protomesh pbmesh : bool) (times : option (list Qc))
  : result (list (list Info.t) * list Syn) :=
  let st := scan_by_dataset b compute times in
  let '(needed_syns, infos) :=
    if protomesh
    then _handle_protomesh b compute (p_needed_syns st) (p_infos st)
    else (p_needed_syns st, p_infos st) in
  '(needed_syns, infos) <-
    (if pbmesh
     then _handle_automesh b compute needed_syns infos None
     else inr (needed_syns, infos));;
  inr (infos, _create_syns b needed_syns).

(** The default of the argument [times] of both [phoebe] and [legacy]. *)
Definition default_times : list Qc := [].

(** The planning call of [phoebe] (lines 435-440). *)
Definition phoebe_plan (b : Bundle) (compute : string)
           (protomesh pbmesh : bool) (times : list Qc) :=
  _extract_from_bundle_by_time b compute protomesh pbmesh (Some times) true.

(** The planning call of [legacy] (line 1068). *)
Definition legacy_plan (b : Bundle) (compute : string)
           (protomesh pbmesh : bool) (times : list Qc) :=
  _extract_from_bundle_by_dataset b compute protomesh pbmesh (Some times).

(** ** LuminosityCalibrator

    Lines 547-592 of [phoebe], for one dataset of kind lc. The scale held by
    each body for the dataset is a dict from component to scale; the calls
    made on the bodies are logged in order. *)

Section Calibration.

(** The type of a passband-luminosity scale. *)
Variable Scale : Type.
(** The value that [Body.compute_pblum_scale(dataset, pblum, ld_func,
    ld_coeffs)] stores for a component and a dataset ([pblum], [ld_func]
    and [ld_coeffs] are looked up in the bundle for that pair). *)
Variable computed_scale : string -> string -> Scale.
(** [Body.get_pblum_scale(dataset)], as a function of what the body holds
    for the dataset ([None]: nothing stored yet). *)
Variable get_pblum_scale : option Scale -> Scale.
(** [pblum_copy.items()]: the iteration order of a Python 2 dict. *)
Variable dict_items : list (string * string) -> list (string * string).

Inductive cal_event : Type :=
| ComputeScale (component : string)
| CopyScale (comp comp_copy : string).

Record CalState : Type := mkCal {
  (* system.get_body(component)._pblum_scale[dataset], by component *)
  scales : list (string * Scale);
  cal_log : list cal_event
}.

(** Lines 572-587: the body of the loop over [meshablerefs]. *)
Definition calibrate_component (b : Bundle) (dataset : string)
           (acc : CalState * list (string * string)) (component : string)
  : CalState * list (string * string) :=
  let (st, pblum_copy) := acc in
  if component =? "_default" then acc
  else
    let pblum_ref_ := pblum_ref b component dataset in
    if pblum_ref_ =? "self" then
      (mkCal (dict_set component (computed_scale component dataset) (scales st))
             (cal_log st ++ [ComputeScale component]),
       pblum_copy)
    else (st, dict_set component pblum_ref_ pblum_copy).

(** Line 592: one copy. *)
Definition copy_scale (st : CalState) (item : string * string) : CalState :=
  let (comp, comp_copy) := item in
  mkCal (dict_set comp (get_pblum_scale (dict_get comp_copy (scales st)))
                  (scales st))
        (cal_log st ++ [CopyScale comp comp_copy]).

(** Lines 571-587: the first pass and the dict [pblum_copy] it leaves. *)
Definition first_pass (b : Bundle) (dataset : string)
  : CalState * list (string * string) :=
  fold_left (calibrate_component b dataset) (get_meshables b)
            (mkCal [] [], []).

(** Lines 571-592 for one dataset. *)
Definition calibrate_dataset (b : Bundle) (dataset : string) : CalState :=
  let (st, pblum_copy) := first_pass b dataset in
  fold_left copy_scale (dict_items pblum_copy) st.

(** Lines 548-560: the datasets that are calibrated. *)
Definition is_lc_dataset (b : Bundle) (dataset : string) : bool :=
  if dataset =? "_default" then false
  else match dep_kind b dataset with
       | None => false
       | Some k => str_in (str_drop_last 4 k) ["lc"]
       end.

(** Lines 533-592: the calibration of every dataset of kind lc. *)
Definition calibrate (b : Bundle) : list (string * CalState) :=
  if str_in "lc" (dataset_kinds b) || str_in "rv" (dataset_kinds b)
  then map (fun dataset => (dataset, calibrate_dataset b dataset))
           (filter (is_lc_dataset b) (datasets b))
  else [].

(** The scale a body holds for the dataset once the calibration is done. *)
Definition stored_scale (b : Bundle) (dataset component : string)
  : option Scale :=
  dict_get component (scales (calibrate_dataset b dataset)).

(** "The scale of [src] was computed before position [n] of the log." *)
Definition computed_before (log : list cal_event) (n : nat) (src : string)
  : Prop :=
  exists m, m < n /\ nth_error log m = Some (ComputeScale src).

(** The ordering of the claim: every copy in the log reads a scale that
    was computed earlier. *)
Definition copies_follow_computation (log : list cal_event) : Prop :=
  forall n comp comp_copy,
    nth_error log n = Some (CopyScale comp comp_copy) ->
    computed_before log n comp_copy.

End Calibration.

Arguments ComputeScale component%_string.
Arguments CopyScale (comp comp_copy)%_string.
Arguments mkCal {Scale} scales cal_log.
Arguments scales {Scale} c.
Arguments cal_log {Scale} c.
Arguments computed_before log n%_nat src%_string.

(** ** StepOrchestrator

    The main loop of [phoebe] (lines 598-827). The system, the dynamics and
    the containers are external: what the loop asks of them is a record of
    functions, and what the loop does to them is a trace of events. *)

Section Orchestrator.

(** Arrays and quantities produced by the external services. *)
Variable V : Type.

Inductive Value : Type :=
| Num (q : Qc)
| Ext (v : V)
| Neg (v : V).

(** The container addressed by [new_syns.filter(component, dataset, kind,
    time)]; [time] is given for the kinds mesh and sp only. *)
Record Slot : Type := mkSlot {
  slot_component : option string;
  slot_dataset : string;
  slot_kind : string;
  slot_time : option Qc
}.

Inductive event : Type :=
| UpdatePositions (time : Qc)
| HandleEclipses (expose_horizon : bool)
| PopulateObservables (time : Qc) (kinds datasets : list string)
| Assign (s : Slot) (qualifier : string) (v : Value)
| AppendTo (s : Slot) (qualifier : string) (v : Value)
| Yield (time : option Qc).

Record Body : Type := mkBody {
  distortion_method : string;
  mesh_method : string
}.

Record Services : Type := {
  (* system.get_body(component) *)
  get_body : option string -> Body;
  (* system.observe(dataset, kind, components=component, ...)[key] *)
  observe : string -> string -> option string -> string -> V;
  (* system.observe(dataset, kind='ifm', ...).keys() *)
  observe_keys : string -> option string -> list string;
  (* etvs.crossing(b, component, time, dynamics_method, ltte, tol) *)
  crossing : string -> option string -> Qc -> Qc;
  (* this_obs.get_parameter(qualifier='Ns').interp_value(time_ephems=time) *)
  interp_Ns : string -> option string -> Qc -> V;
  (* xi[cind], ..., eincli[cind] at the time index i *)
  traj : string -> nat -> option nat -> V;
  (* a column of the current mesh of a body, named by the qualifier it
     is written to *)
  mesh_column : option string -> string -> V;
  (* what system.handle_eclipses(expose_horizon) returns at this time:
     None, or horizons[cind][:,k] by column name *)
  handle_eclipses : Qc -> bool -> option (option nat -> string -> V);
  (* horizon_analytic.marching(q, F, d, Phi, scale, euler, pos)[key] *)
  horizon_marching : option string -> nat -> option nat -> string -> V;
  (* horizon_analytic.wd(b, time, scale, pos)[key] *)
  horizon_wd : option string -> Qc -> nat -> option nat -> string -> V;
  (* body.compute_luminosity(dataset) *)
  compute_luminosity : option string -> string -> V;
  (* body.mesh[key].centers for key = indep:dataset *)
  mesh_dependent : option string -> string -> V;
  (* the message of the ValueError that new_syns.set_value(qualifier,
     time, dataset, component, kind='mesh') raises, None when it succeeds *)
  set_value_error : string -> Qc -> string -> option string -> option string;
  (* new_syns.filter(qualifier, time, dataset, component, kind='mesh').twigs *)
  matching_twigs : string -> Qc -> string -> option string -> list string
}.

Variable sv : Services.
(** [hier.get_stars()] and the compute option [horizon]. *)
Variable starrefs : list string.
Variable do_horizon : bool.

Record LoopState : Type := mkLoop {
  trace : list event;
  (* the variable horizons: None while it is unbound *)
  horizons : option (option (option nat -> string -> V))
}.

Definition emit (evs : list event) (st : LoopState) : LoopState :=
  mkLoop (trace st ++ evs) (horizons st).

Definition ok (st : LoopState) : LoopState * option py_error := (st, None).
Definition raise (e : py_error) (st : LoopState)
  : LoopState * option py_error := (st, Some e).

(** Sequencing of two statements, the second skipped when the first
    raises. *)
Definition seq2 (f g : LoopState -> LoopState * option py_error)
           (st : LoopState) : LoopState * option py_error :=
  match f st with
  | (st', None) => g st'
  | (st', Some e) => (st', Some e)
  end.

(** A [for] loop whose body may raise. *)
Fixpoint for_each {A : Type} (body : A -> LoopState -> LoopState * option py_error)
         (l : list A) (st : LoopState) : LoopState * option py_error :=
  match l with
  | [] => ok st
  | x :: l' => seq2 (body x) (for_each body l') st
  end.

Fixpoint index_str (x : string) (l : list string) : option nat :=
  match l with
  | [] => None
  | y :: l' => if x =? y then Some O
               else match index_str x l' with
                    | Some n => Some (S n)
                    | None => None
                    end
  end.

(** Line 661. *)
Definition cind_of (component : option string) : option nat :=
  match component with
  | Some c => index_str c starrefs
  | None => None
  end.

(** Lines 666-675. *)
Definition this_syn_of (info : Info.t) (time : Qc) : Slot :=
  mkSlot (Info.component info) (Info.dataset info) (Info.kind info)
         (if str_in (Info.kind info) ["mesh"; "sp"] then Some time else None).

(** Lines 730-770: the columns read from the body and its mesh. *)
Definition mesh_qualifiers : list string :=
  ["pot"; "rpole"; "volume"; "xs"; "ys"; "zs"; "vxs"; "vys"; "vzs";
   "vertices"; "areas"; "normals"; "nxs"; "nys"; "nzs"; "mus"; "loggs";
   "teffs"; "rs"; "r_projs"; "visibilities"; "visible_centroids"].

(** Lines 773-776. *)
Definition fill_horizon (this_syn : Slot) (cind : option nat)
           (st : LoopState) : LoopState * option py_error :=
  if do_horizon then
    match horizons st with
    | None => raise (NameError "horizons") st
    | Some None => ok st
    | Some (Some h) =>
        ok (emit [Assign this_syn "horizon_xs" (Ext (h cind "xs"));
                  Assign this_syn "horizon_ys" (Ext (h cind "ys"));
                  Assign this_syn "horizon_zs" (Ext (h cind "zs"))] st)
    end
  else ok st.

(** Lines 779-796. *)
Definition fill_horizon_analytic (this_syn : Slot) (info : Info.t)
           (i : nat) (time : Qc) (cind : option nat)
           (st : LoopState) : LoopState * option py_error :=
  let body := get_body sv (Info.component info) in
  if do_horizon then
    if distortion_method body =? "roche" then
      let store ha :=
        ok (emit [Assign this_syn "horizon_analytic_xs" (Ext (ha "xs"));
                  Assign this_syn "horizon_analytic_ys" (Ext (ha "ys"));
                  Assign this_syn "horizon_analytic_zs" (Ext (ha "zs"))] st) in
      if mesh_method body =? "marching" then
        store (horizon_marching sv (Info.component info) i cind)
      else if mesh_method body =? "wd" then
        store (horizon_wd sv (Info.component info) time i cind)
      else
        raise (NotImplementedError
                 ("analytic horizon not implemented for mesh_method='"
                    ++ mesh_method body ++ "'")) st
    else ok st
  else ok st.

(** Lines 800-803. *)
Definition indeps : list (string * list string) :=
  [("rv", ["rvs"; "intensities"; "normal_intensities"; "boost_factors";
           "abs_intensities"; "abs_normal_intensities"]);
   ("lc", ["intensities"; "normal_intensities"; "boost_factors";
           "abs_intensities"; "abs_normal_intensities"]);
   ("ifm", [])].

Definition mesh_slot (info infomesh : Info.t) (time : Qc) : Slot :=
  mkSlot (Info.component info) (Info.dataset infomesh) "mesh" (Some time).

(** Lines 808-816. *)
Definition fill_indep (info infomesh : Info.t) (time : Qc) (indep : string)
           (st : LoopState) : LoopState * option py_error :=
  match set_value_error sv indep time (Info.dataset infomesh)
                        (Info.component info) with
  | None =>
      ok (emit [Assign (mesh_slot info infomesh time) indep
                  (Ext (mesh_dependent sv (Info.component info)
                          (indep ++ ":" ++ Info.dataset infomesh)))] st)
  | Some _ =>
      raise (ValueError
               ("more than 1 result found: "
                  ++ String.concat ","
                       (matching_twigs sv indep time (Info.dataset infomesh)
                                       (Info.component info)))) st
  end.

(** Lines 805-816: the body of the loop over [infolist]. *)
Definition fill_dependent (info : Info.t) (time : Qc) (infomesh : Info.t)
           (st : LoopState) : LoopState * option py_error :=
  if Info.needs_mesh infomesh && negb (Info.kind infomesh =? "mesh") then
    match set_value_error sv "pblum" time (Info.dataset infomesh)
                          (Info.component info) with
    | Some msg => raise (ValueError msg) st
    | None =>
        let st := emit [Assign (mesh_slot info infomesh time) "pblum"
                          (Ext (compute_luminosity sv (Info.component info)
                                  (Info.dataset infomesh)))] st in
        match dict_get (Info.kind infomesh) indeps with
        | None => raise (KeyError (Info.kind infomesh)) st
        | Some qualifiers =>
            for_each (fill_indep info infomesh time) qualifiers st
        end
    end
  else ok st.

(** Lines 725-816: the branch of kind mesh. *)
Definition fill_mesh_info (infolist : list Info.t) (info : Info.t)
           (i : nat) (time : Qc) (st : LoopState)
  : LoopState * option py_error :=
  let this_syn := this_syn_of info time in
  let cind := cind_of (Info.component info) in
  let st :=
    emit (map (fun q => Assign this_syn q
                          (Ext (mesh_column sv (Info.component info) q)))
              mesh_qualifiers) st in
  seq2 (fill_horizon this_syn cind)
       (seq2 (fill_horizon_analytic this_syn info i time cind)
             (for_each (fill_dependent info time) infolist)) st.

(** Lines 659-820: the body of the loop over the items of a time step. *)
Definition fill_info (infolist : list Info.t) (i : nat) (time : Qc)
           (info : Info.t) (st : LoopState) : LoopState * option py_error :=
  let cind := cind_of (Info.component info) in
  let kind := Info.kind info in
  let this_syn := this_syn_of info time in
  if kind =? "rv" then
    if Info.needs_mesh info then
      ok (emit [AppendTo this_syn "rvs"
                  (Ext (observe sv (Info.dataset info) kind
                                (Info.component info) "rv"))] st)
    else
      ok (emit [AppendTo this_syn "rvs" (Neg (traj sv "vz" i cind))] st)
  else if kind =? "lc" then
    ok (emit [AppendTo this_syn "fluxes"
                (Ext (observe sv (Info.dataset info) kind
                              (Info.component info) "flux"))] st)
  else if kind =? "etv" then
    let time_ecl := crossing sv (Info.dataset info) (Info.component info) time in
    ok (emit [AppendTo this_syn "Ns"
                (Ext (interp_Ns sv (Info.dataset info)
                                (Info.component info) time));
              AppendTo this_syn "time_ephems" (Num time);
              AppendTo this_syn "time_ecls" (Num time_ecl);
              AppendTo this_syn "etvs" (Num (time_ecl - time)%Qc)] st)
  else if kind =? "ifm" then
    ok (emit (map (fun key =>
                     Assign this_syn key
                            (Ext (observe sv (Info.dataset info) kind
                                          (Info.component info) key)))
                  (observe_keys sv (Info.dataset info) (Info.component info)))
             st)
  else if kind =? "orb" then
    ok (emit (map (fun q => AppendTo this_syn (q ++ "s")
                              (Ext (traj sv q i cind)))
                  ["x"; "y"; "z"; "vx"; "vy"; "vz"]) st)
  else if kind =? "mesh" then
    fill_mesh_info infolist info i time st
  else
    raise (NotImplementedError
             ("kind " ++ kind ++ " not yet supported by this backend")) st.

(** Lines 613-654: the mesh update of a time step. The arguments [di] and
    [Fi] of [update_positions] (lines 615-624) belong to the dynamics, which
    the events do not record. The model is for the runs in which they are
    read from bound variables: with the dynamics method nbody or rebound and
    a single star that is not an envelope, [inst_ds] was never bound (lines
    451-476) and the first mesh update raises an UnboundLocalError. *)
Definition update_mesh (time : Qc) (infolist : list Info.t)
           (st : LoopState) : LoopState :=
  if existsb Info.needs_mesh infolist then
    let expose_horizon :=
      str_in "mesh" (map Info.kind infolist) && do_horizon in
    let needing := filter Info.needs_mesh infolist in
    mkLoop (trace st ++ [UpdatePositions time;
                         HandleEclipses expose_horizon;
                         PopulateObservables time (map Info.kind needing)
                                             (map Info.dataset needing)])
           (Some (handle_eclipses sv time expose_horizon))
  else st.

(** Lines 598-824: one time step. *)
Definition step (as_generator : bool) (i : nat) (time : Qc)
           (infolist : list Info.t) (st : LoopState)
  : LoopState * option py_error :=
  seq2 (for_each (fill_info infolist i time) infolist)
       (fun st => ok (if as_generator then emit [Yield (Some time)] st else st))
       (update_mesh time infolist st).

Fixpoint main_loop_from (as_generator : bool) (i : nat)
         (steps : list (Qc * list Info.t)) (st : LoopState)
  : LoopState * option py_error :=
  match steps with
  | [] => ok st
  | (time, infolist) :: rest =>
      seq2 (step as_generator i time infolist)
           (main_loop_from as_generator (S i) rest) st
  end.

(** The main compute loop and the final [yield] (lines 598-827). *)
Definition main_loop (as_generator : bool) (times : list Qc)
           (infos : list (list Info.t)) : LoopState * option py_error :=
  seq2 (main_loop_from as_generator O (combine times infos))
       (fun st => ok (if as_generator then st else emit [Yield None] st))
       (mkLoop [] None).

End Orchestrator.

(** ** LegacyAdapter: the translation of a legacy mesh

    [ret_dict] and [fill_mesh] of [legacy] (lines 902-1033). A legacy mesh is
    a dict from column name to an array; arrays are lists of exact numbers,
    and [np.sqrt] is a parameter. Arithmetic on two arrays is entry by entry,
    for the meshes whose columns have one length: where the lengths differ
    numpy raises a ValueError (or repeats the only entry of a column of
    length 1), which [map2] does not model. *)

Section Legacy.

Variable sqrt : Qc -> Qc.

Definition p2to1 : list (string * string) :=
  [("tloc", "teffs"); ("glog", "loggs"); ("vcx", "xs"); ("vcy", "ys");
   ("vcz", "zs"); ("grx", "nxs"); ("gry", "nys"); ("grz", "nzs");
   ("csbt", "cosbetas"); ("rad", "rs"); ("Inorm", "abs_normal_intensities")].

(** [int(c)] for a character. *)
Definition digit_of_ascii (c : ascii) : option nat :=
  let n := nat_of_ascii c in
  if Nat.leb 48 n && Nat.leb n 57 then Some (n - 48) else None.

(** [key[-1]] *)
Fixpoint str_last (s : string) : option ascii :=
  match s with
  | EmptyString => None
  | String c EmptyString => Some c
  | String _ s' => str_last s'
  end.

(** [int(key[-1])] *)
Definition last_digit (key : string) : result nat :=
  match str_last key with
  | None => inl (IndexError "string index out of range")
  | Some c =>
      match digit_of_ascii c with
      | None => inl (ValueError "invalid literal for int() with base 10")
      | Some n => inr n
      end
  end.

(** The keyword arguments [d] built for [new_syns.set_value]. *)
Record MeshEntry : Type := mkEntry {
  e_component : string;
  e_qualifier : string;
  (* d['unit'] is set for Inorm only *)
  e_has_unit : bool;
  e_dataset : string;
  e_times : option Qc;
  e_value : list Qc
}.

(** [ret_dict] (lines 904-939): component, qualifier, and whether a unit
    is attached. *)
Definition ret_dict (key : string) : result (string * string * bool) :=
  comp <- last_digit key;;
  let key := str_drop_last 1 key in
  component <-
    (if Nat.eqb comp 1 then inr "primary"
     else if Nat.eqb comp 2 then inr "secondary"
     else inl (ValueError "All mesh keys should be component specific."));;
  let qualifier :=
    match dict_get key p2to1 with
    | Some q => q
    | None => key
    end in
  inr (component, qualifier, key =? "Inorm").

(** [np.array(zip(s0*v, ..., s7*v)).flatten()]: every entry is repeated
    eight times, negated where the pattern says so. *)
Definition expand8 (negated : list bool) (val : list Qc) : list Qc :=
  flat_map (fun v => map (fun n : bool => if n then (- v)%Qc else v) negated)
           val.

(** The three patterns of lines 979, 981 and 983. *)
Definition pattern_y : list bool :=
  [false; false; true; true; false; false; true; true].
Definition pattern_z : list bool :=
  [false; false; false; false; true; true; true; true].
Definition pattern_plain : list bool :=
  [false; false; false; false; false; false; false; false].

(** Lines 978-983. The conditions are the Python expressions
    ['vcy' or 'gry' in key] and ['vcz' or 'grz' in key], in which [in]
    binds tighter than [or]. *)
Definition protomesh_key_val (key : string) (prot_val : list Qc) : list Qc :=
  let key_val : option (list Qc) :=
    if str_truthy "vcy" || str_contains "gry" key
    then Some (expand8 pattern_y prot_val) else None in
  if str_truthy "vcz" || str_contains "grz" key
  then expand8 pattern_z prot_val
  else expand8 pattern_plain prot_val.

Fixpoint map2 (f : Qc -> Qc -> Qc) (l1 l2 : list Qc) : list Qc :=
  match l1, l2 with
  | x :: l1', y :: l2' => f x y :: map2 f l1' l2'
  | _, _ => []
  end.

Definition mesh_get (mesh : list (string * list Qc)) (key : string)
  : result (list Qc) :=
  match dict_get key mesh with
  | Some v => inr v
  | None => inl (KeyError key)
  end.

(** Lines 959-968: [np.sqrt(grx**2+gry**2+grz**2)] for the star [n]. *)
Definition grtot_of (mesh : list (string * list Qc)) (n : string)
  : result (list Qc) :=
  grx <- mesh_get mesh ("grx" ++ n);;
  gry <- mesh_get mesh ("gry" ++ n);;
  grz <- mesh_get mesh ("grz" ++ n);;
  inr (map sqrt
           (map2 Qcplus (map2 Qcplus (map (fun x => x * x)%Qc grx)
                                     (map (fun x => x * x)%Qc gry))
                 (map (fun x => x * x)%Qc grz))).

(** Lines 973-999: the entry built for one key of a protomesh. *)
Definition protomesh_entry (mesh : list (string * list Qc))
           (grtot : list (list Qc)) (key : string) : result MeshEntry :=
  '(component, qualifier, has_unit) <- ret_dict key;;
  prot_val <- mesh_get mesh key;;
  let key_val := protomesh_key_val key prot_val in
  if String.substring 0 2 key =? "gr" then
    n <- last_digit key;;
    match nth_error grtot (n - 1) with
    | None => inl (IndexError "list index out of range")
    | Some grtotn =>
        (* normals should be normalized *)
        inr (mkEntry component qualifier has_unit "protomesh" None
                     (map2 Qcdiv (map Qcopp key_val)
                           (expand8 pattern_plain grtotn)))
    end
  else
    inr (mkEntry component qualifier has_unit "protomesh" None key_val).

Fixpoint collect {A B : Type} (f : A -> result (list B)) (l : list A)
  : result (list B) :=
  match l with
  | [] => inr []
  | x :: l' => ys <- f x;; rest <- collect f l';; inr (ys ++ rest)
  end.

(** [np.array_split(ary, n)]: [n] sections, the first [len % n] of them
    one entry longer. *)
Fixpoint split_sizes (sizes : list nat) (ary : list Qc) : list (list Qc) :=
  match sizes with
  | [] => []
  | k :: sizes' => firstn k ary :: split_sizes sizes' (skipn k ary)
  end.

Definition array_split (ary : list Qc) (n : nat) : result (list (list Qc)) :=
  if Nat.eqb n 0 then inl (ValueError "number sections must be larger than 0.")
  else
    let neach := List.length ary / n in
    let extras := List.length ary mod n in
    inr (split_sizes (repeat (S neach) extras ++ repeat neach (n - extras))
                     ary).

(** Lines 1002-1028: the entries built for one key of an automesh, the
    dict [d] with the value [key_val]; only the keys Inorm1 and Inorm2 are
    handled. Whether an entry is handed to [new_syns.set_value] is decided by
    [new_syns.filter] (lines 1023-1028): see [hand_over]. *)
Definition pbmesh_entries (mesh : list (string * list Qc))
           (time : list Qc) (dataset : string) (key : string)
  : result (list MeshEntry) :=
  '(component, qualifier, has_unit) <- ret_dict key;;
  ary <- mesh_get mesh key;;
  key_values <- array_split ary (List.length time);;
  inr (flat_map
         (fun tv : Qc * list Qc =>
            if str_in key ["Inorm1"; "Inorm2"] then
              if str_in (String.substring 0 2 key) ["vc"; "gr"] then []
              else [mkEntry component qualifier has_unit dataset
                            (Some (fst tv)) (expand8 pattern_plain (snd tv))]
            else [])
         (combine time key_values)).

(** [fill_mesh] (lines 942-1033): the entries built, in the order of
    [mesh.keys()]. [new_syns.set_value] is called with every entry of a
    protomesh (lines 996-999) and with the entries of an automesh whose
    parameter [new_syns.filter] finds (lines 1023-1028): see
    [store_entries]. *)
Definition fill_mesh (mesh : list (string * list Qc)) (type : string)
           (time : list Qc) (dataset : string) : result (list MeshEntry) :=
  grtot <-
    (if type =? "protomesh" then
       g1 <- grtot_of mesh "1";;
       g2 <- grtot_of mesh "2";;
       inr [g1; g2]
     else inr []);;
  collect (fun key =>
             if type =? "protomesh" then
               e <- protomesh_entry mesh grtot key;; inr [e]
             else if type =? "pbmesh" then
               pbmesh_entries mesh time dataset key
             else
               _ <- ret_dict key;;
               inl (ValueError
                      "Only 'pbmesh' and 'protomesh' are acceptable mesh types."))
          (map fst mesh).

End Legacy.

(** ** LegacyAdapter: the main loop of [legacy]

    Lines 1048-1270 of [legacy], for a system on which the library
    phoebeBackend is installed and configured. What the loop asks of the
    library is a record of functions; what it does to the library and to the
    synthetics is a trace of events. *)

(** The argument [times] of [legacy], when it is not [None]: a Python list
    (the default is the list []) or a numpy array. *)
Inductive TimesArg : Type :=
| PyList (values : list Qc)
| NdArray (values : list Qc).

Definition times_values (times : TimesArg) : list Qc :=
  match times with
  | PyList values | NdArray values => values
  end.

(** Whether [info['times']] of the planned dataset items has the method
    [tolist]. When [times] is passed, every planned item holds that very
    object as its times (line 237); otherwise it holds the array of its
    dataset. A Python list has no such method. *)
Definition has_tolist (times : option TimesArg) : bool :=
  match times with
  | Some (PyList _) => false
  | _ => true
  end.

Section LegacyLoop.

(** The arrays returned by the library. *)
Variable V : Type.
Variable sqrt : Qc -> Qc.

Record Phb1 : Type := {
  (* phb1.lc(times, curve) *)
  phb1_lc : list Qc -> nat -> V;
  (* phb1.lc(times, curve, mesh): the fluxes and the mesh *)
  phb1_lc_mesh : list Qc -> nat -> nat -> V * list (string * list Qc);
  (* phb1.getpar('phoebe_rv_id', i) *)
  phb1_rv_id : nat -> string;
  (* phb1.rv1(times, curve) and phb1.rv2(times, curve) *)
  phb1_rv1 : list Qc -> nat -> V;
  phb1_rv2 : list Qc -> nat -> V
}.

Inductive legacy_event : Type :=
| SetPar (name : string) (value : nat)
| CallLc (time : list Qc) (curve : nat)
| CallLcMesh (time : list Qc) (curve mesh : nat)
| CallRv1 (time : list Qc) (curve : nat)
| CallRv2 (time : list Qc) (curve : nat)
| SetSyn (component : option string) (dataset qualifier : string) (value : V)
| SetMesh (d : MeshEntry).

Record LegacyState : Type := mkLegacy {
  lcnum : nat;
  rvnum : nat;
  (* the variable dep: None while it is unbound *)
  dep : option (option string);
  legacy_trace : list legacy_event
}.

Variable phb1 : Phb1.

(** Whether [new_syns.filter], called with the dict [d], finds a parameter
    (lines 1023-1024). The answer depends on [new_syns], which is determined
    by what was written so far, and on [d], which holds the tags of the
    entry being built (and, from the second time of a column on, the value
    handed over last): it is a function of the trace and of the entry. *)
Variable new_syns_filter : list legacy_event -> MeshEntry -> bool.

Definition legacy_emit (evs : list legacy_event) (st : LegacyState)
  : LegacyState :=
  mkLegacy (lcnum st) (rvnum st) (dep st) (legacy_trace st ++ evs).

(** [info['times']] of a dataset item, an array of numbers. *)
Definition item_times (info : Info.t) : list Qc :=
  flat_map (fun o : option Qc => match o with Some t => [t] | None => [] end)
           (Info.times info).

(** Lines 958-968: the norms of the gradients, for a protomesh only. *)
Definition fill_mesh_grtot (mesh : list (string * list Qc)) (type : string)
  : result (list (list Qc)) :=
  if type =? "protomesh" then
    g1 <- grtot_of sqrt mesh "1";;
    g2 <- grtot_of sqrt mesh "2";;
    inr [g1; g2]
  else inr [].

(** Lines 971-1030: the body of the loop over the keys of the mesh. *)
Definition fill_mesh_key (mesh : list (string * list Qc)) (type : string)
           (grtot : list (list Qc)) (time : list Qc) (dataset : string)
           (key : string) : result (list MeshEntry) :=
  if type =? "protomesh" then
    e <- protomesh_entry mesh grtot key;; inr [e]
  else if type =? "pbmesh" then
    pbmesh_entries mesh time dataset key
  else
    _ <- ret_dict key;;
    inl (ValueError
           "Only 'pbmesh' and 'protomesh' are acceptable mesh types.").

(** Lines 1023-1028: an entry built for an automesh is handed to
    [new_syns.set_value] when [new_syns.filter] finds its parameter, and
    dropped with a warning otherwise. *)
Fixpoint hand_over (entries : list MeshEntry) (st : LegacyState)
  : LegacyState :=
  match entries with
  | [] => st
  | e :: rest =>
      hand_over rest (if new_syns_filter (legacy_trace st) e
                      then legacy_emit [SetMesh e] st
                      else st)
  end.

(** Lines 996-999 and 1023-1028: [new_syns.set_value] is called with every
    entry of a protomesh, and with the entries of an automesh that
    [new_syns.filter] lets through. *)
Definition store_entries (type : string) (entries : list MeshEntry)
           (st : LegacyState) : LegacyState :=
  if type =? "protomesh" then legacy_emit (map SetMesh entries) st
  else hand_over entries st.

(** Lines 970-1030: the keys are translated one after the other; what was
    handed over before a key raises stays handed over. *)
Fixpoint fill_mesh_keys (type : string)
         (f : string -> result (list MeshEntry))
         (keys : list string) (st : LegacyState)
  : LegacyState * option py_error :=
  match keys with
  | [] => (st, None)
  | key :: keys' =>
      match f key with
      | inl e => (st, Some e)
      | inr entries => fill_mesh_keys type f keys' (store_entries type entries st)
      end
  end.

(** The call [fill_mesh(mesh, type, time=time)] (lines 942-1033), with the
    variable [dataset] of the enclosing function. *)
Definition legacy_fill_mesh (mesh : list (string * list Qc)) (type : string)
           (time : list Qc) (dataset : string) (st : LegacyState)
  : LegacyState * option py_error :=
  match fill_mesh_grtot mesh type with
  | inl e => (st, Some e)
  | inr grtot =>
      fill_mesh_keys type (fill_mesh_key mesh type grtot time dataset)
                     (map fst mesh) st
  end.

(** [str(info['component'])] *)
Definition str_of_component (component : option string) : string :=
  match component with
  | Some c => c
  | None => "None"
  end.

(** Lines 1181-1194: in both branches [dep] ends as [info['component']],
    whatever the library answers for phoebe_rv_dep; when the dataset is
    neither of the two ids, [dep] keeps what it held. *)
Definition bind_dep (info : Info.t) (st : LegacyState) : LegacyState :=
  if (Info.dataset info =? phb1_rv_id phb1 0)
     || (Info.dataset info =? phb1_rv_id phb1 1)
  then mkLegacy (lcnum st) (rvnum st) (Some (Info.component info))
                (legacy_trace st)
  else st.

Definition opt_str_is (o : option string) (s : string) : bool :=
  match o with
  | Some c => c =? s
  | None => false
  end.

(** What [time.tolist()] raises on a Python list (lines 1092, 1100, 1212
    and 1217). *)
Definition no_tolist : py_error :=
  AttributeError "'list' object has no attribute 'tolist'".

(** Lines 1084-1231: the body of the loop over the work items; [tolist]
    tells whether the times of the item have the method [tolist]. *)
Definition legacy_item (b : Bundle) (compute : string) (pbmesh tolist : bool)
           (info : Info.t) (st : LegacyState)
  : LegacyState * option py_error :=
  let time := item_times info in
  let dataset := Info.dataset info in
  let component := Info.component info in
  if Info.kind info =? "lc" then
    if negb tolist then (st, Some no_tolist)
    else if negb pbmesh then
      (mkLegacy (S (lcnum st)) (rvnum st) (dep st)
                (legacy_trace st
                   ++ [CallLc time (lcnum st);
                       SetSyn component dataset "fluxes"
                              (phb1_lc phb1 time (lcnum st))]),
       None)
    else
      let (flux, mesh) := phb1_lc_mesh phb1 time 0 (lcnum st + 1) in
      legacy_fill_mesh mesh "pbmesh" time dataset
        (legacy_emit [CallLcMesh time 0 (lcnum st + 1);
                      SetSyn component dataset "fluxes" flux] st)
  else if Info.kind info =? "rv" then
    let st := bind_dep info st in
    let rveffects :=
      if rv_method b compute (Some "primary") dataset =? "flux-weighted"
      then 1 else 0 in
    match dep st with
    | None => (st, Some (NameError "dep"))
    | Some d =>
        if opt_str_is d "primary" then
          if negb tolist then
            (legacy_emit [SetPar "phoebe_proximity_rv1_switch" rveffects] st,
             Some no_tolist)
          else
            (mkLegacy (lcnum st) (S (rvnum st)) (dep st)
                      (legacy_trace st
                         ++ [SetPar "phoebe_proximity_rv1_switch" rveffects;
                             CallRv1 time 0;
                             SetSyn component dataset "rvs"
                                    (phb1_rv1 phb1 time 0)]),
             None)
        else if opt_str_is d "secondary" then
          if negb tolist then
            (legacy_emit [SetPar "phoebe_proximity_rv2_switch" rveffects] st,
             Some no_tolist)
          else
            (mkLegacy (lcnum st) (S (rvnum st)) (dep st)
                      (legacy_trace st
                         ++ [SetPar "phoebe_proximity_rv2_switch" rveffects;
                             CallRv2 time 0;
                             SetSyn component dataset "rvs"
                                    (phb1_rv2 phb1 time 0)]),
             None)
        else
          (st, Some (ValueError
                       (str_of_component component
                          ++ " is not the primary or the secondary star")))
    end
  else (st, None).

(** Lines 1083-1084: [for info in infos: info = info[0]]. *)
Fixpoint legacy_loop (b : Bundle) (compute : string) (pbmesh tolist : bool)
         (infos : list (list Info.t)) (st : LegacyState)
  : LegacyState * option py_error :=
  match infos with
  | [] => (st, None)
  | [] :: _ => (st, Some (IndexError "list index out of range"))
  | (info :: _) :: rest =>
      match legacy_item b compute pbmesh tolist info st with
      | (st', None) => legacy_loop b compute pbmesh tolist rest st'
      | (st', Some e) => (st', Some e)
      end
  end.

(** Lines 1076-1081: the protomesh, computed at the periastron passage. *)
Definition legacy_protomesh (perpass : Qc) (st : LegacyState)
  : LegacyState * option py_error :=
  let time := [perpass] in
  let (flux, mesh) := phb1_lc_mesh phb1 time 0 (lcnum st + 1) in
  legacy_fill_mesh mesh "protomesh" [] EmptyString
    (legacy_emit [SetPar "phoebe_lcno" 1;
                  CallLcMesh time 0 (lcnum st + 1)] st).

(** [legacy] (lines 1048-1270); [protomesh] and [pbmesh] are the values of
    the compute options, [perpass] the time of the periastron passage and
    [times] the argument of that name ([None], a list or an array). *)
Definition legacy (b : Bundle) (compute : string) (protomesh pbmesh : bool)
           (perpass : Qc) (times : option TimesArg)
  : LegacyState * option py_error :=
  let st := mkLegacy O O None [] in
  match get_stars b with
  | [] => (st, Some (ValueError "need more than 0 values to unpack"))
  | [_] => (st, Some (ValueError "need more than 1 value to unpack"))
  | [primary; secondary] =>
      match _extract_from_bundle_by_dataset
              b compute protomesh pbmesh (option_map times_values times) with
      | inl e => (st, Some e)
      | inr (infos, new_syns) =>
          if protomesh then
            match legacy_protomesh perpass st with
            | (st', None) =>
                legacy_loop b compute pbmesh (has_tolist times) infos st'
            | (st', Some e) => (st', Some e)
            end
          else legacy_loop b compute pbmesh (has_tolist times) infos st
      end
  | _ => (st, Some (ValueError "too many values to unpack"))
  end.

End LegacyLoop.

Arguments SetPar {V} name%_string value%_nat.
Arguments CallLc {V} time curve%_nat.
Arguments CallLcMesh {V} time (curve mesh)%_nat.
Arguments CallRv1 {V} time curve%_nat.
Arguments CallRv2 {V} time curve%_nat.
Arguments SetSyn {V} component (dataset qualifier)%_string value.
Arguments SetMesh {V} d.
Arguments mkLegacy {V} lcnum%_nat rvnum%_nat dep legacy_trace.
Arguments lcnum {V} l.
Arguments rvnum {V} l.
Arguments dep {V} l.
Arguments legacy_trace {V} l.
Arguments legacy_emit {V} evs st.

(** * Vocabulary of the statements

    Invariants of the planners and the values that the properties below
    compare the code with. *)

(** What the scan maintains: the times of the grid are pairwise distinct,
    [infos] runs parallel to [times], and every time of every recorded work
    item is a time of the grid. *)
Record plan_ok (st : Plan) : Prop := {
  ok_nodup : NoDup (p_times st);
  ok_length : List.length (p_times st) = List.length (p_infos st);
  ok_items : forall info ot,
      In info (p_needed_syns st) -> In ot (Info.times info) ->
      exists t, ot = Some t /\ In t (p_times st)
}.

(** A step of the scan keeps the invariant and only adds to the grid. *)
Definition extends (st st' : Plan) : Prop :=
  plan_ok st -> plan_ok st' /\ incl (p_times st) (p_times st').

(** The order on the pairs (time, infolist) that the sort of the grid
    establishes. *)
Definition le_fst (x y : Qc * list Info.t) : Prop := (fst x <= fst y)%Qc.

(** The virtual items that the two stages add to an empty plan. *)
Definition virtual_items (b : Bundle) (compute : string)
           (protomesh pbmesh : bool) : list Info.t :=
  (if protomesh
      && str_in (compute_kind b compute) _backends_that_support_protomesh
   then map protomesh_info (get_meshables b) else [])
  ++ (if pbmesh
         && str_in (compute_kind b compute) _backends_that_support_automesh
      then map (automesh_info []) (get_meshables b) else []).

(** The time array that the claim on the automesh items describes: the
    sorted, deduplicated union of the times of every mesh-requiring work item
    whose kind is not mesh. *)
Definition claimed_automesh_times (needed_syns : list Info.t)
  : list (option Qc) :=
  sort_otimes (nub_otimes (flat_map Info.times
                                    (filter wants_automesh needed_syns))).

(** The kinds that the claim on unsupported kinds lists as supported. *)
Definition listed_kinds : list string :=
  ["mesh"; "sp"; "rv"; "lc"; "etv"; "ifm"; "orb"].

(** The message of the error raised for a kind. *)
Definition unsupported_kind_message (kind : string) : string :=
  "kind " ++ kind ++ " not yet supported by this backend".

(** The components of the first pass of the calibration, by their
    reference mode: [pblum_ref] is self, or names another component. *)
Definition mode_is_self (b : Bundle) (dataset component : string) : bool :=
  negb (component =? "_default") && (pblum_ref b component dataset =? "self").
Definition mode_is_copy (b : Bundle) (dataset component : string) : bool :=
  negb (component =? "_default")
  && negb (pblum_ref b component dataset =? "self").

(** An entry of [pblum_copy]: a meshable component and its reference. *)
Definition reference_item (b : Bundle) (dataset : string)
           (item : string * string) : Prop :=
  In (fst item) (get_meshables b) /\ mode_is_copy b dataset (fst item) = true
  /\ snd item = pblum_ref b (fst item) dataset.

(** Every component of mode self holds the scale computed for it. *)
Definition selfs_hold_scales {Scale : Type}
           (computed_scale : string -> string -> Scale)
           (b : Bundle) (dataset : string) (st : CalState Scale) : Prop :=
  forall s, In s (get_meshables b) -> mode_is_self b dataset s = true ->
            dict_get s (scales st) = Some (computed_scale s dataset).

(** What the claim on the translation of a legacy mesh expects for a
    column: the sign pattern of the axis that the key names. *)
Definition axis_pattern (key : string) : list bool :=
  if str_contains "vcy" key || str_contains "gry" key then pattern_y
  else if str_contains "vcz" key || str_contains "grz" key then pattern_z
  else pattern_plain.


(** ** Time steps as registrations

    The time steps of a plan are pairs (time, infolist). The planners build
    them by registering one work item at one time after the other. *)

(** The times of a time array, without its [None] entries. *)
Definition somes (l : list (option Qc)) : list Qc :=
  flat_map (fun o => match o with Some t => [t] | None => [] end) l.

(** Every (item, time) of a list of work items, in order. *)
Definition regs_of (items : list Info.t) : list (Info.t * Qc) :=
  flat_map (fun info => map (pair info) (somes (Info.times info))) items.

(** One registration: the item joins the active list of the time, or the
    time enters the grid with the item alone. *)
Inductive registered (i : Info.t) (t : Qc)
  : list (Qc * list Info.t) -> list (Qc * list Info.t) -> Prop :=
| reg_existing pre l post :
    registered i t (pre ++ (t, l) :: post) (pre ++ (t, l ++ [i]) :: post)
| reg_new S : registered i t S (S ++ [(t, [i])]).

(** A sequence of registrations. *)
Inductive registers
  : list (Info.t * Qc) -> list (Qc * list Info.t) -> list (Qc * list Info.t)
    -> Prop :=
| regs_nil S : registers [] S S
| regs_cons i t rest S S1 S2 :
    registered i t S S1 -> registers rest S1 S2 ->
    registers ((i, t) :: rest) S S2.

(** "The item is in the active list of a time step at the time." *)
Definition active_at (S : list (Qc * list Info.t)) (info : Info.t) (t : Qc)
  : Prop :=
  exists l, In (t, l) S /\ In info l.

(** The number of entries of the active lists that satisfy [P]. *)
Definition entries (P : Info.t -> bool) (S : list (Qc * list Info.t)) : nat :=
  list_sum (map (fun s => List.length (filter P (snd s))) S).

(** The virtual items that the two stages add to a list of work items. *)
Definition protomesh_items (b : Bundle) (compute : string) (protomesh : bool)
  : list Info.t :=
  if protomesh
     && str_in (compute_kind b compute) _backends_that_support_protomesh
  then map protomesh_info (get_meshables b) else [].

Definition automesh_items (b : Bundle) (compute : string) (pbmesh : bool)
           (needed_syns : list Info.t) : list Info.t :=
  if pbmesh && str_in (compute_kind b compute) _backends_that_support_automesh
  then map (automesh_info (automesh_times needed_syns)) (get_meshables b)
  else [].

(** The work items that the by-time planner puts in time steps: those of
    the scan and the automesh items (the protomesh items are in no step). *)
Definition stepped_items (b : Bundle) (compute : string)
           (protomesh pbmesh : bool) (provided_times : option (list Qc))
           (allow_oversample : bool) : list Info.t :=
  let needed_syns :=
    p_needed_syns (scan_by_time b compute provided_times allow_oversample) in
  needed_syns
    ++ automesh_items b compute pbmesh
         (needed_syns ++ protomesh_items b compute protomesh).

(** What the scan maintains on its time steps: they are the registrations
    of the work items recorded so far. *)
Definition plan_registered (st : Plan) : Prop :=
  List.length (p_times st) = List.length (p_infos st)
  /\ registers (regs_of (p_needed_syns st)) []
               (combine (p_times st) (p_infos st)).

(** "The flag of the work item is what [_needs_mesh] answers for its tags." *)
Definition flag_consistent (b : Bundle) (compute : string) (info : Info.t)
  : Prop :=
  Info.needs_mesh info
  = _needs_mesh b (Info.dataset info) (Info.kind info) (Info.component info)
                compute.

(** The strict order of the entries of a time array ([None] first). *)
Definition otime_ltb (x y : option Qc) : bool :=
  otime_leb x y && negb (otime_eqb x y).

(** "The item is the last of its dataset among the mesh-requiring items
    that are not of kind mesh." *)
Definition last_of_dataset (needed_syns : list Info.t) (info : Info.t) : Prop :=
  exists pre post,
    filter wants_automesh needed_syns = pre ++ info :: post
    /\ ~ In (Info.dataset info) (map Info.dataset post).

(** ** Reading the trace of the main loop *)

Definition is_assign {V : Type} (ev : event V) : bool :=
  match ev with
  | Assign _ _ _ _ => true
  | _ => false
  end.

(** "The event writes into a container of the synthetics." *)
Definition is_write {V : Type} (ev : event V) : bool :=
  match ev with
  | Assign _ _ _ _ | AppendTo _ _ _ _ => true
  | _ => false
  end.

Definition is_yield {V : Type} (ev : event V) : bool :=
  match ev with
  | Yield _ _ => true
  | _ => false
  end.

(** "The event is a call on the system." *)
Definition is_system {V : Type} (ev : event V) : bool :=
  match ev with
  | UpdatePositions _ _ | HandleEclipses _ _ | PopulateObservables _ _ _ _ => true
  | _ => false
  end.

(** "Whatever was traced before, the statement appends the same events, all
    of them of the given sort, returns the same outcome and leaves the
    variable [horizons] as it was." *)
Definition appends {V : Type} (P : event V -> bool)
           (f : LoopState V -> LoopState V * option py_error) : Prop :=
  forall h, exists evs e,
      forallb P evs = true
      /\ forall tr, f (mkLoop V tr h) = (mkLoop V (tr ++ evs) h, e).

(** The mesh updates of the time steps alone, without the fills. *)
Definition mesh_updates_from {V : Type} (sv : Services V) (do_horizon : bool)
           (st : LoopState V) (steps : list (Qc * list Info.t)) : LoopState V :=
  fold_left (fun st s => update_mesh V sv do_horizon (fst s) (snd s) st)
            steps st.

Definition mesh_updates {V : Type} (sv : Services V) (do_horizon : bool)
           (steps : list (Qc * list Info.t)) : LoopState V :=
  mesh_updates_from sv do_horizon (mkLoop V [] None) steps.

(** The [yield] of the streaming mode at the end of a time step. *)
Definition step_yield {V : Type} (s : Qc * list Info.t) : event V :=
  Yield V (Some (fst s)).

(** "The outcome is one of the two exceptions of the loop's own
    bookkeeping": the NameError of the variable [horizons] read before it is
    bound (line 773), or the KeyError of a kind missing from [indeps]
    (line 808). *)
Definition is_bookkeeping_error (e : option py_error) : bool :=
  match e with
  | Some (NameError name) => name =? "horizons"
  | Some (KeyError _) => true
  | _ => false
  end.

(** "Under condition [c] the variable [horizons] is bound." *)
Definition bound_if {V : Type} (c : Prop) (st : LoopState V) : Prop :=
  c -> horizons V st <> None.

(** "The statement raises neither exception, in any state in which
    [horizons] is bound under [c]." *)
Definition safe_if {V : Type} (c : Prop)
           (f : LoopState V -> LoopState V * option py_error) : Prop :=
  forall st, bound_if c st -> is_bookkeeping_error (snd (f st)) = false.

(** The two properties of the mesh flags on which the fills rely. *)
Definition flags_fit (infolist : list Info.t) : Prop :=
  forall info, In info infolist ->
    (Info.needs_mesh info = true -> In (Info.kind info) ["mesh"; "lc"; "rv"])
    /\ (Info.kind info = "mesh" -> Info.needs_mesh info = true).

(** ** Counting the values appended to a container *)

Definition opt_str_eqb (x y : option string) : bool :=
  match x, y with
  | Some a, Some c => a =? c
  | None, None => true
  | _, _ => false
  end.

Definition slot_eqb (s1 s2 : Slot) : bool :=
  opt_str_eqb (slot_component s1) (slot_component s2)
  && (slot_dataset s1 =? slot_dataset s2)
  && (slot_kind s1 =? slot_kind s2)
  && is_none (slot_time s1) && is_none (slot_time s2).

(** The container of an item whose kind is neither mesh nor sp, and of the
    synthetic allocated for it. *)
Definition info_slot (info : Info.t) : Slot :=
  mkSlot (Info.component info) (Info.dataset info) (Info.kind info) None.

Definition syn_slot (syn : Syn) : Slot :=
  mkSlot (syn_component syn) (syn_dataset syn) (syn_kind syn) None.

(** The arrays that grow by one value per time (lines 686-723). *)
Definition appended_qualifiers (kind : string) : list string :=
  if kind =? "rv" then ["rvs"]
  else if kind =? "lc" then ["fluxes"]
  else if kind =? "etv" then ["Ns"; "time_ephems"; "time_ecls"; "etvs"]
  else if kind =? "orb" then ["xs"; "ys"; "zs"; "vxs"; "vys"; "vzs"]
  else [].

Definition appends_to {V : Type} (s : Slot) (q : string) (ev : event V) : bool :=
  match ev with
  | AppendTo _ s' q' _ => slot_eqb s' s && (q' =? q)
  | _ => false
  end.

(** The number of values appended to the array [q] of the container [s]. *)
Definition appended {V : Type} (s : Slot) (q : string) (tr : list (event V))
  : nat :=
  List.length (filter (appends_to s q) tr).

(** "When the statement succeeds, it has appended [n] values." *)
Definition adds {V : Type} (s : Slot) (q : string)
           (f : LoopState V -> LoopState V * option py_error) (n : nat) : Prop :=
  forall st st', f st = (st', None) ->
                 appended s q (trace V st') = appended s q (trace V st) + n.

(** The PHOEBE 2 name of a legacy column, by the root of its key. *)
Definition legacy_qualifier (root : string) : string :=
  match dict_get root p2to1 with
  | Some q => q
  | None => root
  end.

(** "The entry is an intensity column of the dataset, for one of the two
    stars and one of the times." *)
Definition intensity_entry (time : list Qc) (dataset : string) (e : MeshEntry)
  : Prop :=
  e_qualifier e = "abs_normal_intensities"
  /\ e_has_unit e = true
  /\ e_dataset e = dataset
  /\ (e_component e = "primary" \/ e_component e = "secondary")
  /\ exists t, In t time /\ e_times e = Some t.

(** ** Reading the trace of [legacy] *)

(** The containers written, as (component, dataset, qualifier). *)
Definition syn_writes {V : Type} (evs : list (legacy_event V))
  : list (option string * string * string) :=
  flat_map (fun ev => match ev with
                      | SetSyn c d q _ => [(c, d, q)]
                      | _ => []
                      end) evs.

(** The calls [phb1.lc(times, curve)], as (times, curve). *)
Definition lc_calls {V : Type} (evs : list (legacy_event V))
  : list (list Qc * nat) :=
  flat_map (fun ev => match ev with
                      | CallLc t c => [(t, c)]
                      | _ => []
                      end) evs.

(** The calls [phb1.lc(times, curve, mesh)], as (times, curve, mesh). *)
Definition lcmesh_calls {V : Type} (evs : list (legacy_event V))
  : list (list Qc * nat * nat) :=
  flat_map (fun ev => match ev with
                      | CallLcMesh t c m => [(t, c, m)]
                      | _ => []
                      end) evs.

(** The entries with which [fill_mesh] has called [new_syns.set_value]. *)
Definition mesh_writes {V : Type} (evs : list (legacy_event V))
  : list MeshEntry :=
  flat_map (fun ev => match ev with
                      | SetMesh d => [d]
                      | _ => []
                      end) evs.

(** "The first list is a selection from the second": some of its entries,
    in the same order. *)
Inductive selected {A : Type} : list A -> list A -> Prop :=
| selected_nil : selected [] []
| selected_keep x l l' : selected l l' -> selected (x :: l) (x :: l')
| selected_drop x l l' : selected l l' -> selected l (x :: l').

(** The entries built for the keys up to the first key that raises. *)
Fixpoint gathered {A B : Type} (f : A -> result (list B)) (l : list A)
  : list B :=
  match l with
  | [] => []
  | x :: l' =>
      match f x with
      | inl _ => []
      | inr ys => ys ++ gathered f l'
      end
  end.

(** "[new_syns.filter] finds the parameter of every entry." *)
Definition finds_all {V : Type}
           (new_syns_filter : list (legacy_event V) -> MeshEntry -> bool)
  : Prop :=
  forall tr e, new_syns_filter tr e = true.

(** The array that [legacy] fills for a work item, if any. *)
Definition item_writes (info : Info.t)
  : list (option string * string * string) :=
  if Info.kind info =? "lc"
  then [(Info.component info, Info.dataset info, "fluxes")]
  else if Info.kind info =? "rv"
       then [(Info.component info, Info.dataset info, "rvs")]
       else [].

Definition is_lc (info : Info.t) : bool := Info.kind info =? "lc".

(** What the loop of [legacy] has done when it ends [run], normally or
    not, having started in [st]: it appended the events [evs] and dealt with
    the first [k] work items. *)
Definition loop_outcome {V : Type} (pbmesh : bool)
           (items : list Info.t) (st : LegacyState V)
           (run : LegacyState V * option py_error)
           (evs : list (legacy_event V)) (k : nat) : Prop :=
  let lcs := filter is_lc (firstn k items) in
  legacy_trace (fst run) = legacy_trace st ++ evs
  /\ k <= List.length items
  /\ (snd run = None -> k = List.length items)
  /\ syn_writes evs = flat_map item_writes (firstn k items)
  /\ if pbmesh then
       lcnum (fst run) = lcnum st
       /\ lc_calls evs = []
       /\ lcmesh_calls evs
          = map (fun info => (item_times info, 0, lcnum st + 1)) lcs
     else
       lcnum (fst run) = lcnum st + List.length lcs
       /\ lcmesh_calls evs = []
       /\ lc_calls evs
          = combine (map item_times lcs) (seq (lcnum st) (List.length lcs)).

Definition is_rv (info : Info.t) : bool := Info.kind info =? "rv".

(** The calls [phb1.rv1(times, 0)] and [phb1.rv2(times, 0)], as the star
    and the times. *)
Definition rv_calls {V : Type} (evs : list (legacy_event V))
  : list (string * list Qc) :=
  flat_map (fun ev => match ev with
                      | CallRv1 t _ => [("primary", t)]
                      | CallRv2 t _ => [("secondary", t)]
                      | _ => []
                      end) evs.

(** "The dataset of the item is one of the two radial-velocity curves that
    the library knows." *)
Definition known_rv_dataset {V : Type} (phb1 : Phb1 V) (info : Info.t) : bool :=
  (Info.dataset info =? phb1_rv_id V phb1 0)
  || (Info.dataset info =? phb1_rv_id V phb1 1).

(** ** The columns of a legacy mesh *)

(** "The columns of the mesh have one length": they hold one entry per
    surface element. Where two of them are added or divided, numpy raises
    a ValueError unless they have the same length. *)
Definition same_length_columns (mesh : list (string * list Qc)) : Prop :=
  exists n, Forall (fun column => List.length (snd column) = n) mesh.

(** ** What a successful run has written *)

(** "The statement only appends to the trace." *)
Definition grows {V : Type}
           (f : LoopState V -> LoopState V * option py_error) : Prop :=
  forall st, exists evs, trace V (fst (f st)) = trace V st ++ evs.

(** "When the statement succeeds, the event is in the trace." *)
Definition includes {V : Type} (ev : event V)
           (f : LoopState V -> LoopState V * option py_error) : Prop :=
  forall st st', f st = (st', None) -> In ev (trace V st').

(** The columns that a mesh carries for a dataset of the given kind. *)
Definition dataset_columns (kind : string) : list string :=
  match dict_get kind indeps with
  | Some qualifiers => qualifiers
  | None => []
  end.

(** The entries that [fill_mesh] builds from the mesh that the library
    returns for a light curve asked with the mesh argument [m]. *)
Definition item_mesh_entries {V : Type} (sqrt : Qc -> Qc) (phb1 : Phb1 V)
           (m : nat) (info : Info.t) : list MeshEntry :=
  match fill_mesh sqrt (snd (phb1_lc_mesh V phb1 (item_times info) 0 m))
                  "pbmesh" (item_times info) (Info.dataset info) with
  | inr entries => entries
  | inl _ => []
  end.

(** The state with another content of the variable [dep]. *)
Definition with_dep {V : Type} (d : option (option string))
           (st : LegacyState V) : LegacyState V :=
  mkLegacy (lcnum st) (rvnum st) d (legacy_trace st).

(** The work item with another component. *)
Definition with_component (c : option string) (info : Info.t) : Info.t :=
  Info.mk (Info.dataset info) c (Info.kind info) (Info.needs_mesh info)
          (Info.times info).

(** ** The analytical light curves in the main loop *)

(** "The item is a light-curve item of the dataset." *)
Definition is_lc_of (dataset : string) (info : Info.t) : bool :=
  (Info.dataset info =? dataset) && (Info.kind info =? "lc").

(** The flux appended for a light-curve item at a time step (line 696). *)
Definition flux_event {V : Type} (sv : Services V) (time : Qc)
           (info : Info.t) : event V :=
  AppendTo V (this_syn_of info time) "fluxes"
           (Ext V (observe V sv (Info.dataset info) (Info.kind info)
                           (Info.component info) "flux")).

(** * Example inputs *)

(** A binary with one light curve, under a given engine and flux method. *)
Definition example_bundle (engine flux_method : string) : Bundle := {|
  datasets := ["_default"; "lc01"];
  compute_kind := fun _ => engine;
  enabled := fun _ _ => Some true;
  get_stars := ["primary"; "secondary"];
  get_meshables := ["primary"; "secondary"];
  obs_kind := fun _ _ => "lc";
  obs_times := fun _ component _ =>
    match component with
    | None => Some [Q2Qc 0%Q; Q2Qc (1 # 2)%Q; Q2Qc 1%Q]
    | Some _ => None
    end;
  lc_method := fun _ _ => flux_method;
  rv_method := fun _ _ _ => "flux-weighted";
  exptime := fun _ => Q2Qc 0%Q;
  fti_method := fun _ _ => "none";
  fti_oversample := fun _ _ => 5;
  pblum_ref := fun _ _ => "self";
  dataset_kinds := ["lc"];
  dep_kind := fun _ => Some "lc_dep"
|}.

(** A light curve with exposure time [e] and [n] samples per exposure. *)
Definition oversampled_bundle (e : Qc) (n : nat) : Bundle := {|
  datasets := ["_default"; "lc01"];
  compute_kind := fun _ => "phoebe";
  enabled := fun _ _ => Some true;
  get_stars := ["primary"; "secondary"];
  get_meshables := ["primary"; "secondary"];
  obs_kind := fun _ _ => "lc";
  obs_times := fun _ component _ =>
    match component with
    | None => Some [Q2Qc 5%Q]
    | Some _ => None
    end;
  lc_method := fun _ _ => "numerical";
  rv_method := fun _ _ _ => "flux-weighted";
  exptime := fun _ => e;
  fti_method := fun _ _ => "oversample";
  fti_oversample := fun _ _ => n;
  pblum_ref := fun _ _ => "self";
  dataset_kinds := ["lc"];
  dep_kind := fun _ => Some "lc_dep"
|}.

(** A hierarchy without meshable body, with one mesh dataset whose times
    are given at the level of the system. *)
Definition meshless_bundle : Bundle := {|
  datasets := ["_default"; "mesh01"];
  compute_kind := fun _ => "phoebe";
  enabled := fun _ _ => Some true;
  get_stars := [];
  get_meshables := [];
  obs_kind := fun _ _ => "mesh";
  obs_times := fun _ component _ =>
    match component with
    | None => Some [Q2Qc 1%Q]
    | Some _ => None
    end;
  lc_method := fun _ _ => "numerical";
  rv_method := fun _ _ _ => "flux-weighted";
  exptime := fun _ => Q2Qc 0%Q;
  fti_method := fun _ _ => "none";
  fti_oversample := fun _ _ => 5;
  pblum_ref := fun _ _ => "self";
  dataset_kinds := ["mesh"];
  dep_kind := fun _ => Some "mesh_dep"
|}.

(** A binary with a light curve and a radial-velocity curve that share the
    time 0.5. *)
Definition two_dataset_bundle : Bundle := {|
  datasets := ["_default"; "lc01"; "rv01"];
  compute_kind := fun _ => "phoebe";
  enabled := fun _ _ => Some true;
  get_stars := ["primary"; "secondary"];
  get_meshables := ["primary"; "secondary"];
  obs_kind := fun dataset _ => if dataset =? "lc01" then "lc" else "rv";
  obs_times := fun dataset component _ =>
    if dataset =? "lc01" then
      match component with
      | None => Some [Q2Qc 1%Q; Q2Qc (1 # 2)%Q]
      | Some _ => None
      end
    else
      match component with
      | Some "primary" => Some [Q2Qc (1 # 2)%Q; Q2Qc 2%Q]
      | Some _ => Some [Q2Qc 3%Q; Q2Qc 0%Q]
      | None => None
      end;
  lc_method := fun _ _ => "numerical";
  rv_method := fun _ _ _ => "flux-weighted";
  exptime := fun _ => Q2Qc 0%Q;
  fti_method := fun _ _ => "none";
  fti_oversample := fun _ _ => 5;
  pblum_ref := fun _ _ => "self";
  dataset_kinds := ["lc"; "rv"];
  dep_kind := fun dataset => if dataset =? "lc01" then Some "lc_dep"
                             else Some "rv_dep"
|}.

(** A binary in which the primary copies the scale of the secondary. *)
Definition copy_bundle : Bundle := {|
  datasets := ["_default"; "lc01"];
  compute_kind := fun _ => "phoebe";
  enabled := fun _ _ => Some true;
  get_stars := ["primary"; "secondary"];
  get_meshables := ["primary"; "secondary"];
  obs_kind := fun _ _ => "lc";
  obs_times := fun _ _ _ => None;
  lc_method := fun _ _ => "numerical";
  rv_method := fun _ _ _ => "flux-weighted";
  exptime := fun _ => Q2Qc 0%Q;
  fti_method := fun _ _ => "none";
  fti_oversample := fun _ _ => 5;
  pblum_ref := fun component _ =>
    if component =? "primary" then "secondary" else "self";
  dataset_kinds := ["lc"];
  dep_kind := fun _ => Some "lc_dep"
|}.

(** A binary in which each star copies the scale of the other. *)
Definition cycle_bundle : Bundle := {|
  datasets := ["_default"; "lc01"];
  compute_kind := fun _ => "phoebe";
  enabled := fun _ _ => Some true;
  get_stars := ["primary"; "secondary"];
  get_meshables := ["primary"; "secondary"];
  obs_kind := fun _ _ => "lc";
  obs_times := fun _ _ _ => None;
  lc_method := fun _ _ => "numerical";
  rv_method := fun _ _ _ => "flux-weighted";
  exptime := fun _ => Q2Qc 0%Q;
  fti_method := fun _ _ => "none";
  fti_oversample := fun _ _ => 5;
  pblum_ref := fun component _ =>
    if component =? "primary" then "secondary" else "primary";
  dataset_kinds := ["lc"];
  dep_kind := fun _ => Some "lc_dep"
|}.

(** A hierarchical triple whose bodies are listed in the given order: the
    primary copies the scale of the secondary, which copies that of the
    tertiary, whose scale is its own. *)
Definition chain_bundle (meshables : list string) : Bundle := {|
  datasets := ["_default"; "lc01"];
  compute_kind := fun _ => "phoebe";
  enabled := fun _ _ => Some true;
  get_stars := meshables;
  get_meshables := meshables;
  obs_kind := fun _ _ => "lc";
  obs_times := fun _ _ _ => None;
  lc_method := fun _ _ => "numerical";
  rv_method := fun _ _ _ => "flux-weighted";
  exptime := fun _ => Q2Qc 0%Q;
  fti_method := fun _ _ => "none";
  fti_oversample := fun _ _ => 5;
  pblum_ref := fun component _ =>
    if component =? "primary" then "secondary"
    else if component =? "secondary" then "tertiary" else "self";
  dataset_kinds := ["lc"];
  dep_kind := fun _ => Some "lc_dep"
|}.

(** Scales for the examples: a number per component, and a getter that
    answers 1 for a body that holds no scale. *)
Definition example_scale (component dataset : string) : nat :=
  String.length component.
Definition example_getter (held : option nat) : nat :=
  match held with
  | Some v => v
  | None => 1
  end.

(** Services for the examples: a system whose bodies all have the given
    distortion and mesh methods; every quantity is the number 0. *)
Definition example_services (distortion mesh : string) : Services nat := {|
  get_body := fun _ => mkBody distortion mesh;
  observe := fun _ _ _ _ => 0;
  observe_keys := fun _ _ => [];
  crossing := fun _ _ time => time;
  interp_Ns := fun _ _ _ => 0;
  traj := fun _ _ _ => 0;
  mesh_column := fun _ _ => 0;
  handle_eclipses := fun _ _ => None;
  horizon_marching := fun _ _ _ _ => 0;
  horizon_wd := fun _ _ _ _ _ => 0;
  compute_luminosity := fun _ _ => 0;
  mesh_dependent := fun _ _ => 0;
  set_value_error := fun _ _ _ _ => None;
  matching_twigs := fun _ _ _ _ => []
|}.

Definition example_item (kind : string) : Info.t :=
  Info.mk "ds01" (Some "primary") kind true [Some (Q2Qc 0%Q)].


(** A legacy mesh of one row per star: a y coordinate, a temperature, the
    gradient and a normal emergent intensity. *)
Definition example_mesh : list (string * list Qc) :=
  [("vcy1", [Q2Qc 1%Q]); ("tloc1", [Q2Qc 5000%Q]); ("Inorm1", [Q2Qc 7%Q]);
   ("grx1", [Q2Qc 3%Q]); ("gry1", [Q2Qc 0%Q]); ("grz1", [Q2Qc 4%Q]);
   ("grx2", [Q2Qc 1%Q]); ("gry2", [Q2Qc 0%Q]); ("grz2", [Q2Qc 0%Q])].

(** The columns of the entries, with the values as plain rationals. *)
Definition show_entries (r : result (list MeshEntry))
  : list (string * string * string * list Q) :=
  match r with
  | inl _ => []
  | inr entries =>
      map (fun e => (e_component e, e_qualifier e, e_dataset e,
                     map this (e_value e)))
          entries
  end.

(** A legacy library for the examples: every curve is the number 0, the
    mesh is [example_mesh], and the two radial-velocity curves belong to the
    dataset [rv_id]. *)
Definition example_phb1 (rv_id : string) : Phb1 nat := {|
  phb1_lc := fun _ _ => 0;
  phb1_lc_mesh := fun _ _ _ => (0, example_mesh);
  phb1_rv_id := fun _ => rv_id;
  phb1_rv1 := fun _ _ => 0;
  phb1_rv2 := fun _ _ => 0
|}.

(** A square root that is exact on the squared gradients of
    [example_mesh] (25 and 1). *)
Definition example_sqrt (x : Qc) : Qc :=
  if Qc_eqb x (Q2Qc 25%Q) then Q2Qc 5%Q else Q2Qc 1%Q.

(** * Properties *)

(** ** Python helpers *)

Lemma str_in_In x l : str_in x l = true <-> In x l.
Proof.
  unfold str_in. rewrite existsb_exists. split.
  - intros [y [Hy He]]. apply String.eqb_eq in He. now subst.
  - intros H. exists x. split; [assumption | apply String.eqb_refl].
Qed.

(** ** MeshRequirementResolver *)

(** C2: whatever the dataset, kind, component and compute options,
    [_needs_mesh] is false when the kind of the active compute options is not
    one of the engines that use numerical meshes. *)
Theorem needs_mesh_false_without_meshing :
  forall (b : Bundle) (dataset kind : string) (component : option string)
         (compute : string),
    str_in (compute_kind b compute) _backends_that_require_meshing = false ->
    _needs_mesh b dataset kind component compute = false.
Proof.
  intros b dataset kind component compute H.
  unfold _needs_mesh. now rewrite H.
Qed.

Lemma needs_mesh_false_without_meshing_witness :
  _needs_mesh (example_bundle "jktebop" "numerical") "lc01" "lc" None "run" = false.
Proof.
  apply (needs_mesh_false_without_meshing (example_bundle "jktebop" "numerical")).
  reflexivity.
Defined.

(** C3, as stated, fails for the legacy engine: it requires meshing, and
    for it the flux method is not consulted. *)
Lemma needs_mesh_legacy_analytical_lc :
  str_in (compute_kind (example_bundle "legacy" "analytical") "run")
         _backends_that_require_meshing = true
  /\ lc_method (example_bundle "legacy" "analytical") "run" "lc01" = "analytical"
  /\ _needs_mesh (example_bundle "legacy" "analytical") "lc01" "lc" None "run"
     = true.
Proof. repeat split. Qed.

(** The scenario of one light curve with times [0.0, 0.5, 1.0] and the
    analytical flux method under the engine phoebe: the plan has three time
    steps, and the main loop updates no mesh and appends three fluxes. *)
Example analytical_lc_scenario :
  match phoebe_plan (example_bundle "phoebe" "analytical") "run" false false
                    [Q2Qc 0%Q; Q2Qc (1 # 2)%Q; Q2Qc 1%Q] with
  | inr (times, infos, _) =>
      map this times = [0%Q; (1 # 2)%Q; 1%Q]
      /\ map (map Info.needs_mesh) infos = [[false]; [false]; [false]]
      /\ main_loop nat (example_services "roche" "marching")
                   ["primary"; "secondary"] false false times infos
         = (mkLoop nat
                   [AppendTo nat (mkSlot None "lc01" "lc" None) "fluxes" (Ext nat 0);
                    AppendTo nat (mkSlot None "lc01" "lc" None) "fluxes" (Ext nat 0);
                    AppendTo nat (mkSlot None "lc01" "lc" None) "fluxes" (Ext nat 0);
                    Yield nat None]
                   None,
            None)
  | inl _ => False
  end.
Proof. vm_compute. repeat split. Qed.

(** ** Exposure-time oversampling *)

Section Oversampling.

Local Open Scope Qc_scope.

Lemma nth_map_seq {A : Type} (f : nat -> A) (n i : nat) (d : A) :
  (i < n)%nat -> nth i (map f (seq 0 n)) d = f i.
Proof.
  intros Hi.
  rewrite (nth_indep _ d (f O)) by (rewrite length_map, length_seq; lia).
  rewrite (map_nth f (seq 0 n) O i), seq_nth by lia. reflexivity.
Qed.

Lemma linspace_length (start stop : Qc) (num : nat) :
  List.length (linspace start stop num) = num.
Proof.
  destruct num as [|[|k]]; simpl; try reflexivity.
  rewrite length_app, length_map, length_seq. simpl. lia.
Qed.

(** The last entry of a grid of at least two samples is [stop] itself
    ([y[-1] = stop]). *)
Lemma linspace_last (start stop : Qc) (k : nat) :
  nth (S k) (linspace start stop (S (S k))) 0 = stop.
Proof.
  unfold linspace. rewrite app_nth2; rewrite length_map, length_seq; [|lia].
  now rewrite Nat.sub_diag.
Qed.

(** The entries before the last, as [np.linspace] evaluates them:
    [i * step + start] with [step = (stop - start) / (num - 1)]. *)
Lemma linspace_nth (start stop : Qc) (k i : nat) :
  (i < S k)%nat ->
  nth i (linspace start stop (S (S k))) 0
  = Qc_of_nat i * ((stop - start) / Qc_of_nat (S k)) + start.
Proof.
  intros Hi. unfold linspace.
  rewrite app_nth1 by (rewrite length_map, length_seq; lia).
  rewrite nth_map_seq by lia. reflexivity.
Qed.

(** The first entry is [0 * step + start], that is [start]. *)
Lemma linspace_first (start stop : Qc) (k : nat) :
  nth 0 (linspace start stop (S (S k))) 0 = start.
Proof.
  rewrite linspace_nth by lia. change (Qc_of_nat 0) with (Q2Qc 0%Q). ring.
Qed.

End Oversampling.

(** Two lists of canonical rationals with the same values are equal. *)
Lemma map_this_inj (l1 l2 : list Qc) : map this l1 = map this l2 -> l1 = l2.
Proof.
  revert l2. induction l1 as [|x l1 IH]; intros [|y l2] H;
    try discriminate; [reflexivity|].
  simpl in H. injection H as Hx Hl.
  f_equal; [now apply Qc_decomp | now apply IH].
Qed.

Ltac Qc_list_eq := apply map_this_inj; vm_compute; reflexivity.

(** C5, as stated, fails for a count of one: the single sample is the start
    of the exposure, not its middle. *)
Lemma oversample_single_sample :
  oversample_applies (oversampled_bundle (Q2Qc (1 # 10)%Q) 1) "run" true
                     "lc01" "lc" = true
  /\ resolve_times (oversampled_bundle (Q2Qc (1 # 10)%Q) 1) "run" None true
                   "lc01" "lc" [Q2Qc 5%Q]
     = [Q2Qc (99 # 20)%Q].
Proof. split; [reflexivity | Qc_list_eq]. Qed.

(** C5 (amended): when oversampling applies and the count is at least two,
    every time [t] is replaced by [fti_oversample] times: the first is
    [t - exptime/2], the last is [t + exptime/2], and the [i]-th one before
    the last is [i * step + (t - exptime/2)] for the one step
    [((t + exptime/2) - (t - exptime/2)) / (fti_oversample - 1)]. Every
    equality is between a sample and the very expression that [np.linspace]
    evaluates for it, so none relies on a law of exact arithmetic that the
    rounded operations of the code lack. With exptime 0.1, count 3 and time
    5.0 the sub-times are [4.95, 5.0, 5.05]. *)
Theorem oversample_subgrid :
  forall (b : Bundle) (compute dataset kind : string)
         (provided_times : option (list Qc)) (this_times : list Qc),
    oversample_applies b compute true dataset kind = true ->
    2 <= fti_oversample b dataset compute ->
    let e := exptime b dataset in
    let n := fti_oversample b dataset compute in
    let start := fun t : Qc => (t - e / Qc_two)%Qc in
    let stop := fun t : Qc => (t + e / Qc_two)%Qc in
    let sub := fun t : Qc => linspace (start t) (stop t) n in
    resolve_times b compute provided_times true dataset kind this_times
    = flat_map sub (override_times provided_times this_times)
    /\ (forall t : Qc,
          List.length (sub t) = n
          /\ nth 0 (sub t) (Q2Qc 0%Q) = start t
          /\ nth (n - 1) (sub t) (Q2Qc 0%Q) = stop t
          /\ (forall i, i < n - 1 ->
                nth i (sub t) (Q2Qc 0%Q)
                = (Qc_of_nat i * ((stop t - start t) / Qc_of_nat (n - 1))
                   + start t)%Qc))
    /\ oversample_times (Q2Qc (1 # 10)%Q) 3 [Q2Qc 5%Q]
       = [Q2Qc (99 # 20)%Q; Q2Qc 5%Q; Q2Qc (101 # 20)%Q].
Proof.
  intros b compute dataset kind provided_times this_times Happ Hn e n start
         stop sub.
  split; [|split].
  - unfold resolve_times. rewrite Happ. reflexivity.
  - intros t. subst sub. cbv beta.
    destruct n as [|[|k]] eqn:En; [lia | lia |].
    replace (S (S k) - 1) with (S k) by lia.
    split; [apply linspace_length|].
    split; [apply linspace_first|].
    split; [apply linspace_last|].
    intros i Hi. now apply linspace_nth.
  - Qc_list_eq.
Qed.

Lemma oversample_subgrid_witness :
  resolve_times (oversampled_bundle (Q2Qc (1 # 10)%Q) 3) "run" None true
                "lc01" "lc" [Q2Qc 5%Q]
  = flat_map (fun t => linspace (t - Q2Qc (1 # 10)%Q / Qc_two)%Qc
                                (t + Q2Qc (1 # 10)%Q / Qc_two)%Qc 3)
             [Q2Qc 5%Q].
Proof.
  apply (proj1 (oversample_subgrid (oversampled_bundle (Q2Qc (1 # 10)%Q) 3)
                  "run" "lc01" "lc" None [Q2Qc 5%Q] eq_refl (le_S _ _ (le_n 2)))).
Defined.

(** ** TimeGridPlanner: the grid of the by-time planner *)

Lemma Qc_eqb_eq (x y : Qc) : Qc_eqb x y = true <-> x = y.
Proof.
  unfold Qc_eqb. rewrite Qceq_alt.
  destruct (x ?= y)%Qc; split; intros; congruence.
Qed.

Lemma Qc_leb_le (x y : Qc) : Qc_leb x y = true <-> (x <= y)%Qc.
Proof.
  unfold Qc_leb. rewrite Qcle_alt.
  destruct (x ?= y)%Qc; split; intros; congruence.
Qed.

Lemma Qc_leb_gt (x y : Qc) : Qc_leb x y = false -> (y <= x)%Qc.
Proof.
  unfold Qc_leb. intros H. apply Qclt_le_weak.
  apply (proj2 (Qcgt_alt x y)).
  destruct (x ?= y)%Qc; congruence.
Qed.

Lemma index_of_None (x : Qc) (l : list Qc) : index_of x l = None -> ~ In x l.
Proof.
  induction l as [|y l IH]; simpl; [tauto|].
  destruct (Qc_eqb x y) eqn:E; [discriminate|].
  destruct (index_of x l); [discriminate|].
  intros _ [H | H]; [|now apply IH].
  subst y. assert (Qc_eqb x x = true) by now apply Qc_eqb_eq. congruence.
Qed.

Lemma index_of_Some (x : Qc) (l : list Qc) (n : nat) :
  index_of x l = Some n -> nth_error l n = Some x.
Proof.
  revert n. induction l as [|y l IH]; simpl; intros n; [discriminate|].
  destruct (Qc_eqb x y) eqn:E.
  - intros [= <-]. apply Qc_eqb_eq in E. now subst.
  - destruct (index_of x l); [|discriminate].
    intros [= <-]. now apply IH.
Qed.

Lemma index_of_In (x : Qc) (l : list Qc) :
  In x l -> exists n, index_of x l = Some n.
Proof.
  intros H. destruct (index_of x l) eqn:E; [eauto|].
  now apply index_of_None in E.
Qed.

Lemma append_at_length ind this_info infos :
  List.length (append_at ind this_info infos) = List.length infos.
Proof.
  revert ind. induction infos as [|l infos IH]; intros [|n]; simpl; auto.
Qed.

Lemma extends_refl st : extends st st.
Proof. intros H. split; [assumption | apply incl_refl]. Qed.

Lemma extends_trans st1 st2 st3 :
  extends st1 st2 -> extends st2 st3 -> extends st1 st3.
Proof.
  intros H12 H23 H1. destruct (H12 H1) as [H2 I12].
  destruct (H23 H2) as [H3 I23]. split; [assumption|].
  eapply incl_tran; eassumption.
Qed.

Lemma fold_left_extends {A : Type} (f : Plan -> A -> Plan) (l : list A) :
  (forall st a, extends st (f st a)) ->
  forall st, extends st (fold_left f l st).
Proof.
  intros Hf. induction l as [|a l IH]; intros st; simpl; [apply extends_refl|].
  eapply extends_trans; [apply Hf | apply IH].
Qed.

(** What the step for [a] puts in the grid is still there at the end. *)
Lemma fold_left_reaches {A : Type} (f : Plan -> A -> Plan) (l : list A)
      (a : A) (t : Qc) :
  (forall st a, extends st (f st a)) ->
  (forall st, plan_ok st -> In t (p_times (f st a))) ->
  In a l ->
  forall st, plan_ok st -> In t (p_times (fold_left f l st)).
Proof.
  intros Hg Ha. induction l as [|x l IH]; intros Hin st Hst; [destruct Hin|].
  simpl. destruct (Hg st x Hst) as [Hst' _].
  destruct Hin as [-> | Hin]; [|now apply IH].
  apply (fold_left_extends f l Hg (f st a) Hst'). now apply Ha.
Qed.

Lemma add_times_spec this_info this_times :
  forall times infos,
    NoDup times -> List.length times = List.length infos ->
    let r := fold_left (add_time this_info) this_times (times, infos) in
    NoDup (fst r) /\ List.length (fst r) = List.length (snd r)
    /\ incl times (fst r) /\ incl this_times (fst r).
Proof.
  induction this_times as [|t ts IH]; intros times infos Hnd Hlen; simpl.
  - repeat split; auto using incl_refl. intros x [].
  - destruct (index_of t times) eqn:E.
    + destruct (IH times (append_at n this_info infos) Hnd) as (H1 & H2 & H3 & H4).
      { now rewrite append_at_length. }
      repeat split; auto.
      intros x [<- | Hx]; [|now apply H4].
      apply H3. apply index_of_Some in E. eapply nth_error_In; eauto.
    + destruct (IH (times ++ [t]) (infos ++ [[this_info]])) as (H1 & H2 & H3 & H4).
      { apply index_of_None in E.
        apply NoDup_rev in Hnd. rewrite <- (rev_involutive (times ++ [t])).
        apply NoDup_rev. rewrite rev_app_distr. simpl. constructor; auto.
        now rewrite <- in_rev. }
      { rewrite !length_app. simpl. lia. }
      repeat split; auto.
      * intros x Hx. apply H3, in_or_app. now left.
      * intros x [<- | Hx]; [|now apply H4].
        apply H3, in_or_app. right. now left.
Qed.

Lemma add_item_by_time_extends this_times st this_info :
  Info.times this_info = map Some this_times ->
  extends st (add_item_by_time this_times st this_info)
  /\ (plan_ok st ->
      incl this_times (p_times (add_item_by_time this_times st this_info))).
Proof.
  intros Ht.
  enough (H : plan_ok st ->
              plan_ok (add_item_by_time this_times st this_info)
              /\ incl (p_times st)
                      (p_times (add_item_by_time this_times st this_info))
              /\ incl this_times
                      (p_times (add_item_by_time this_times st this_info))).
  { split; intros Hst; destruct (H Hst) as (H1 & H2 & H3); auto. }
  intros [Hnd Hlen Hit]. unfold add_item_by_time.
  pose proof (add_times_spec this_info this_times _ _ Hnd Hlen) as H.
  cbv zeta in H.
  destruct (fold_left (add_time this_info) this_times (p_times st, p_infos st))
    as [times infos]. simpl in H. destruct H as (H1 & H2 & H3 & H4).
  split; [|split; assumption].
  constructor; simpl; auto.
  intros info ot Hin Hot. apply in_app_or in Hin.
  destruct Hin as [Hin | [<- | []]].
  - destruct (Hit info ot Hin Hot) as (t & -> & Hin'). eauto.
  - rewrite Ht in Hot. apply in_map_iff in Hot.
    destruct Hot as (t & <- & Hin'). eauto.
Qed.

Lemma add_items_extends this_times items :
  Forall (fun info => Info.times info = map Some this_times) items ->
  forall st,
    extends st (fold_left (add_item_by_time this_times) items st)
    /\ (plan_ok st -> items <> [] ->
        incl this_times
             (p_times (fold_left (add_item_by_time this_times) items st))).
Proof.
  induction 1 as [|info items Hinfo Hitems IH]; intros st; simpl.
  - split; [apply extends_refl | congruence].
  - destruct (add_item_by_time_extends this_times st info Hinfo) as [He Hi].
    destruct (IH (add_item_by_time this_times st info)) as [He' _].
    split; [eapply extends_trans; eassumption|].
    intros Hst _. destruct (He Hst) as [Hst' _].
    eapply incl_tran; [apply (Hi Hst) | apply (He' Hst')].
Qed.

Lemma mk_infos_times b compute dataset kind this_times components :
  Forall (fun info => Info.times info = map Some this_times)
         (map (mk_info b compute dataset kind this_times) components).
Proof. apply Forall_forall. intros info H. apply in_map_iff in H.
       destruct H as (c & <- & _). reflexivity. Qed.

(** A pair stands for at least one body, unless it is the system-level
    pair of a mesh dataset in a hierarchy without meshable body. *)
Lemma item_components_nonempty b component kind :
  (component = None -> kind = "mesh" -> get_meshables b <> []) ->
  item_components b component kind <> [].
Proof.
  intros H. unfold item_components.
  destruct component as [c|]; [discriminate|]. cbn [is_none andb].
  destruct (str_in kind ["mesh"]) eqn:E; [|discriminate].
  apply str_in_In in E. destruct E as [<- | []].
  destruct (get_meshables b); [now contradiction (H eq_refl eq_refl)|].
  discriminate.
Qed.

Lemma nonempty_false {A : Type} (l : list A) : nonempty l = false -> l = [].
Proof. destruct l; [reflexivity | discriminate]. Qed.

(** One (dataset, component) of the scan: the invariant is kept and the
    resolved times of the pair are in the grid afterwards. *)
Lemma extract_component_by_time_extends b compute provided allow dataset
      st component :
  extends st (extract_component_by_time b compute provided allow dataset
                                        st component)
  /\ (item_components b component (obs_kind b dataset component) <> [] ->
      plan_ok st ->
      incl (resolved_time_array b compute provided allow dataset component)
           (p_times (extract_component_by_time b compute provided allow
                                               dataset st component))).
Proof.
  unfold extract_component_by_time, resolved_time_array.
  destruct (is_none component && negb (str_in (obs_kind b dataset component)
                                              ["lc"; "mesh"])).
  { split; [apply extends_refl | intros _ _ x []]. }
  destruct (obs_times b dataset component
                      (_timequalifier_by_kind (obs_kind b dataset component)))
    as [this_times|].
  2: { split; [apply extends_refl | intros _ _ x []]. }
  set (ts := resolve_times b compute provided allow dataset
                           (obs_kind b dataset component) this_times).
  destruct (nonempty ts) eqn:E.
  - destruct (add_items_extends ts _
                (mk_infos_times b compute dataset (obs_kind b dataset component)
                                ts (item_components b component
                                      (obs_kind b dataset component))) st)
      as [He Hi].
    split; [exact He|]. intros Hm Hst. apply (Hi Hst).
    intros Hnil. apply map_eq_nil in Hnil. now apply Hm.
  - split; [apply extends_refl|]. intros _ _.
    apply nonempty_false in E. rewrite E. intros x [].
Qed.

Lemma extract_dataset_by_time_extends b compute provided allow st dataset :
  extends st (extract_dataset_by_time b compute provided allow st dataset)
  /\ (plan_ok st ->
      dataset_is_planned b compute dataset = true ->
      forall component,
        In component (map Some (get_stars b) ++ [None]) ->
        item_components b component (obs_kind b dataset component) <> [] ->
        incl (resolved_time_array b compute provided allow dataset component)
             (p_times (extract_dataset_by_time b compute provided allow
                                               st dataset))).
Proof.
  unfold extract_dataset_by_time.
  destruct (dataset_is_planned b compute dataset).
  - split.
    + apply fold_left_extends. intros st' c.
      apply extract_component_by_time_extends.
    + intros Hst _ component Hc Hm t Ht.
      apply (fold_left_reaches _ _ component t); auto.
      * intros st' c. apply extract_component_by_time_extends.
      * intros st' Hst'.
        now apply (proj2 (extract_component_by_time_extends
                            b compute provided allow dataset st' component)).
  - split; [apply extends_refl | discriminate].
Qed.

Lemma empty_plan_ok : plan_ok empty_plan.
Proof. constructor; simpl; [constructor | reflexivity | intros ? ? []]. Qed.

(** The scan of all datasets. *)
Lemma scan_by_time_ok b compute provided allow :
  plan_ok (scan_by_time b compute provided allow).
Proof.
  apply (fold_left_extends _ (datasets b)); [|apply empty_plan_ok].
  intros st d. apply extract_dataset_by_time_extends.
Qed.

Lemma scan_by_time_covers b compute provided allow dataset component t :
  In dataset (datasets b) ->
  dataset_is_planned b compute dataset = true ->
  In component (map Some (get_stars b) ++ [None]) ->
  (component = None -> obs_kind b dataset component = "mesh" ->
   get_meshables b <> []) ->
  In t (resolved_time_array b compute provided allow dataset component) ->
  In t (p_times (scan_by_time b compute provided allow)).
Proof.
  intros Hd Hp Hc Hm Ht. apply item_components_nonempty in Hm.
  apply (fold_left_reaches _ _ dataset t); auto using empty_plan_ok.
  - intros st d. apply extract_dataset_by_time_extends.
  - intros st Hst.
    now apply (proj2 (extract_dataset_by_time_extends
                        b compute provided allow st dataset) Hst Hp component).
Qed.

(** *** The automesh items never miss the grid *)

Lemma dict_set_values {V : Type} (k : string) (v x : V) (d : list (string * V)) :
  In x (dict_values (dict_set k v d)) -> x = v \/ In x (dict_values d).
Proof.
  unfold dict_values. induction d as [|[k' v'] d IH]; simpl.
  - intros [<- | []]. now left.
  - destruct (k =? k'); simpl.
    + intros [<- | H]; auto.
    + intros [<- | H]; auto. destruct (IH H); auto.
Qed.

Lemma fold_dict_set_values {A V : Type} (key : A -> string) (val : A -> V)
      (l : list A) (x : V) :
  forall d,
    In x (dict_values (fold_left (fun d a => dict_set (key a) (val a) d) l d)) ->
    In x (map val l) \/ In x (dict_values d).
Proof.
  induction l as [|a l IH]; intros d; simpl; [auto|].
  intros H. destruct (IH _ H) as [H' | H']; [auto|].
  apply dict_set_values in H'. destruct H' as [-> | H']; auto.
Qed.

Lemma needs_mesh_infos_In (needed_syns : list Info.t) (info : Info.t) :
  In info (needs_mesh_infos needed_syns) ->
  In info needed_syns /\ wants_automesh info = true.
Proof.
  unfold needs_mesh_infos. intros H.
  apply (fold_dict_set_values Info.dataset (fun i => i)) in H.
  destruct H as [H | []]. rewrite map_id in H. now apply filter_In in H.
Qed.

Lemma insert_otime_In x y l : In x (insert_otime y l) <-> x = y \/ In x l.
Proof.
  induction l as [|z l IH]; simpl; [intuition|].
  destruct (otime_leb y z); simpl; [intuition|].
  rewrite IH. intuition.
Qed.

Lemma sort_otimes_In x l : In x (sort_otimes l) <-> In x l.
Proof.
  induction l as [|y l IH]; simpl; [tauto|].
  rewrite insert_otime_In, IH. intuition.
Qed.

Lemma nub_otimes_In x l : In x (nub_otimes l) -> In x l.
Proof.
  induction l as [|y l IH]; simpl; [tauto|].
  destruct (existsb (otime_eqb y) (nub_otimes l)); simpl; intuition.
Qed.

Lemma automesh_times_In (needed_syns : list Info.t) (ot : option Qc) :
  In ot (automesh_times needed_syns) ->
  exists info, In info needed_syns /\ wants_automesh info = true
               /\ In ot (Info.times info).
Proof.
  unfold automesh_times. intros H.
  apply sort_otimes_In, nub_otimes_In, in_flat_map in H.
  destruct H as (info & Hin & Hot). apply needs_mesh_infos_In in Hin.
  exists info. tauto.
Qed.

Lemma register_automesh_ok this_info times this_times :
  (forall ot, In ot this_times -> exists t, ot = Some t /\ In t times) ->
  forall infos, exists infos',
    register_automesh this_info times this_times infos = inr infos'
    /\ List.length infos' = List.length infos.
Proof.
  induction this_times as [|ot rest IH]; intros H infos; simpl; [eauto|].
  destruct (H ot (or_introl eq_refl)) as (t & -> & Ht).
  destruct (index_of_In t times Ht) as [n ->].
  destruct (IH (fun o Ho => H o (or_intror Ho)) (append_at n this_info infos))
    as (infos' & -> & Hlen).
  exists infos'. now rewrite Hlen, append_at_length.
Qed.

Lemma automesh_loop_ok this_times times components :
  (forall ts, times = Some ts ->
     forall ot, In ot this_times -> exists t, ot = Some t /\ In t ts) ->
  forall needed_syns infos, exists infos',
    automesh_loop this_times times components needed_syns infos
    = inr (needed_syns ++ map (automesh_info this_times) components, infos')
    /\ List.length infos' = List.length infos.
Proof.
  intros H. induction components as [|c rest IH]; intros needed_syns infos; simpl.
  - exists infos. now rewrite app_nil_r.
  - assert (E : exists infos1,
               match times with
               | Some ts =>
                   if nonempty ts
                   then register_automesh (automesh_info this_times c) ts
                                          this_times infos
                   else inr infos
               | None => inr infos
               end = inr infos1 /\ List.length infos1 = List.length infos).
    { destruct times as [ts|]; [|eauto].
      destruct (nonempty ts); [|eauto].
      apply register_automesh_ok. now apply H. }
    destruct E as (infos1 & -> & Hlen1). simpl.
    destruct (IH (needed_syns ++ [automesh_info this_times c]) infos1)
      as (infos' & -> & Hlen).
    exists infos'. rewrite <- app_assoc. simpl. split; [reflexivity | congruence].
Qed.

Lemma handle_automesh_ok b compute needed_syns infos times :
  (forall ts, times = Some ts ->
     forall info ot, In info needed_syns -> wants_automesh info = true ->
                     In ot (Info.times info) ->
                     exists t, ot = Some t /\ In t ts) ->
  exists needed_syns' infos',
    _handle_automesh b compute needed_syns infos times
    = inr (needed_syns', infos')
    /\ List.length infos' = List.length infos.
Proof.
  intros H. unfold _handle_automesh.
  destruct (str_in (compute_kind b compute) _backends_that_support_automesh);
    [|eauto].
  destruct (automesh_loop_ok (automesh_times needed_syns) times
              (get_meshables b)) with (needed_syns := needed_syns)
                                      (infos := infos)
    as (infos' & E & Hlen); [|eauto].
  intros ts -> ot Hot. apply automesh_times_In in Hot.
  destruct Hot as (info & Hin & Hw & Hot'). eapply H; eauto.
Qed.

Lemma handle_protomesh_wants b compute needed_syns infos info :
  In info (fst (_handle_protomesh b compute needed_syns infos)) ->
  wants_automesh info = true -> In info needed_syns.
Proof.
  unfold _handle_protomesh.
  destruct (str_in (compute_kind b compute) _backends_that_support_protomesh);
    simpl; [|auto].
  intros H Hw. apply in_app_or in H. destruct H as [H | H]; [assumption|].
  apply in_map_iff in H. destruct H as (c & <- & _). discriminate Hw.
Qed.

Lemma handle_protomesh_infos b compute needed_syns infos :
  snd (_handle_protomesh b compute needed_syns infos) = infos.
Proof.
  unfold _handle_protomesh.
  now destruct (str_in (compute_kind b compute) _backends_that_support_protomesh).
Qed.

(** *** Sorting the grid *)

Lemma insert_ti_perm x l : Permutation (insert_ti x l) (x :: l).
Proof.
  induction l as [|y l IH]; simpl; [reflexivity|].
  destruct (Qc_leb (fst x) (fst y)); [reflexivity|].
  rewrite IH. apply perm_swap.
Qed.

Lemma sort_ti_perm l : Permutation (sort_ti l) l.
Proof.
  induction l as [|x l IH]; simpl; [reflexivity|].
  rewrite insert_ti_perm. now constructor.
Qed.

Lemma insert_ti_sorted x l :
  StronglySorted le_fst l -> StronglySorted le_fst (insert_ti x l).
Proof.
  induction 1 as [|y l Hs IH Hall]; simpl.
  - repeat constructor.
  - destruct (Qc_leb (fst x) (fst y)) eqn:E.
    + apply Qc_leb_le in E. constructor; [now constructor|].
      constructor; [exact E|].
      eapply Forall_impl; [|exact Hall].
      intros z Hz. unfold le_fst in *. eapply Qcle_trans; eassumption.
    + apply Qc_leb_gt in E. constructor; [exact IH|].
      eapply Permutation_Forall; [symmetry; apply insert_ti_perm|].
      now constructor.
Qed.

Lemma sort_ti_sorted l : StronglySorted le_fst (sort_ti l).
Proof.
  induction l as [|x l IH]; simpl; [constructor | now apply insert_ti_sorted].
Qed.

Lemma StronglySorted_map_fst (l : list (Qc * list Info.t)) :
  StronglySorted le_fst l -> StronglySorted Qcle (map fst l).
Proof.
  induction 1 as [|x l Hs IH Hall]; simpl; constructor; [assumption|].
  apply Forall_map. exact Hall.
Qed.

Lemma StronglySorted_strict (l : list Qc) :
  StronglySorted Qcle l -> NoDup l -> StronglySorted Qclt l.
Proof.
  induction 1 as [|x l Hs IH Hall]; intros Hnd; constructor.
  - apply IH. now inversion Hnd.
  - inversion Hnd as [|? ? Hx _]; subst.
    rewrite Forall_forall in *. intros y Hy.
    destruct (Qcle_lt_or_eq _ _ (Hall y Hy)) as [Hlt | ->]; [assumption|].
    contradiction.
Qed.

Lemma combine_map_fst_eq {A B : Type} (l1 : list A) (l2 : list B) :
  List.length l1 = List.length l2 -> map fst (combine l1 l2) = l1.
Proof.
  revert l2. induction l1 as [|a l1 IH]; intros [|b l2] H; simpl in *;
    try discriminate; [reflexivity|].
  f_equal. apply IH. now injection H.
Qed.

(** The sorted grid is a strictly ascending rearrangement of the grid. *)
Lemma sorted_grid times infos :
  NoDup times -> List.length times = List.length infos ->
  let grid := map fst (sort_ti (combine times infos)) in
  StronglySorted Qclt grid /\ NoDup grid /\ Permutation grid times.
Proof.
  intros Hnd Hlen grid.
  assert (Hp : Permutation grid times).
  { unfold grid. rewrite <- (combine_map_fst_eq times infos Hlen) at 2.
    apply Permutation_map, sort_ti_perm. }
  assert (Hnd' : NoDup grid).
  { eapply Permutation_NoDup; [symmetry; exact Hp | exact Hnd]. }
  repeat split; auto.
  apply StronglySorted_strict; [|assumption].
  apply StronglySorted_map_fst, sort_ti_sorted.
Qed.

(** *** The grid returned by the by-time planner *)

Lemma protomesh_stage b compute (protomesh : bool) st :
  let r := if protomesh
           then _handle_protomesh b compute (p_needed_syns st) (p_infos st)
           else (p_needed_syns st, p_infos st) in
  snd r = p_infos st
  /\ forall info, In info (fst r) -> wants_automesh info = true ->
                  In info (p_needed_syns st).
Proof.
  destruct protomesh; simpl.
  - split; [apply handle_protomesh_infos|].
    intros info. apply handle_protomesh_wants.
  - auto.
Qed.

(** C1, as stated, fails for the system-level time array of a mesh dataset
    in a hierarchy without meshable body: the dataset is enabled and its
    resolved time array holds the time 1, but the pair stands for no body, no
    work item is recorded and the grid stays empty. *)
Lemma by_time_grid_misses_mesh_times :
  In "mesh01" (datasets meshless_bundle)
  /\ dataset_is_planned meshless_bundle "run" "mesh01" = true
  /\ In None (map Some (get_stars meshless_bundle) ++ [None])
  /\ resolved_time_array meshless_bundle "run" None true "mesh01" None
     = [Q2Qc 1%Q]
  /\ _extract_from_bundle_by_time meshless_bundle "run" false false None true
     = inr ([], [], [])
  /\ count_occ Qc_eq_dec [] (Q2Qc 1%Q) = 0.
Proof. repeat split; simpl; auto. Qed.

(** C1 (amended): the by-time planner returns; the time grid it returns is
    strictly ascending, hence without duplicates; and every time of the
    resolved time array of every planned (enabled) dataset, for each of the
    components the planner visits, occurs exactly once in the grid, the one
    exception being the system-level time array of a mesh dataset when the
    hierarchy has no meshable body. *)
Theorem by_time_grid_sorted_and_complete :
  forall (b : Bundle) (compute : string) (protomesh pbmesh : bool)
         (provided_times : option (list Qc)) (allow_oversample : bool),
    exists grid infos syns,
      _extract_from_bundle_by_time b compute protomesh pbmesh provided_times
                                   allow_oversample
      = inr (grid, infos, syns)
      /\ StronglySorted Qclt grid
      /\ NoDup grid
      /\ (forall dataset component t,
            In dataset (datasets b) ->
            dataset_is_planned b compute dataset = true ->
            In component (map Some (get_stars b) ++ [None]) ->
            (component = None -> obs_kind b dataset component = "mesh" ->
             get_meshables b <> []) ->
            In t (resolved_time_array b compute provided_times allow_oversample
                                      dataset component) ->
            count_occ Qc_eq_dec grid t = 1).
Proof.
  intros b compute protomesh pbmesh provided allow.
  unfold _extract_from_bundle_by_time.
  pose proof (scan_by_time_ok b compute provided allow) as Hok.
  pose proof (scan_by_time_covers b compute provided allow) as Hcover.
  set (st := scan_by_time b compute provided allow) in *.
  destruct (protomesh_stage b compute protomesh st) as [Hsnd Hwants].
  destruct (if protomesh
            then _handle_protomesh b compute (p_needed_syns st) (p_infos st)
            else (p_needed_syns st, p_infos st)) as [needed1 infos1].
  simpl in Hsnd, Hwants. subst infos1.
  assert (E : exists needed2 infos2,
             (if pbmesh
              then _handle_automesh b compute needed1 (p_infos st)
                                    (Some (p_times st))
              else inr (needed1, p_infos st)) = inr (needed2, infos2)
             /\ List.length infos2 = List.length (p_infos st)).
  { destruct pbmesh; [|eauto].
    apply handle_automesh_ok. intros ts [= <-] info ot Hin Hw Hot.
    apply (ok_items st Hok info ot); auto. }
  destruct E as (needed2 & infos2 & -> & Hlen). simpl.
  assert (Hlen' : List.length (p_times st) = List.length infos2).
  { rewrite Hlen. apply (ok_length st Hok). }
  destruct (sorted_grid (p_times st) infos2 (ok_nodup st Hok) Hlen')
    as (Hs & Hnd & Hp).
  destruct (nonempty (p_times st)) eqn:En.
  - eexists _, _, _. split; [reflexivity|]. split; [exact Hs|].
    split; [exact Hnd|].
    intros d c t Hd Hpl Hc Hm Ht.
    apply (proj1 (NoDup_count_occ' Qc_eq_dec _) Hnd).
    eapply Permutation_in; [symmetry; exact Hp|]. eapply Hcover; eauto.
  - apply nonempty_false in En.
    eexists _, _, _. split; [reflexivity|]. rewrite En.
    split; [constructor|]. split; [constructor|].
    intros d c t Hd Hpl Hc Hm Ht.
    specialize (Hcover d c t Hd Hpl Hc Hm Ht). rewrite En in Hcover.
    destruct Hcover.
Qed.

Lemma by_time_grid_sorted_and_complete_witness :
  exists grid infos syns,
    _extract_from_bundle_by_time two_dataset_bundle "run" true true None true
    = inr (grid, infos, syns)
    /\ StronglySorted Qclt grid
    /\ NoDup grid
    /\ forall dataset component t,
        In dataset (datasets two_dataset_bundle) ->
        dataset_is_planned two_dataset_bundle "run" dataset = true ->
        In component (map Some (get_stars two_dataset_bundle) ++ [None]) ->
        In t (resolved_time_array two_dataset_bundle "run" None true
                                  dataset component) ->
        count_occ Qc_eq_dec grid t = 1.
Proof.
  destruct (by_time_grid_sorted_and_complete two_dataset_bundle "run" true true
                                             None true)
    as (grid & infos & syns & Hrun & Hsorted & Hnodup & Hcover).
  exists grid, infos, syns. repeat split; try assumption.
  intros dataset component t Hd Hp Hc Ht.
  apply (Hcover dataset component t Hd Hp Hc); [|exact Ht].
  intros _ _. discriminate.
Defined.

(** The grid of the example: the five distinct times, in order. *)
Example by_time_grid_example :
  match _extract_from_bundle_by_time two_dataset_bundle "run" true true None true
  with
  | inr (grid, infos, _) =>
      map this grid = [0%Q; (1 # 2)%Q; 1%Q; 2%Q; 3%Q]
      /\ map (map Info.dataset) infos
         = [["rv01"; "pbmesh"; "pbmesh"];
            ["lc01"; "rv01"; "pbmesh"; "pbmesh"];
            ["lc01"; "pbmesh"; "pbmesh"];
            ["rv01"];
            ["rv01"; "pbmesh"; "pbmesh"]]
  | inl _ => False
  end.
Proof. vm_compute. split; reflexivity. Qed.

(** ** The planners under an empty override *)

Lemma fold_left_fixed {A S : Type} (f : S -> A -> S) (l : list A) (s : S) :
  (forall a, f s a = s) -> fold_left f l s = s.
Proof.
  intros H. induction l as [|a l IH]; simpl; [reflexivity|].
  now rewrite H.
Qed.

Lemma override_times_empty (this_times : list Qc) :
  override_times (Some []) this_times = [].
Proof. now destruct this_times. Qed.

Lemma resolve_times_empty_override b compute allow dataset kind this_times :
  resolve_times b compute (Some []) allow dataset kind this_times = [].
Proof.
  unfold resolve_times. rewrite override_times_empty.
  now destruct (oversample_applies b compute allow dataset kind).
Qed.

Lemma scan_by_time_empty_override b compute allow :
  scan_by_time b compute (Some []) allow = empty_plan.
Proof.
  apply fold_left_fixed. intros dataset. unfold extract_dataset_by_time.
  destruct (dataset_is_planned b compute dataset); [|reflexivity].
  apply fold_left_fixed. intros component. unfold extract_component_by_time.
  destruct (is_none component && _); [reflexivity|].
  destruct (obs_times b dataset component _); [|reflexivity].
  now rewrite resolve_times_empty_override.
Qed.

Lemma scan_by_dataset_empty_override b compute :
  scan_by_dataset b compute (Some []) = empty_plan.
Proof.
  apply fold_left_fixed. intros dataset. unfold extract_dataset_by_dataset.
  destruct (dataset_is_planned b compute dataset); [|reflexivity].
  apply fold_left_fixed. intros component. unfold extract_component_by_dataset.
  destruct (is_none component && _); [reflexivity|].
  destruct (obs_times b dataset component _); [|reflexivity].
  now rewrite override_times_empty.
Qed.

Lemma automesh_times_none (needed_syns : list Info.t) :
  (forall info, In info needed_syns -> wants_automesh info = false) ->
  automesh_times needed_syns = [].
Proof.
  intros H. unfold automesh_times, needs_mesh_infos.
  replace (filter wants_automesh needed_syns) with (@nil Info.t); [reflexivity|].
  symmetry. induction needed_syns as [|info l IH]; simpl; [reflexivity|].
  rewrite (H info (or_introl eq_refl)). apply IH.
  intros i Hi. apply H. now right.
Qed.

Lemma virtual_stages_on_empty_plan b compute (protomesh pbmesh : bool) times :
  times = Some [] \/ times = None ->
  (let '(needed_syns, infos) :=
     if protomesh then _handle_protomesh b compute [] [] else ([], []) in
   if pbmesh then _handle_automesh b compute needed_syns infos times
   else inr (needed_syns, infos))
  = inr (virtual_items b compute protomesh pbmesh, []).
Proof.
  intros Ht. unfold virtual_items, _handle_protomesh, _handle_automesh.
  set (ps := map protomesh_info (get_meshables b)).
  assert (Hps : forall info, In info ps -> wants_automesh info = false).
  { intros info H. apply in_map_iff in H. now destruct H as (c & <- & _). }
  assert (Hloop : forall needed_syns,
             (forall info, In info needed_syns -> wants_automesh info = false) ->
             automesh_loop (automesh_times needed_syns) times (get_meshables b)
                           needed_syns []
             = inr (needed_syns ++ map (automesh_info []) (get_meshables b), [])).
  { intros needed_syns H. rewrite (automesh_times_none _ H).
    destruct (automesh_loop_ok [] times (get_meshables b)) with
        (needed_syns := needed_syns) (infos := @nil (list Info.t))
      as (infos' & -> & Hlen).
    - intros ts _ ot [].
    - apply length_zero_iff_nil in Hlen. now subst. }
  unfold _backends_that_support_protomesh, _backends_that_support_automesh.
  destruct (str_in (compute_kind b compute) ["phoebe"; "legacy"]);
    destruct protomesh, pbmesh; simpl; rewrite ?app_nil_r; try reflexivity.
  - now apply Hloop.
  - apply (Hloop []). intros info [].
Qed.

(** C10: with the empty list as override, which is the default of [times]
    in both [phoebe] and [legacy], every non-empty time array is replaced by
    the empty one and an empty one is left alone (whatever the override);
    both scans record no work item; and both planners return no time step
    ([times] and [infos] empty) and containers for the virtual protomesh and
    pbmesh items only. *)
Theorem empty_override_plans_nothing :
  forall (b : Bundle) (compute : string) (protomesh pbmesh : bool),
    (forall this_times, override_times (Some default_times) this_times = [])
    /\ (forall provided_times, override_times provided_times [] = [])
    /\ scan_by_time b compute (Some default_times) true = empty_plan
    /\ scan_by_dataset b compute (Some default_times) = empty_plan
    /\ phoebe_plan b compute protomesh pbmesh default_times
       = inr ([], [], _create_syns b (virtual_items b compute protomesh pbmesh))
    /\ legacy_plan b compute protomesh pbmesh default_times
       = inr ([], _create_syns b (virtual_items b compute protomesh pbmesh))
    /\ (forall syn,
          In syn (_create_syns b (virtual_items b compute protomesh pbmesh)) ->
          syn_dataset syn = "protomesh" \/ syn_dataset syn = "pbmesh").
Proof.
  intros b compute protomesh pbmesh.
  split; [apply override_times_empty|].
  split; [now intros [pt|]|].
  split; [apply scan_by_time_empty_override|].
  split; [apply scan_by_dataset_empty_override|].
  split; [|split].
  - unfold phoebe_plan, _extract_from_bundle_by_time, default_times.
    rewrite scan_by_time_empty_override. simpl p_needed_syns. simpl p_infos.
    simpl p_times.
    pose proof (virtual_stages_on_empty_plan b compute protomesh pbmesh
                  (Some []) (or_introl eq_refl)) as H.
    destruct (if protomesh then _handle_protomesh b compute [] [] else ([], []))
      as [needed_syns infos].
    rewrite H. reflexivity.
  - unfold legacy_plan, _extract_from_bundle_by_dataset, default_times.
    rewrite scan_by_dataset_empty_override. simpl p_needed_syns. simpl p_infos.
    pose proof (virtual_stages_on_empty_plan b compute protomesh pbmesh
                  None (or_intror eq_refl)) as H.
    destruct (if protomesh then _handle_protomesh b compute [] [] else ([], []))
      as [needed_syns infos].
    rewrite H. reflexivity.
  - intros syn H. unfold _create_syns in H. apply in_map_iff in H.
    destruct H as (info & <- & Hin). simpl. unfold virtual_items in Hin.
    apply in_app_or in Hin. destruct Hin as [Hin | Hin].
    + destruct (protomesh && _); [|destruct Hin].
      apply in_map_iff in Hin. destruct Hin as (c & <- & _). now left.
    + destruct (pbmesh && _); [|destruct Hin].
      apply in_map_iff in Hin. destruct Hin as (c & <- & _). now right.
Qed.

(** ** The automesh items *)

Lemma dict_set_fresh {V : Type} (k : string) (v : V) (d : list (string * V)) :
  ~ In k (map fst d) -> dict_set k v d = d ++ [(k, v)].
Proof.
  induction d as [|[k' v'] d IH]; simpl; [reflexivity|].
  intros H. destruct (k =? k') eqn:E.
  - apply String.eqb_eq in E. exfalso. apply H. left. now subst.
  - f_equal. apply IH. intros Hin. apply H. now right.
Qed.

Lemma fold_dict_set_distinct {A V : Type} (key : A -> string) (val : A -> V)
      (l : list A) :
  forall d,
    NoDup (map fst d ++ map key l) ->
    fold_left (fun d a => dict_set (key a) (val a) d) l d
    = d ++ map (fun a => (key a, val a)) l.
Proof.
  induction l as [|a l IH]; intros d H; simpl; [now rewrite app_nil_r|].
  simpl in H. rewrite dict_set_fresh.
  - rewrite IH.
    + now rewrite <- app_assoc.
    + rewrite map_app. simpl. now rewrite <- app_assoc.
  - apply NoDup_remove_2 in H. intros Hin. apply H, in_or_app. now left.
Qed.

(** When no dataset contributes more than one mesh-requiring item, the
    automesh times are the union that the claim describes. *)
Lemma automesh_times_one_item_per_dataset (needed_syns : list Info.t) :
  NoDup (map Info.dataset (filter wants_automesh needed_syns)) ->
  automesh_times needed_syns = claimed_automesh_times needed_syns.
Proof.
  intros H. unfold automesh_times, claimed_automesh_times, needs_mesh_infos.
  rewrite (fold_dict_set_distinct Info.dataset (fun i => i)) by exact H.
  unfold dict_values. simpl. now rewrite map_map, map_id.
Qed.

(** The items added by [_handle_automesh]: one per meshable component, all
    with the same time array, asking for a mesh. *)
Lemma handle_automesh_items b compute needed_syns infos times needed_syns' infos' :
  str_in (compute_kind b compute) _backends_that_support_automesh = true ->
  _handle_automesh b compute needed_syns infos times
  = inr (needed_syns', infos') ->
  needed_syns'
  = needed_syns
      ++ map (fun component =>
                Info.mk "pbmesh" (Some component) "mesh" true
                        (automesh_times needed_syns))
             (get_meshables b).
Proof.
  unfold _handle_automesh. intros ->.
  generalize (automesh_times needed_syns) as tt.
  intros tt. revert needed_syns infos.
  induction (get_meshables b) as [|c rest IH]; intros needed_syns infos; simpl.
  - intros [= <- <-]. now rewrite app_nil_r.
  - destruct (match times with
              | Some ts => if nonempty ts
                           then register_automesh (automesh_info tt c) ts tt infos
                           else inr infos
              | None => inr infos
              end) as [e | infos1]; simpl; [discriminate|].
    intros H. apply IH in H. rewrite H, <- app_assoc. reflexivity.
Qed.

(** *** Registration of the automesh items in the by-time grid *)

Lemma append_at_keeps ind this_info infos m (x : Info.t) :
  In x (nth m infos []) -> In x (nth m (append_at ind this_info infos) []).
Proof.
  revert ind m. induction infos as [|l infos IH]; intros [|n] [|m] H;
    simpl in *; auto.
  apply in_or_app. now left.
Qed.

Lemma append_at_adds ind this_info infos :
  ind < List.length infos ->
  In this_info (nth ind (append_at ind this_info infos) []).
Proof.
  revert ind. induction infos as [|l infos IH]; intros [|n] H; simpl in *;
    try lia.
  - apply in_or_app. right. now left.
  - apply IH. lia.
Qed.

Lemma index_of_bound (x : Qc) (l : list Qc) (n : nat) :
  index_of x l = Some n -> n < List.length l.
Proof.
  intros H. apply index_of_Some in H. apply nth_error_Some. congruence.
Qed.

Lemma register_automesh_keeps this_info times this_times :
  forall infos infos' m (x : Info.t),
    register_automesh this_info times this_times infos = inr infos' ->
    In x (nth m infos []) -> In x (nth m infos' []).
Proof.
  induction this_times as [|ot rest IH]; intros infos infos' m x; simpl.
  - now intros [= <-].
  - destruct (match ot with Some t => index_of t times | None => None end)
      as [n|]; [|discriminate].
    intros H Hx. eapply IH; [exact H|]. now apply append_at_keeps.
Qed.

Lemma register_automesh_length this_info times this_times :
  forall infos infos',
    register_automesh this_info times this_times infos = inr infos' ->
    List.length infos' = List.length infos.
Proof.
  induction this_times as [|ot rest IH]; intros infos infos'; simpl.
  - now intros [= <-].
  - destruct (match ot with Some t => index_of t times | None => None end)
      as [n|]; [|discriminate].
    intros H. rewrite (IH _ _ H). apply append_at_length.
Qed.

Lemma register_automesh_registers this_info times this_times :
  forall infos infos',
    List.length times = List.length infos ->
    register_automesh this_info times this_times infos = inr infos' ->
    forall t, In (Some t) this_times ->
              exists n, index_of t times = Some n
                        /\ In this_info (nth n infos' []).
Proof.
  induction this_times as [|ot rest IH]; intros infos infos' Hlen; simpl.
  - intros _ t [].
  - destruct ot as [t0|]; [|discriminate].
    destruct (index_of t0 times) as [n|] eqn:E; [|discriminate].
    intros H t [[= ->] | Hin].
    + exists n. split; [assumption|].
      eapply register_automesh_keeps; [exact H|].
      apply append_at_adds. rewrite <- Hlen. now apply index_of_bound in E.
    + eapply IH; [|exact H | exact Hin]. now rewrite append_at_length.
Qed.

Lemma automesh_loop_keeps this_times times components :
  forall needed_syns infos needed_syns' infos' m (x : Info.t),
    automesh_loop this_times times components needed_syns infos
    = inr (needed_syns', infos') ->
    In x (nth m infos []) -> In x (nth m infos' []).
Proof.
  induction components as [|c rest IH];
    intros needed_syns infos needed_syns' infos' m x; simpl.
  - now intros [= _ <-].
  - destruct times as [ts|]; [destruct (nonempty ts)|]; simpl.
    + destruct (register_automesh (automesh_info this_times c) ts this_times
                                  infos) as [e|infos1] eqn:E; simpl;
        [discriminate|].
      intros H Hx. eapply IH; [exact H|].
      eapply register_automesh_keeps; eassumption.
    + intros H Hx. eapply IH; eassumption.
    + intros H Hx. eapply IH; eassumption.
Qed.

(** In by-time mode every automesh item is in the active list of the time
    step of each of its times. *)
Lemma automesh_loop_registers this_times times components :
  times <> [] ->
  forall needed_syns infos needed_syns' infos',
    List.length times = List.length infos ->
    automesh_loop this_times (Some times) components needed_syns infos
    = inr (needed_syns', infos') ->
    forall component t,
      In component components -> In (Some t) this_times ->
      exists n, index_of t times = Some n
                /\ In (automesh_info this_times component) (nth n infos' []).
Proof.
  intros Hne. assert (En : nonempty times = true) by now destruct times.
  induction components as [|c rest IH];
    intros needed_syns infos needed_syns' infos' Hlen; simpl.
  - intros _ component t [].
  - rewrite En.
    destruct (register_automesh (automesh_info this_times c) times this_times
                                infos) as [e|infos1] eqn:E; simpl;
      [discriminate|].
    assert (Hlen1 : List.length times = List.length infos1).
    { rewrite (register_automesh_length _ _ _ _ _ E). exact Hlen. }
    intros H component t [<- | Hin] Ht.
    + destruct (register_automesh_registers _ _ _ _ _ Hlen E t Ht)
        as (n & Hn & Hreg).
      exists n. split; [assumption|].
      eapply automesh_loop_keeps; eassumption.
    + eapply IH; eassumption.
Qed.

(** C6: on a radial-velocity dataset observed at different times for its
    two components, the automesh items get the times of the last component
    only: the time 2 of the primary, at which a mesh is required, is in the
    union of the claim and not in the time array of the automesh items, and
    the time step at 2 holds no automesh item. *)
Theorem automesh_times_miss_component_times :
  let needed_syns :=
    p_needed_syns (scan_by_time two_dataset_bundle "run" None true) in
  map (fun info => (Info.dataset info, Info.component info,
                    Info.needs_mesh info, map (option_map this) (Info.times info)))
      needed_syns
  = [("lc01", None, true, [Some 1%Q; Some (1 # 2)%Q]);
     ("rv01", Some "primary", true, [Some (1 # 2)%Q; Some 2%Q]);
     ("rv01", Some "secondary", true, [Some 3%Q; Some 0%Q])]
  /\ map (option_map this) (automesh_times needed_syns)
     = [Some 0%Q; Some (1 # 2)%Q; Some 1%Q; Some 3%Q]
  /\ map (option_map this) (claimed_automesh_times needed_syns)
     = [Some 0%Q; Some (1 # 2)%Q; Some 1%Q; Some 2%Q; Some 3%Q]
  /\ match _extract_from_bundle_by_time two_dataset_bundle "run" false true
                                        None true with
     | inr (grid, infos, _) =>
         map this grid = [0%Q; (1 # 2)%Q; 1%Q; 2%Q; 3%Q]
         /\ map (map (fun info => (Info.dataset info, Info.needs_mesh info)))
                (firstn 1 (skipn 3 infos))
            = [[("rv01", true)]]
     | inl _ => False
     end.
Proof. vm_compute. repeat split. Qed.

(** ** LuminosityCalibrator *)

Lemma dict_get_set_eq {V : Type} (k : string) (v : V) (d : list (string * V)) :
  dict_get k (dict_set k v d) = Some v.
Proof.
  induction d as [|[k' v'] d IH]; simpl.
  - now rewrite String.eqb_refl.
  - destruct (k =? k') eqn:E; simpl; rewrite ?String.eqb_refl, ?E; auto.
Qed.

Lemma dict_get_set_ne {V : Type} (k k' : string) (v : V) (d : list (string * V)) :
  k <> k' -> dict_get k' (dict_set k v d) = dict_get k' d.
Proof.
  intros Hne. induction d as [|[k0 v0] d IH]; simpl.
  - destruct (k' =? k) eqn:E; [|reflexivity].
    apply String.eqb_eq in E. congruence.
  - destruct (k =? k0) eqn:E; simpl.
    + apply String.eqb_eq in E. subst k0.
      destruct (k' =? k) eqn:E'; [|reflexivity].
      apply String.eqb_eq in E'. congruence.
    + now rewrite IH.
Qed.

Lemma dict_get_In {V : Type} (k : string) (v : V) (d : list (string * V)) :
  dict_get k d = Some v -> In (k, v) d.
Proof.
  induction d as [|[k' v'] d IH]; simpl; [discriminate|].
  destruct (k =? k') eqn:E.
  - apply String.eqb_eq in E. intros [= <-]. left. now subst.
  - auto.
Qed.

Lemma dict_set_keys {V : Type} (k : string) (v : V) (d : list (string * V)) x :
  In x (map fst (dict_set k v d)) <-> x = k \/ In x (map fst d).
Proof.
  induction d as [|[k' v'] d IH]; simpl; [intuition|].
  destruct (k =? k') eqn:E; simpl.
  - apply String.eqb_eq in E. subst. intuition.
  - rewrite IH. intuition.
Qed.

Lemma dict_set_NoDup {V : Type} (k : string) (v : V) (d : list (string * V)) :
  NoDup (map fst d) -> NoDup (map fst (dict_set k v d)).
Proof.
  induction d as [|[k' v'] d IH]; simpl; intros H.
  - repeat constructor. intros [].
  - inversion H as [|? ? Hnin Hnd]; subst.
    destruct (k =? k') eqn:E; simpl.
    + apply String.eqb_eq in E. subst. now constructor.
    + constructor; [|now apply IH].
      rewrite dict_set_keys. intros [-> | Hin]; [|contradiction].
      now rewrite String.eqb_refl in E.
Qed.

Lemma dict_In_get {V : Type} (k : string) (v : V) (d : list (string * V)) :
  NoDup (map fst d) -> In (k, v) d -> dict_get k d = Some v.
Proof.
  induction d as [|[k' v'] d IH]; simpl; [tauto|].
  intros H Hin. inversion H as [|? ? Hnin Hnd]; subst.
  destruct Hin as [[= -> ->] | Hin].
  - now rewrite String.eqb_refl.
  - destruct (k =? k') eqn:E; [|auto].
    apply String.eqb_eq in E. subst. exfalso. apply Hnin.
    apply in_map_iff. now exists (k', v).
Qed.

Section CalibrationFacts.

Variable Scale : Type.
Variable computed_scale : string -> string -> Scale.
Variable get_pblum_scale : option Scale -> Scale.
Variable dict_items : list (string * string) -> list (string * string).
Variable b : Bundle.
Variable dataset : string.

Local Abbreviation is_self := (mode_is_self b dataset).
Local Abbreviation is_copy := (mode_is_copy b dataset).

Let pass := fold_left (calibrate_component Scale computed_scale b dataset).

Lemma calibrate_component_cases st pblum_copy component :
  calibrate_component Scale computed_scale b dataset (st, pblum_copy) component
  = if is_self component then
      (mkCal (dict_set component (computed_scale component dataset) (scales st))
             (cal_log st ++ [ComputeScale component]), pblum_copy)
    else if is_copy component then
      (st, dict_set component (pblum_ref b component dataset) pblum_copy)
    else (st, pblum_copy).
Proof.
  unfold calibrate_component, mode_is_self, mode_is_copy.
  destruct (component =? "_default"); [reflexivity|].
  now destruct (pblum_ref b component dataset =? "self").
Qed.

Lemma self_not_copy component :
  is_self component = true -> is_copy component = false.
Proof.
  unfold mode_is_self, mode_is_copy.
  destruct (component =? "_default"); simpl; [auto|]. now intros ->.
Qed.

Lemma dict_get_set_if {V : Type} (k c : string) (v : V) d :
  dict_get k (dict_set c v d) = if k =? c then Some v else dict_get k d.
Proof.
  destruct (k =? c) eqn:E.
  - apply String.eqb_eq in E. subst. apply dict_get_set_eq.
  - apply dict_get_set_ne. intros ->. now rewrite String.eqb_refl in E.
Qed.

(** The first pass over any list of components. *)
Lemma first_pass_spec (l : list string) :
  forall st pblum_copy,
    NoDup (map fst pblum_copy) ->
    let r := pass l (st, pblum_copy) in
    cal_log (fst r) = cal_log st ++ map ComputeScale (filter is_self l)
    /\ (forall k, dict_get k (scales (fst r))
                  = if str_in k (filter is_self l)
                    then Some (computed_scale k dataset)
                    else dict_get k (scales st))
    /\ (forall k, dict_get k (snd r)
                  = if str_in k (filter is_copy l)
                    then Some (pblum_ref b k dataset)
                    else dict_get k pblum_copy)
    /\ NoDup (map fst (snd r)).
Proof.
  unfold pass.
  induction l as [|c l IH]; intros st pc Hnd.
  - simpl. rewrite app_nil_r. auto.
  - cbn [fold_left filter]. rewrite calibrate_component_cases.
    destruct (is_self c) eqn:Es;
      [rewrite (self_not_copy c Es) | destruct (is_copy c)].
    + destruct (IH (mkCal (dict_set c (computed_scale c dataset) (scales st))
                          (cal_log st ++ [ComputeScale c])) pc Hnd)
        as (H1 & H2 & H3 & H4).
      cbv zeta. cbn [scales cal_log] in H1, H2.
      split; [rewrite H1, <- app_assoc; reflexivity|].
      split; [|split; assumption].
      intros k. rewrite H2. cbn [str_in existsb]. fold (str_in k (filter is_self l)).
      destruct (str_in k (filter is_self l)); [now rewrite orb_true_r|].
      rewrite orb_false_r, dict_get_set_if.
      destruct (k =? c) eqn:E; [|reflexivity].
      apply String.eqb_eq in E. now subst.
    + destruct (IH st (dict_set c (pblum_ref b c dataset) pc)
                   (dict_set_NoDup _ _ _ Hnd)) as (H1 & H2 & H3 & H4).
      cbv zeta.
      split; [assumption|]. split; [assumption|]. split; [|assumption].
      intros k. rewrite H3. cbn [str_in existsb]. fold (str_in k (filter is_copy l)).
      destruct (str_in k (filter is_copy l)); [now rewrite orb_true_r|].
      rewrite orb_false_r, dict_get_set_if.
      destruct (k =? c) eqn:E; [|reflexivity].
      apply String.eqb_eq in E. now subst.
    + apply IH. exact Hnd.
Qed.

Lemma first_pass_result :
  let r := first_pass Scale computed_scale b dataset in
  cal_log (fst r) = map ComputeScale (filter is_self (get_meshables b))
  /\ (forall k, dict_get k (scales (fst r))
                = if str_in k (filter is_self (get_meshables b))
                  then Some (computed_scale k dataset) else None)
  /\ (forall k, dict_get k (snd r)
                = if str_in k (filter is_copy (get_meshables b))
                  then Some (pblum_ref b k dataset) else None)
  /\ NoDup (map fst (snd r)).
Proof.
  exact (first_pass_spec (get_meshables b) (mkCal [] []) [] (NoDup_nil _)).
Qed.

Local Abbreviation sound_item := (reference_item b dataset).

Lemma str_in_filter (f : string -> bool) (k : string) (l : list string) :
  str_in k (filter f l) = true <-> In k l /\ f k = true.
Proof. rewrite str_in_In. apply filter_In. Qed.

(** The dict left by the first pass holds exactly the references. *)
Lemma pblum_copy_sound (item : string * string) :
  In item (snd (first_pass Scale computed_scale b dataset)) <->
  sound_item item.
Proof.
  destruct first_pass_result as (_ & _ & H3 & H4).
  destruct item as [c r]. unfold reference_item. simpl.
  split.
  - intros Hin. apply (dict_In_get _ _ _ H4) in Hin. rewrite H3 in Hin.
    destruct (str_in c (filter is_copy (get_meshables b))) eqn:E;
      [|discriminate].
    apply str_in_filter in E. injection Hin as <-. tauto.
  - intros (Hin & Hc & ->). apply dict_get_In. rewrite H3.
    now rewrite (proj2 (str_in_filter is_copy c _) (conj Hin Hc)).
Qed.

Lemma nth_error_map_In {A B : Type} (f : A -> B) (l : list A) (x : A) :
  In x l -> exists m, m < List.length l /\ nth_error (map f l) m = Some (f x).
Proof.
  intros H. apply In_nth_error in H. destruct H as [m Hm].
  exists m. split; [apply nth_error_Some; congruence|].
  now rewrite nth_error_map, Hm.
Qed.

End CalibrationFacts.

(** The scenario of the calibration: the primary ends with the scale
    computed for the secondary. *)
Example calibration_copy_example :
  cal_log (calibrate_dataset nat example_scale example_getter (fun l => l)
                             copy_bundle "lc01")
  = [ComputeScale "secondary"; CopyScale "primary" "secondary"]
  /\ scales (calibrate_dataset nat example_scale example_getter (fun l => l)
                               copy_bundle "lc01")
     = [("secondary", 9); ("primary", 9)].
Proof. split; reflexivity. Qed.

(** ** StepOrchestrator *)

Section OrchestratorFacts.

Variable V : Type.
Variable sv : Services V.
Variable starrefs : list string.

Lemma seq2_raises (f g : LoopState V -> LoopState V * option py_error) st :
  (exists st' e, f st = (st', Some e)) ->
  exists st' e, seq2 V f g st = (st', Some e).
Proof.
  intros (st' & e & H). unfold seq2. rewrite H. eauto.
Qed.

(** A loop one of whose bodies raises in every state raises. *)
Lemma for_each_raises {A : Type}
      (body : A -> LoopState V -> LoopState V * option py_error)
      (l : list A) (x : A) :
  In x l ->
  (forall st, exists st' e, body x st = (st', Some e)) ->
  forall st, exists st' e, for_each V body l st = (st', Some e).
Proof.
  intros Hin Hx. induction l as [|y l IH]; intros st; [destruct Hin|].
  cbn [for_each]. unfold seq2.
  destruct (body y st) as [st1 [e|]] eqn:E; [eauto|].
  destruct Hin as [-> | Hin]; [|now apply IH].
  destruct (Hx st) as (st' & e & H). congruence.
Qed.

Lemma main_loop_from_raises do_horizon as_generator steps time infolist :
  In (time, infolist) steps ->
  (forall i st, exists st' e,
      step V sv starrefs do_horizon as_generator i time infolist st
      = (st', Some e)) ->
  forall i st, exists st' e,
    main_loop_from V sv starrefs do_horizon as_generator i steps st
    = (st', Some e).
Proof.
  intros Hin Hstep. induction steps as [|[t l] steps IH]; intros i st;
    [destruct Hin|].
  cbn [main_loop_from]. unfold seq2.
  destruct (step V sv starrefs do_horizon as_generator i t l st)
    as [st1 [e|]] eqn:E; [eauto|].
  destruct Hin as [[= -> ->] | Hin]; [|now apply IH].
  destruct (Hstep i st) as (st' & e & H). congruence.
Qed.

Lemma unlisted_kind_branches (kind : string) :
  str_in kind listed_kinds = false ->
  (kind =? "rv") = false /\ (kind =? "lc") = false /\ (kind =? "etv") = false
  /\ (kind =? "ifm") = false /\ (kind =? "orb") = false
  /\ (kind =? "mesh") = false.
Proof.
  unfold str_in, listed_kinds. cbn [existsb]. intros H.
  repeat (apply orb_false_elim in H; destruct H as [? H]).
  repeat split; assumption.
Qed.

(** C7: a work item whose kind is none of mesh, sp, rv, lc, etv, ifm and
    orb makes the dispatch raise NotImplementedError with a message that names
    the kind, the containers being left as they were; the time step that
    holds the item, and the main loop over any plan with that time step, end
    with an exception instead of going past the item. *)
Theorem unsupported_kind_raises :
  forall (do_horizon : bool) (info : Info.t),
    str_in (Info.kind info) listed_kinds = false ->
    (forall infolist i time st,
        fill_info V sv starrefs do_horizon infolist i time info st
        = (st, Some (NotImplementedError
                       (unsupported_kind_message (Info.kind info)))))
    /\ (forall as_generator infolist i time st,
          In info infolist ->
          exists st' e,
            step V sv starrefs do_horizon as_generator i time infolist st
            = (st', Some e))
    /\ (forall as_generator times infos time infolist,
          In (time, infolist) (combine times infos) ->
          In info infolist ->
          exists st' e,
            main_loop V sv starrefs do_horizon as_generator times infos
            = (st', Some e)).
Proof.
  intros do_horizon info H.
  assert (Hfill : forall infolist i time st,
             fill_info V sv starrefs do_horizon infolist i time info st
             = (st, Some (NotImplementedError
                            (unsupported_kind_message (Info.kind info))))).
  { intros infolist i time st. unfold fill_info.
    destruct (unlisted_kind_branches _ H) as (-> & -> & -> & -> & -> & ->).
    reflexivity. }
  assert (Hstep : forall as_generator infolist i time st,
             In info infolist ->
             exists st' e,
               step V sv starrefs do_horizon as_generator i time infolist st
               = (st', Some e)).
  { intros as_generator infolist i time st Hin. unfold step.
    apply seq2_raises. apply (for_each_raises _ _ info Hin).
    intros st0. rewrite Hfill. eauto. }
  split; [exact Hfill|]. split; [exact Hstep|].
  intros as_generator times infos time infolist Hin Hin'.
  unfold main_loop. apply seq2_raises.
  apply (main_loop_from_raises _ _ _ time infolist Hin).
  intros i st. now apply Hstep.
Qed.

(** The kind sp, although selected with mesh for the lookup of its
    container (line 666), has no branch of its own and raises as well. *)
Lemma sp_kind_raises do_horizon infolist i time info st :
  Info.kind info = "sp" ->
  fill_info V sv starrefs do_horizon infolist i time info st
  = (st, Some (NotImplementedError (unsupported_kind_message "sp"))).
Proof. intros H. unfold fill_info. rewrite H. reflexivity. Qed.


End OrchestratorFacts.

Lemma unsupported_kind_raises_witness :
  fill_info nat (example_services "roche" "marching") ["primary"; "secondary"]
            true [example_item "spectrum"] 0 (Q2Qc 0%Q)
            (example_item "spectrum") (mkLoop nat [] None)
  = (mkLoop nat [] None,
     Some (NotImplementedError
             "kind spectrum not yet supported by this backend")).
Proof.
  apply (proj1 (unsupported_kind_raises nat (example_services "roche" "marching")
                  ["primary"; "secondary"] true (example_item "spectrum")
                  eq_refl)).
Defined.



(** ** LegacyAdapter: the translation of a legacy mesh *)

(** Whatever the key, the conditions of lines 978 and 980 hold (their left
    operand is a non-empty string), so every column of a protomesh gets the
    pattern of the z axis. *)
Lemma protomesh_key_val_pattern_z (key : string) (prot_val : list Qc) :
  protomesh_key_val key prot_val = expand8 pattern_z prot_val.
Proof. reflexivity. Qed.

(** C9: the code does not expand the columns as the claim describes. In the
    protomesh flavor the y column is negated on the z hemisphere instead of
    the mirrored-y quadrants and the temperature column, which should be
    copied unsigned, is negated on the z hemisphere as well; in the automesh
    flavor no coordinate or gradient column is translated at all, only
    the intensities. *)
Theorem legacy_mesh_wrong_mirroring :
  forall sqrt : Qc -> Qc,
    (forall key prot_val,
        protomesh_key_val key prot_val = expand8 pattern_z prot_val)
    /\ axis_pattern "vcy1" = pattern_y
    /\ axis_pattern "tloc1" = pattern_plain
    /\ firstn 2 (show_entries (fill_mesh sqrt example_mesh "protomesh" [] "lc01"))
       = [("primary", "ys", "protomesh",
           [1; 1; 1; 1; -1; -1; -1; -1]%Q);
          ("primary", "teffs", "protomesh",
           [5000; 5000; 5000; 5000; -5000; -5000; -5000; -5000]%Q)]
    /\ map this (expand8 (axis_pattern "vcy1") [Q2Qc 1%Q])
       = [1; 1; -1; -1; 1; 1; -1; -1]%Q
    /\ show_entries (fill_mesh sqrt example_mesh "pbmesh" [Q2Qc 0%Q] "lc01")
       = [("primary", "abs_normal_intensities", "lc01",
           [7; 7; 7; 7; 7; 7; 7; 7]%Q)].
Proof.
  intros sqrt. repeat split.
Qed.

(** * Further properties *)

(** ** The time steps of the by-time planner *)

Lemma registers_app r1 r2 S S1 S2 :
  registers r1 S S1 -> registers r2 S1 S2 -> registers (r1 ++ r2) S S2.
Proof.
  induction 1 as [|i t rest S S' S1 Hreg Hrest IH]; intros H2; simpl; auto.
  econstructor; eauto.
Qed.

Lemma combine_app_eq {A B : Type} (l1 l1' : list A) (l2 l2' : list B) :
  List.length l1 = List.length l2 ->
  combine (l1 ++ l1') (l2 ++ l2') = combine l1 l2 ++ combine l1' l2'.
Proof.
  revert l2. induction l1 as [|a l1 IH]; intros [|b l2] H; simpl in *;
    try discriminate; [reflexivity|].
  f_equal. apply IH. now injection H.
Qed.

Lemma combine_append_at (times : list Qc) (infos : list (list Info.t))
      (ind : nat) (this_info : Info.t) (t : Qc) :
  List.length times = List.length infos ->
  nth_error times ind = Some t ->
  exists pre l post,
    combine times infos = pre ++ (t, l) :: post
    /\ combine times (append_at ind this_info infos)
       = pre ++ (t, l ++ [this_info]) :: post.
Proof.
  revert infos ind. induction times as [|t0 times IH];
    intros [|l0 infos] [|n] Hlen Hn; simpl in *; try discriminate.
  - injection Hn as ->. exists [], l0, (combine times infos). auto.
  - destruct (IH infos n) as (pre & l & post & E1 & E2); [lia | assumption |].
    exists ((t0, l0) :: pre), l, post. simpl. now rewrite E1, E2.
Qed.

Lemma add_time_registered (this_info : Info.t) (times : list Qc)
      (infos : list (list Info.t)) (t : Qc) :
  List.length times = List.length infos ->
  let r := add_time this_info (times, infos) t in
  List.length (fst r) = List.length (snd r)
  /\ registered this_info t (combine times infos) (combine (fst r) (snd r)).
Proof.
  intros Hlen. unfold add_time.
  destruct (index_of t times) as [ind|] eqn:E; simpl.
  - split; [now rewrite append_at_length|].
    apply index_of_Some in E.
    destruct (combine_append_at times infos ind this_info t Hlen E)
      as (pre & l & post & -> & ->).
    constructor.
  - split; [rewrite !length_app; simpl; lia|].
    rewrite combine_app_eq by assumption. simpl. constructor.
Qed.

Lemma add_times_registers (this_info : Info.t) (this_times : list Qc) :
  forall times infos,
    List.length times = List.length infos ->
    let r := fold_left (add_time this_info) this_times (times, infos) in
    List.length (fst r) = List.length (snd r)
    /\ registers (map (@pair Info.t Qc this_info) this_times)
                 (combine times infos) (combine (fst r) (snd r)).
Proof.
  induction this_times as [|t ts IH]; intros times infos Hlen;
    cbv zeta; cbn [fold_left map].
  - split; [assumption | constructor].
  - destruct (add_time_registered this_info times infos t Hlen) as [Hl Hr].
    destruct (add_time this_info (times, infos) t) as [times1 infos1].
    cbn [fst snd] in Hl, Hr. destruct (IH times1 infos1 Hl) as [Hl' Hr'].
    split; [assumption|]. econstructor; eassumption.
Qed.

Lemma somes_map_Some (l : list Qc) : somes (map Some l) = l.
Proof.
  unfold somes. induction l as [|x l IH]; simpl; [reflexivity|].
  now rewrite IH.
Qed.

Lemma regs_of_app l1 l2 : regs_of (l1 ++ l2) = regs_of l1 ++ regs_of l2.
Proof. unfold regs_of. apply flat_map_app. Qed.

Lemma add_item_by_time_registered this_times st this_info :
  Info.times this_info = map Some this_times ->
  plan_registered st ->
  plan_registered (add_item_by_time this_times st this_info).
Proof.
  intros Ht [Hlen Hreg]. unfold add_item_by_time, plan_registered.
  destruct (add_times_registers this_info this_times _ _ Hlen) as [Hl Hr].
  destruct (fold_left (add_time this_info) this_times (p_times st, p_infos st))
    as [times infos]. simpl in *.
  split; [assumption|].
  rewrite regs_of_app. eapply registers_app; [eassumption|].
  unfold regs_of. simpl. now rewrite app_nil_r, Ht, somes_map_Some.
Qed.

Lemma fold_left_invariant {A S : Type} (P : S -> Prop) (f : S -> A -> S)
      (l : list A) :
  (forall s a, P s -> P (f s a)) -> forall s, P s -> P (fold_left f l s).
Proof.
  intros Hf. induction l as [|a l IH]; intros s H; simpl; auto.
Qed.

Lemma scan_by_time_registered b compute provided allow :
  plan_registered (scan_by_time b compute provided allow).
Proof.
  unfold scan_by_time.
  apply fold_left_invariant; [|split; [reflexivity | constructor]].
  intros st dataset Hst. unfold extract_dataset_by_time.
  destruct (dataset_is_planned b compute dataset); [|assumption].
  apply fold_left_invariant; [|assumption].
  clear st Hst. intros st component Hst. unfold extract_component_by_time.
  destruct (is_none component && _); [assumption|].
  destruct (obs_times b dataset component _) as [this_times|]; [|assumption].
  destruct (nonempty _); [|assumption].
  set (ts := resolve_times b compute provided allow dataset
                           (obs_kind b dataset component) this_times).
  generalize (mk_infos_times b compute dataset (obs_kind b dataset component) ts
                (item_components b component (obs_kind b dataset component))).
  generalize (map (mk_info b compute dataset (obs_kind b dataset component) ts)
                  (item_components b component (obs_kind b dataset component))).
  intros items Hitems. revert st Hst.
  induction Hitems as [|info items Hinfo _ IH]; intros st Hst; simpl;
    [assumption|].
  apply IH. now apply add_item_by_time_registered.
Qed.

Lemma register_automesh_steps (this_info : Info.t) (times : list Qc)
      (this_times : list (option Qc)) :
  forall infos infos',
    List.length times = List.length infos ->
    register_automesh this_info times this_times infos = inr infos' ->
    List.length times = List.length infos'
    /\ registers (map (@pair Info.t Qc this_info) (somes this_times))
                 (combine times infos) (combine times infos').
Proof.
  induction this_times as [|ot rest IH]; intros infos infos' Hlen; simpl.
  - intros [= <-]. split; [assumption | constructor].
  - destruct ot as [t|]; [|discriminate].
    destruct (index_of t times) as [ind|] eqn:E; [|discriminate].
    intros H. apply index_of_Some in E.
    destruct (combine_append_at times infos ind this_info t Hlen E)
      as (pre & l & post & E1 & E2).
    destruct (IH (append_at ind this_info infos) infos') as [Hl Hr];
      [now rewrite append_at_length | assumption |].
    split; [assumption|].
    econstructor; [|exact Hr]. rewrite E1, E2. constructor.
Qed.

Lemma regs_of_no_times (items : list Info.t) :
  Forall (fun info => Info.times info = []) items -> regs_of items = [].
Proof.
  induction 1 as [|info items Hinfo _ IH]; [reflexivity|].
  unfold regs_of in *. simpl. now rewrite Hinfo, IH.
Qed.

Lemma automesh_infos_no_times (components : list string) :
  Forall (fun info => Info.times info = [])
         (map (automesh_info []) components).
Proof.
  apply Forall_forall. intros i Hi. apply in_map_iff in Hi.
  now destruct Hi as (x & <- & _).
Qed.

Lemma automesh_loop_steps (this_times : list (option Qc)) (times : list Qc)
      (components : list string) :
  (forall ot, In ot this_times -> exists t, ot = Some t /\ In t times) ->
  forall needed_syns infos,
    List.length times = List.length infos ->
    exists infos',
      automesh_loop this_times (Some times) components needed_syns infos
      = inr (needed_syns ++ map (automesh_info this_times) components, infos')
      /\ List.length times = List.length infos'
      /\ registers (regs_of (map (automesh_info this_times) components))
                   (combine times infos) (combine times infos').
Proof.
  intros Hin. induction components as [|c rest IH]; intros needed_syns infos Hlen.
  - exists infos. simpl. rewrite app_nil_r. repeat split; auto. constructor.
  - cbn [automesh_loop map].
    destruct (nonempty times) eqn:En.
    + destruct (register_automesh_ok (automesh_info this_times c) times
                  this_times Hin infos) as (infos1 & E1 & _).
      rewrite E1. cbn [bind].
      destruct (register_automesh_steps _ _ _ _ _ Hlen E1) as [Hl1 Hr1].
      destruct (IH (needed_syns ++ [automesh_info this_times c]) infos1 Hl1)
        as (infos' & E & Hl & Hr).
      exists infos'. rewrite E, <- app_assoc. repeat split; auto.
      unfold regs_of. cbn [flat_map]. eapply registers_app; eassumption.
    + cbn [bind].
      destruct (IH (needed_syns ++ [automesh_info this_times c]) infos Hlen)
        as (infos' & E & Hl & Hr).
      exists infos'. rewrite E, <- app_assoc. repeat split; auto.
      assert (Ht : this_times = []).
      { apply nonempty_false in En. subst times.
        destruct this_times as [|ot r]; [reflexivity|].
        destruct (Hin ot (or_introl eq_refl)) as (t & _ & []). }
      subst this_times.
      rewrite regs_of_no_times in Hr by apply automesh_infos_no_times.
      rewrite regs_of_no_times; [exact Hr|].
      constructor; [reflexivity | apply automesh_infos_no_times].
Qed.

Lemma combine_fst_snd {A B : Type} (l : list (A * B)) :
  combine (map fst l) (map snd l) = l.
Proof.
  induction l as [|[a b] l IH]; simpl; [reflexivity | now rewrite IH].
Qed.

Lemma handle_protomesh_items b compute (protomesh : bool) needed_syns infos :
  (if protomesh then _handle_protomesh b compute needed_syns infos
   else (needed_syns, infos))
  = (needed_syns ++ protomesh_items b compute protomesh, infos).
Proof.
  unfold _handle_protomesh, protomesh_items.
  destruct protomesh; cbn [andb]; [|now rewrite app_nil_r].
  destruct (str_in (compute_kind b compute) _backends_that_support_protomesh);
    [reflexivity | now rewrite app_nil_r].
Qed.

(** The plan returned by the by-time planner: its time steps are, up to the
    final sort, the registrations of every time of every work item of the scan
    and of every automesh item. *)
Lemma by_time_steps b compute (protomesh pbmesh : bool) provided allow :
  let st := scan_by_time b compute provided allow in
  let needed1 := p_needed_syns st ++ protomesh_items b compute protomesh in
  let autos := automesh_items b compute pbmesh needed1 in
  exists grid infos S,
    _extract_from_bundle_by_time b compute protomesh pbmesh provided allow
    = inr (grid, infos, _create_syns b (needed1 ++ autos))
    /\ List.length grid = List.length infos
    /\ registers (regs_of (p_needed_syns st ++ autos)) [] S
    /\ Permutation (combine grid infos) S
    /\ Permutation grid (p_times st)
    /\ (forall info ot,
          In info (p_needed_syns st ++ autos) -> In ot (Info.times info) ->
          exists t, ot = Some t).
Proof.
  intros st needed1 autos. unfold _extract_from_bundle_by_time. fold st.
  pose proof (scan_by_time_ok b compute provided allow) as Hok. fold st in Hok.
  destruct (scan_by_time_registered b compute provided allow) as [Hlen Hreg].
  fold st in Hlen, Hreg.
  rewrite handle_protomesh_items. fold needed1.
  assert (Hwants : forall info ot,
             In info needed1 -> wants_automesh info = true ->
             In ot (Info.times info) ->
             exists t, ot = Some t /\ In t (p_times st)).
  { intros info ot Hin Hw Hot. apply (ok_items st Hok info ot); [|assumption].
    unfold needed1, protomesh_items in Hin. apply in_app_or in Hin.
    destruct Hin as [Hin | Hin]; [assumption|].
    destruct (protomesh && _); [|destruct Hin].
    apply in_map_iff in Hin. destruct Hin as (c & <- & _). discriminate Hw. }
  assert (E : exists infos2,
             (if pbmesh
              then _handle_automesh b compute needed1 (p_infos st)
                                    (Some (p_times st))
              else inr (needed1, p_infos st))
             = inr (needed1 ++ autos, infos2)
             /\ List.length (p_times st) = List.length infos2
             /\ registers (regs_of autos) (combine (p_times st) (p_infos st))
                          (combine (p_times st) infos2)).
  { unfold autos, automesh_items, _handle_automesh.
    destruct pbmesh; cbn [andb];
      [|exists (p_infos st); rewrite app_nil_r; repeat split; auto; constructor].
    destruct (str_in (compute_kind b compute) _backends_that_support_automesh);
      [|exists (p_infos st); rewrite app_nil_r; repeat split; auto; constructor].
    apply automesh_loop_steps; [|assumption].
    intros ot Hot. apply automesh_times_In in Hot.
    destruct Hot as (info & Hin & Hw & Hot'). eapply Hwants; eauto. }
  destruct E as (infos2 & -> & Hlen2 & Hreg2). cbn [bind].
  assert (HS : registers (regs_of (p_needed_syns st ++ autos)) []
                         (combine (p_times st) infos2)).
  { rewrite regs_of_app. eapply registers_app; eassumption. }
  assert (Hsome : forall info ot,
             In info (p_needed_syns st ++ autos) -> In ot (Info.times info) ->
             exists t, ot = Some t).
  { intros info ot Hin Hot. apply in_app_or in Hin. destruct Hin as [Hin | Hin].
    - destruct (ok_items st Hok info ot Hin Hot) as (t & -> & _). eauto.
    - unfold autos, automesh_items in Hin.
      destruct (pbmesh && _); [|destruct Hin].
      apply in_map_iff in Hin. destruct Hin as (c & <- & _). simpl in Hot.
      apply automesh_times_In in Hot.
      destruct Hot as (i & Hi & Hw & Hot').
      destruct (Hwants i ot Hi Hw Hot') as (t & -> & _). eauto. }
  destruct (nonempty (p_times st)) eqn:En.
  - exists (map fst (sort_ti (combine (p_times st) infos2))),
           (map snd (sort_ti (combine (p_times st) infos2))),
           (combine (p_times st) infos2).
    split; [reflexivity|]. split; [now rewrite !length_map|].
    split; [assumption|]. rewrite combine_fst_snd.
    split; [apply sort_ti_perm|]. split; [|assumption].
    rewrite <- (combine_map_fst_eq (p_times st) infos2 Hlen2) at 2.
    apply Permutation_map, sort_ti_perm.
  - exists (p_times st), infos2, (combine (p_times st) infos2).
    repeat split; auto.
Qed.

Lemma somes_In (t : Qc) (l : list (option Qc)) : In t (somes l) <-> In (Some t) l.
Proof.
  unfold somes. rewrite in_flat_map. split.
  - intros ([x|] & Hin & Hx); simpl in Hx; [|destruct Hx].
    destruct Hx as [-> | []]. assumption.
  - intros H. exists (Some t). split; [assumption | now left].
Qed.

Lemma regs_of_In (items : list Info.t) (info : Info.t) (t : Qc) :
  In (info, t) (regs_of items) <->
  In info items /\ In (Some t) (Info.times info).
Proof.
  unfold regs_of. rewrite in_flat_map. split.
  - intros (x & Hin & Hx). apply in_map_iff in Hx.
    destruct Hx as (t' & [= -> ->] & Ht). now rewrite <- somes_In.
  - intros [Hin Ht]. exists info. split; [assumption|].
    apply in_map. now apply somes_In.
Qed.

Lemma registered_active i t S S' info t' :
  registered i t S S' ->
  (active_at S' info t' <-> active_at S info t' \/ (info = i /\ t' = t)).
Proof.
  intros H. unfold active_at. destruct H as [pre l post | S].
  - split.
    + intros (l' & Hin & Hi). apply in_app_or in Hin.
      destruct Hin as [Hin | [[= <- <-] | Hin]].
      * left. exists l'. split; [|assumption]. apply in_or_app. now left.
      * apply in_app_or in Hi. destruct Hi as [Hi | [<- | []]]; [|now right].
        left. exists l. split; [|assumption]. apply in_or_app. right. now left.
      * left. exists l'. split; [|assumption].
        apply in_or_app. right. now right.
    + intros [(l' & Hin & Hi) | [-> ->]].
      * apply in_app_or in Hin. destruct Hin as [Hin | [[= <- <-] | Hin]].
        -- exists l'. split; [|assumption]. apply in_or_app. now left.
        -- exists (l ++ [i]). split.
           ++ apply in_or_app. right. now left.
           ++ apply in_or_app. now left.
        -- exists l'. split; [|assumption]. apply in_or_app. right. now right.
      * exists (l ++ [i]). split.
        -- apply in_or_app. right. now left.
        -- apply in_or_app. right. now left.
  - split.
    + intros (l' & Hin & Hi). apply in_app_or in Hin.
      destruct Hin as [Hin | [[= <- <-] | []]].
      * left. eauto.
      * destruct Hi as [<- | []]. now right.
    + intros [(l' & Hin & Hi) | [-> ->]].
      * exists l'. split; [|assumption]. apply in_or_app. now left.
      * exists [i]. split; [|now left]. apply in_or_app. right. now left.
Qed.

Lemma registers_active regs S S' info t :
  registers regs S S' ->
  (active_at S' info t <-> active_at S info t \/ In (info, t) regs).
Proof.
  induction 1 as [|i t0 rest S S1 S2 Hreg Hrest IH]; simpl; [tauto|].
  rewrite IH, (registered_active _ _ _ _ info t Hreg). split.
  - intros [[H | [-> ->]] | H]; auto.
  - intros [H | [[= -> ->] | H]]; auto.
Qed.

Lemma active_at_perm S S' info t :
  Permutation S S' -> active_at S info t -> active_at S' info t.
Proof.
  intros Hp (l & Hin & Hi). exists l. split; [|assumption].
  eapply Permutation_in; eassumption.
Qed.

(** X1: in the plan of the by-time planner a work item is in the active
    list of the time step at [t] exactly when it is a work item of the scan or
    an automesh item and [t] is one of its own times; [times] and [infos] run
    parallel. *)
Theorem by_time_active_iff_own_time :
  forall (b : Bundle) (compute : string) (protomesh pbmesh : bool)
         (provided_times : option (list Qc)) (allow_oversample : bool),
    match _extract_from_bundle_by_time b compute protomesh pbmesh
                                       provided_times allow_oversample with
    | inr (times, infos, _) =>
        List.length times = List.length infos
        /\ forall info t,
            active_at (combine times infos) info t <->
            In info (stepped_items b compute protomesh pbmesh provided_times
                                   allow_oversample)
            /\ In (Some t) (Info.times info)
    | inl _ => False
    end.
Proof.
  intros b compute protomesh pbmesh provided allow.
  destruct (by_time_steps b compute protomesh pbmesh provided allow)
    as (grid & infos & S & -> & Hlen & Hreg & Hperm & _ & _).
  split; [assumption|]. intros info t.
  rewrite <- regs_of_In. unfold stepped_items.
  pose proof (registers_active _ _ _ info t Hreg) as H.
  split.
  - intros Ha. apply (active_at_perm _ _ _ _ Hperm) in Ha.
    apply H in Ha. destruct Ha as [(l & [] & _) | Ha]. exact Ha.
  - intros Hin. apply (active_at_perm S); [now symmetry|].
    apply H. now right.
Qed.

Lemma list_sum_perm (l l' : list nat) :
  Permutation l l' -> list_sum l = list_sum l'.
Proof. induction 1; simpl; lia. Qed.

Lemma entries_app P S1 S2 : entries P (S1 ++ S2) = entries P S1 + entries P S2.
Proof. unfold entries. now rewrite map_app, list_sum_app. Qed.

Lemma entries_cons P s S :
  entries P (s :: S) = List.length (filter P (snd s)) + entries P S.
Proof. reflexivity. Qed.

Lemma registered_entries P i t S S' :
  registered i t S S' ->
  entries P S' = entries P S + (if P i then 1 else 0).
Proof.
  intros [pre l post | S0].
  - rewrite !entries_app, !entries_cons. cbn [snd].
    rewrite filter_app, length_app. simpl. destruct (P i); simpl; lia.
  - rewrite entries_app, entries_cons. cbn [snd]. unfold entries at 2. simpl.
    destruct (P i); simpl; lia.
Qed.

Lemma registers_entries P regs S S' :
  registers regs S S' ->
  entries P S'
  = entries P S + List.length (filter (fun r => P (fst r)) regs).
Proof.
  induction 1 as [|i t rest S S1 S2 Hreg Hrest IH]; simpl; [lia|].
  rewrite IH, (registered_entries P _ _ _ _ Hreg).
  destruct (P i); simpl; lia.
Qed.

Lemma regs_of_count P (items : list Info.t) :
  List.length (filter (fun r => P (fst r)) (regs_of items))
  = list_sum (map (fun info => List.length (somes (Info.times info)))
                  (filter P items)).
Proof.
  unfold regs_of. induction items as [|info items IH]; simpl; [reflexivity|].
  rewrite filter_app, length_app, IH.
  assert (E : forall l : list Qc,
             List.length (filter (fun r : Info.t * Qc => P (fst r))
                                 (map (pair info) l))
             = if P info then List.length l else 0).
  { induction l as [|x l IHl]; simpl; [now destruct (P info)|].
    destruct (P info); simpl; [now rewrite IHl | assumption]. }
  rewrite E. destruct (P info); simpl; lia.
Qed.

Lemma somes_all_some_length (l : list (option Qc)) :
  (forall ot, In ot l -> exists t, ot = Some t) ->
  List.length (somes l) = List.length l.
Proof.
  unfold somes. induction l as [|ot l IH]; intros H; simpl; [reflexivity|].
  destruct (H ot (or_introl eq_refl)) as (t & ->). simpl.
  f_equal. apply IH. intros o Ho. apply H. now right.
Qed.

Lemma entries_combine P (times : list Qc) (infos : list (list Info.t)) :
  List.length times = List.length infos ->
  entries P (combine times infos)
  = list_sum (map (fun l => List.length (filter P l)) infos).
Proof.
  revert infos. induction times as [|t times IH]; intros [|l infos] H;
    simpl in *; try discriminate; [reflexivity|].
  unfold entries in *. simpl. f_equal. apply IH. lia.
Qed.

(** X2: every time of every work item is registered exactly once: for any
    test [P] on work items, the number of entries of the active lists that
    pass [P] is the total length of the time arrays of the work items (of the
    scan, and automesh items) that pass [P]. *)
Theorem by_time_entries_count :
  forall (b : Bundle) (compute : string) (protomesh pbmesh : bool)
         (provided_times : option (list Qc)) (allow_oversample : bool)
         (P : Info.t -> bool),
    match _extract_from_bundle_by_time b compute protomesh pbmesh
                                       provided_times allow_oversample with
    | inr (_, infos, _) =>
        list_sum (map (fun l => List.length (filter P l)) infos)
        = list_sum (map (fun info => List.length (Info.times info))
                        (filter P (stepped_items b compute protomesh pbmesh
                                                 provided_times
                                                 allow_oversample)))
    | inl _ => False
    end.
Proof.
  intros b compute protomesh pbmesh provided allow P.
  destruct (by_time_steps b compute protomesh pbmesh provided allow)
    as (grid & infos & S & -> & Hlen & Hreg & Hperm & _ & Hsome).
  rewrite <- (entries_combine P grid infos Hlen).
  unfold entries at 1.
  rewrite (list_sum_perm _ _ (Permutation_map _ Hperm)).
  fold (entries P S). rewrite (registers_entries P _ _ _ Hreg).
  unfold entries at 1. simpl. rewrite regs_of_count. unfold stepped_items.
  f_equal. apply map_ext_in. intros info Hin. apply filter_In in Hin.
  apply somes_all_some_length. intros ot Hot.
  eapply Hsome; [apply Hin | exact Hot].
Qed.

(** ** The by-dataset planner *)

Lemma automesh_loop_unregistered this_times components :
  forall needed_syns infos,
    automesh_loop this_times None components needed_syns infos
    = inr (needed_syns ++ map (automesh_info this_times) components, infos).
Proof.
  induction components as [|c rest IH]; intros needed_syns infos; simpl.
  - now rewrite app_nil_r.
  - now rewrite IH, <- app_assoc.
Qed.

Lemma scan_by_dataset_groups b compute provided :
  let st := scan_by_dataset b compute provided in
  p_times st = []
  /\ p_infos st = map (fun info => [info]) (p_needed_syns st).
Proof.
  unfold scan_by_dataset.
  apply (fold_left_invariant
           (fun st => p_times st = []
                      /\ p_infos st = map (fun info => [info])
                                          (p_needed_syns st)));
    [|split; reflexivity].
  intros st dataset Hst. unfold extract_dataset_by_dataset.
  destruct (dataset_is_planned b compute dataset); [|assumption].
  apply fold_left_invariant; [|assumption].
  clear st Hst. intros st component Hst. unfold extract_component_by_dataset.
  destruct (is_none component && _); [assumption|].
  destruct (obs_times b dataset component _) as [this_times|]; [|assumption].
  destruct (nonempty _); [|assumption].
  apply fold_left_invariant; [|assumption].
  clear st Hst. intros st info [Ht Hi]. unfold add_item_by_dataset. simpl.
  split; [assumption|]. now rewrite Hi, map_app.
Qed.

(** X3: the by-dataset planner never raises, and it returns one singleton
    group per work item of its scan, in the order of the scan; the protomesh
    and automesh items get containers and no group. *)
Theorem by_dataset_singleton_groups :
  forall (b : Bundle) (compute : string) (protomesh pbmesh : bool)
         (provided_times : option (list Qc)),
    let needed_syns := p_needed_syns (scan_by_dataset b compute provided_times) in
    let needed1 := needed_syns ++ protomesh_items b compute protomesh in
    _extract_from_bundle_by_dataset b compute protomesh pbmesh provided_times
    = inr (map (fun info => [info]) needed_syns,
           _create_syns b (needed1 ++ automesh_items b compute pbmesh needed1)).
Proof.
  intros b compute protomesh pbmesh provided needed_syns needed1.
  unfold _extract_from_bundle_by_dataset.
  destruct (scan_by_dataset_groups b compute provided) as [_ Hi].
  rewrite handle_protomesh_items, Hi. fold needed_syns. fold needed1.
  unfold automesh_items, _handle_automesh.
  destruct pbmesh; cbn [andb]; [|now rewrite app_nil_r].
  destruct (str_in (compute_kind b compute) _backends_that_support_automesh);
    [|now rewrite app_nil_r].
  now rewrite automesh_loop_unregistered.
Qed.

(** ** The mesh flag of the work items *)

Lemma str_eqb_neq (x y : string) : (x =? y) = false <-> x <> y.
Proof.
  split.
  - intros H ->. now rewrite String.eqb_refl in H.
  - intros H. destruct (x =? y) eqn:E; [|reflexivity].
    apply String.eqb_eq in E. contradiction.
Qed.

(** X4: [_needs_mesh] answers true exactly when the engine uses numerical
    meshes and the kind is mesh, or lc without the analytical shortcut of the
    engine phoebe, or rv with an engine other than legacy and a method other
    than dynamical. *)
Theorem needs_mesh_true_iff :
  forall (b : Bundle) (dataset kind : string) (component : option string)
         (compute : string),
    _needs_mesh b dataset kind component compute = true <->
    In (compute_kind b compute) _backends_that_require_meshing
    /\ (kind = "mesh"
        \/ (kind = "lc"
            /\ ((compute_kind b compute =? "phoebe")
                && (lc_method b compute dataset =? "analytical")) = false)
        \/ (kind = "rv"
            /\ (compute_kind b compute =? "legacy") = false
            /\ (rv_method b compute component dataset =? "dynamical") = false)).
Proof.
  intros b dataset kind component compute. unfold _needs_mesh.
  rewrite <- str_in_In.
  destruct (str_in (compute_kind b compute) _backends_that_require_meshing);
    cbn [negb]; [|split; [discriminate | intros [H _]; discriminate H]].
  unfold str_in at 1. cbn [existsb].
  destruct (kind =? "mesh") eqn:Em.
  { apply String.eqb_eq in Em. subst kind. simpl. split; auto. }
  destruct (kind =? "lc") eqn:El.
  { apply String.eqb_eq in El. subst kind. cbn [orb negb andb].
    change ("lc" =? "rv") with false. cbn [andb].
    destruct ((compute_kind b compute =? "phoebe")
              && (lc_method b compute dataset =? "analytical")) eqn:E.
    - split; [discriminate|].
      intros [_ [H | [[_ H] | [H _]]]]; discriminate H.
    - split; [intros _; split; [reflexivity | right; left; auto] | reflexivity]. }
  destruct (kind =? "rv") eqn:Er.
  { apply String.eqb_eq in Er. subst kind. cbn [orb negb andb].
    destruct (compute_kind b compute =? "legacy") eqn:E1; cbn [orb].
    - split; [discriminate|].
      intros [_ [H | [[H _] | [_ [H _]]]]]; discriminate H.
    - destruct (rv_method b compute component dataset =? "dynamical") eqn:E2.
      + split; [discriminate|].
        intros [_ [H | [[H _] | [_ [_ H]]]]]; discriminate H.
      + split; [intros _; split; [reflexivity | right; right; auto]
               | reflexivity]. }
  cbn [orb negb]. split; [discriminate|].
  apply str_eqb_neq in Em, El, Er.
  intros [_ [H | [[H _] | [H _]]]]; contradiction.
Qed.

Lemma scan_by_time_flags b compute provided allow :
  Forall (flag_consistent b compute)
         (p_needed_syns (scan_by_time b compute provided allow)).
Proof.
  unfold scan_by_time.
  apply (fold_left_invariant
           (fun st => Forall (flag_consistent b compute) (p_needed_syns st)));
    [|constructor].
  intros st dataset Hst. unfold extract_dataset_by_time.
  destruct (dataset_is_planned b compute dataset); [|assumption].
  apply fold_left_invariant; [|assumption].
  clear st Hst. intros st component Hst. unfold extract_component_by_time.
  destruct (is_none component && _); [assumption|].
  destruct (obs_times b dataset component _) as [this_times|]; [|assumption].
  destruct (nonempty _); [|assumption].
  set (ts := resolve_times b compute provided allow dataset
                           (obs_kind b dataset component) this_times).
  assert (Hitems : Forall (flag_consistent b compute)
                     (map (mk_info b compute dataset
                                   (obs_kind b dataset component) ts)
                          (item_components b component
                                           (obs_kind b dataset component)))).
  { apply Forall_forall. intros info Hin. apply in_map_iff in Hin.
    destruct Hin as (c & <- & _). reflexivity. }
  revert Hitems st Hst.
  generalize (map (mk_info b compute dataset (obs_kind b dataset component) ts)
                  (item_components b component (obs_kind b dataset component))).
  intros items Hitems.
  induction Hitems as [|info items Hinfo _ IH]; intros st Hst; simpl;
    [assumption|].
  apply IH. unfold add_item_by_time.
  destruct (fold_left (add_time info) ts (p_times st, p_infos st)). simpl.
  apply Forall_app. split; [assumption | now constructor].
Qed.

Lemma automesh_items_flags b compute pbmesh needed_syns :
  Forall (flag_consistent b compute)
         (automesh_items b compute pbmesh needed_syns).
Proof.
  unfold automesh_items.
  destruct pbmesh; cbn [andb]; [|constructor].
  destruct (str_in (compute_kind b compute) _backends_that_support_automesh)
    eqn:E; [|constructor].
  apply Forall_forall. intros info Hin. apply in_map_iff in Hin.
  destruct Hin as (c & <- & _). unfold flag_consistent, _needs_mesh.
  cbn [automesh_info Info.needs_mesh Info.dataset Info.kind Info.component].
  change _backends_that_require_meshing with _backends_that_support_automesh.
  cbv zeta. rewrite E. reflexivity.
Qed.

Lemma stepped_items_flags b compute protomesh pbmesh provided allow :
  Forall (flag_consistent b compute)
         (stepped_items b compute protomesh pbmesh provided allow).
Proof.
  unfold stepped_items. apply Forall_app. split.
  - apply scan_by_time_flags.
  - apply automesh_items_flags.
Qed.

Lemma in_combine_r_exists {A B : Type} (l1 : list A) (l2 : list B) (y : B) :
  List.length l1 = List.length l2 -> In y l2 ->
  exists x, In (x, y) (combine l1 l2).
Proof.
  revert l2. induction l1 as [|a l1 IH]; intros [|b l2] Hlen Hin;
    simpl in *; try discriminate; [destruct Hin|].
  destruct Hin as [-> | Hin]; [eauto|].
  destruct (IH l2) as [x Hx]; [lia | assumption | eauto].
Qed.

Lemma needs_mesh_true_kind b dataset kind component compute :
  _needs_mesh b dataset kind component compute = true ->
  In (compute_kind b compute) _backends_that_require_meshing
  /\ In kind ["mesh"; "lc"; "rv"].
Proof.
  unfold _needs_mesh. rewrite <- !str_in_In.
  destruct (str_in (compute_kind b compute) _backends_that_require_meshing);
    cbn [negb]; [|discriminate].
  destruct (str_in kind ["mesh"; "lc"; "rv"]); cbn [negb]; [auto | discriminate].
Qed.

(** Every item of every time step of the by-time plan is a work item of the
    scan or an automesh item. *)
Lemma by_time_items_stepped b compute protomesh pbmesh provided allow :
  match _extract_from_bundle_by_time b compute protomesh pbmesh provided allow
  with
  | inr (_, infos, _) =>
      forall infolist info,
        In infolist infos -> In info infolist ->
        In info (stepped_items b compute protomesh pbmesh provided allow)
  | inl _ => False
  end.
Proof.
  destruct (by_time_steps b compute protomesh pbmesh provided allow)
    as (grid & infos & S & -> & Hlen & Hreg & Hperm & _ & _).
  intros infolist info Hl Hi.
  destruct (in_combine_r_exists grid infos infolist Hlen Hl) as [t Ht].
  assert (Ha : active_at S info t).
  { apply (active_at_perm _ _ _ _ Hperm). now exists infolist. }
  apply (registers_active _ _ _ info t Hreg) in Ha.
  destruct Ha as [(l & [] & _) | Ha]. apply regs_of_In in Ha. apply Ha.
Qed.

(** X5: in the plan of the by-time planner the mesh flag of every item of
    every time step is the answer of [_needs_mesh] for the item's own dataset,
    kind and component (the automesh items included); so an item flagged as
    needing a mesh has kind mesh, lc or rv and the engine uses numerical
    meshes. *)
Theorem by_time_flags_consistent :
  forall (b : Bundle) (compute : string) (protomesh pbmesh : bool)
         (provided_times : option (list Qc)) (allow_oversample : bool),
    match _extract_from_bundle_by_time b compute protomesh pbmesh
                                       provided_times allow_oversample with
    | inr (_, infos, _) =>
        forall infolist info,
          In infolist infos -> In info infolist ->
          flag_consistent b compute info
          /\ (Info.needs_mesh info = true ->
              In (compute_kind b compute) _backends_that_require_meshing
              /\ In (Info.kind info) ["mesh"; "lc"; "rv"])
    | inl _ => False
    end.
Proof.
  intros b compute protomesh pbmesh provided allow.
  pose proof (by_time_items_stepped b compute protomesh pbmesh provided allow)
    as H.
  destruct (_extract_from_bundle_by_time b compute protomesh pbmesh provided
                                         allow) as [e | [[times infos] syns]];
    [assumption|].
  intros infolist info Hl Hi. specialize (H infolist info Hl Hi).
  pose proof (stepped_items_flags b compute protomesh pbmesh provided allow)
    as Hf.
  rewrite Forall_forall in Hf. specialize (Hf info H).
  split; [assumption|]. intros Hn. rewrite Hf in Hn.
  now apply needs_mesh_true_kind in Hn.
Qed.

(** ** The time array of the automesh items *)

Lemma otime_eqb_eq (x y : option Qc) : otime_eqb x y = true <-> x = y.
Proof.
  destruct x as [a|], y as [c|]; simpl; try (split; congruence).
  rewrite Qc_eqb_eq. split; congruence.
Qed.

Lemma existsb_otime_eqb (x : option Qc) (l : list (option Qc)) :
  existsb (otime_eqb x) l = true <-> In x l.
Proof.
  rewrite existsb_exists. split.
  - intros (y & Hy & E). apply otime_eqb_eq in E. now subst.
  - intros H. exists x. split; [assumption | now apply otime_eqb_eq].
Qed.

Lemma nub_otimes_In_iff x l : In x (nub_otimes l) <-> In x l.
Proof.
  revert x. induction l as [|y l IH]; intros x; simpl; [tauto|].
  destruct (existsb (otime_eqb y) (nub_otimes l)) eqn:E; simpl.
  - apply existsb_otime_eqb in E. rewrite IH in *. split; [tauto|].
    intros [<- | H]; assumption.
  - rewrite IH. tauto.
Qed.

Lemma nub_otimes_NoDup l : NoDup (nub_otimes l).
Proof.
  induction l as [|y l IH]; simpl; [constructor|].
  destruct (existsb (otime_eqb y) (nub_otimes l)) eqn:E; [assumption|].
  constructor; [|assumption].
  intros H. apply existsb_otime_eqb in H. congruence.
Qed.

Lemma insert_otime_perm x l : Permutation (insert_otime x l) (x :: l).
Proof.
  induction l as [|y l IH]; simpl; [reflexivity|].
  destruct (otime_leb x y); [reflexivity|].
  rewrite IH. apply perm_swap.
Qed.

Lemma sort_otimes_perm l : Permutation (sort_otimes l) l.
Proof.
  induction l as [|x l IH]; simpl; [reflexivity|].
  rewrite insert_otime_perm. now constructor.
Qed.

Lemma otime_leb_total x y : otime_leb x y = false -> otime_leb y x = true.
Proof.
  destruct x as [a|], y as [c|]; simpl; try congruence.
  intros H. apply Qc_leb_le. now apply Qc_leb_gt.
Qed.

Lemma otime_leb_trans x y z :
  otime_leb x y = true -> otime_leb y z = true -> otime_leb x z = true.
Proof.
  destruct x as [a|], y as [c|], z as [d|]; simpl; try congruence.
  rewrite !Qc_leb_le. apply Qcle_trans.
Qed.

Lemma otime_leb_antisym x y :
  otime_leb x y = true -> otime_leb y x = true -> x = y.
Proof.
  destruct x as [a|], y as [c|]; simpl; try congruence.
  rewrite !Qc_leb_le. intros H1 H2. f_equal. now apply Qcle_antisym.
Qed.

Lemma insert_otime_sorted x l :
  StronglySorted (fun a c => otime_leb a c = true) l ->
  StronglySorted (fun a c => otime_leb a c = true) (insert_otime x l).
Proof.
  induction 1 as [|y l Hs IH Hall]; simpl.
  - repeat constructor.
  - destruct (otime_leb x y) eqn:E.
    + constructor; [now constructor|].
      constructor; [exact E|].
      eapply Forall_impl; [|exact Hall].
      intros z Hz. eapply otime_leb_trans; eassumption.
    + apply otime_leb_total in E. constructor; [exact IH|].
      eapply Permutation_Forall; [symmetry; apply insert_otime_perm|].
      now constructor.
Qed.

Lemma sort_otimes_sorted l :
  StronglySorted (fun a c => otime_leb a c = true) (sort_otimes l).
Proof.
  induction l as [|x l IH]; simpl; [constructor | now apply insert_otime_sorted].
Qed.

Lemma otimes_sorted_strict (l : list (option Qc)) :
  StronglySorted (fun a c => otime_leb a c = true) l -> NoDup l ->
  StronglySorted (fun a c => otime_ltb a c = true) l.
Proof.
  induction 1 as [|x l Hs IH Hall]; intros Hnd; constructor.
  - apply IH. now inversion Hnd.
  - inversion Hnd as [|? ? Hx _]; subst.
    rewrite Forall_forall in *. intros y Hy. unfold otime_ltb.
    rewrite (Hall y Hy). simpl.
    destruct (otime_eqb x y) eqn:E; [|reflexivity].
    apply otime_eqb_eq in E. subst. contradiction.
Qed.

(** X6: the time array of the automesh items is strictly ascending (so
    without duplicates), and its entries are exactly the times of the items
    kept by the dict of line 302. *)
Theorem automesh_times_sorted_set :
  forall needed_syns : list Info.t,
    StronglySorted (fun a c => otime_ltb a c = true)
                   (automesh_times needed_syns)
    /\ forall ot,
        In ot (automesh_times needed_syns) <->
        exists info, In info (needs_mesh_infos needed_syns)
                     /\ In ot (Info.times info).
Proof.
  intros needed_syns. unfold automesh_times. split.
  - apply otimes_sorted_strict; [apply sort_otimes_sorted|].
    eapply Permutation_NoDup; [symmetry; apply sort_otimes_perm|].
    apply nub_otimes_NoDup.
  - intros ot. rewrite sort_otimes_In, nub_otimes_In_iff, in_flat_map.
    reflexivity.
Qed.

Lemma dict_set_In {V : Type} (k k' : string) (v x : V) (d : list (string * V)) :
  NoDup (map fst d) ->
  In (k', x) (dict_set k v d) <->
  (k' = k /\ x = v) \/ (k' <> k /\ In (k', x) d).
Proof.
  induction d as [|[k0 v0] d IH]; simpl; intros Hnd.
  - split.
    + intros [[= <- <-] | []]. auto.
    + intros [[-> ->] | [_ []]]. auto.
  - inversion Hnd as [|? ? Hnin Hnd']; subst.
    destruct (k =? k0) eqn:E.
    + apply String.eqb_eq in E. subst k0. simpl. split.
      * intros [[= <- <-] | H]; [auto|].
        right. split; [|auto]. intros ->. apply Hnin.
        apply in_map_iff. now exists (k, x).
      * intros [[-> ->] | [Hne [[= <- <-] | H]]]; auto. congruence.
    + apply str_eqb_neq in E. simpl. rewrite (IH Hnd'). split.
      * intros [[= <- <-] | [[-> ->] | [Hne H]]]; auto.
      * intros [[-> ->] | [Hne [[= <- <-] | H]]]; auto.
Qed.

Lemma fold_dict_set_NoDup {A V : Type} (key : A -> string) (val : A -> V)
      (l : list A) :
  forall d, NoDup (map fst d) ->
            NoDup (map fst (fold_left (fun d a => dict_set (key a) (val a) d)
                                      l d)).
Proof.
  induction l as [|a l IH]; intros d H; simpl; [assumption|].
  apply IH. now apply dict_set_NoDup.
Qed.

(** The dict comprehension of line 302 keeps, under each key, the last item
    with that key. *)
Lemma fold_dict_set_last (l : list Info.t) (k : string) (x : Info.t) :
  In (k, x) (fold_left (fun d a => dict_set (Info.dataset a) a d) l []) <->
  k = Info.dataset x
  /\ exists pre post,
      l = pre ++ x :: post /\ ~ In (Info.dataset x) (map Info.dataset post).
Proof.
  revert k x. induction l as [|a l IH] using rev_ind; intros k x.
  - simpl. split; [intros [] | intros (_ & pre & post & H & _)].
    now destruct pre.
  - rewrite fold_left_app. cbn [fold_left].
    rewrite dict_set_In
      by (apply fold_dict_set_NoDup with (val := fun a => a); constructor).
    rewrite IH. split.
    + intros [[-> ->] | [Hne (-> & pre & post & -> & Hnin)]].
      * split; [reflexivity|]. exists l, []. split; [reflexivity | intros []].
      * split; [reflexivity|]. exists pre, (post ++ [a]).
        split; [now rewrite <- app_assoc|].
        rewrite map_app, in_app_iff. simpl. intros [H | [H | []]]; auto.
    + intros (-> & pre & post & E & Hnin).
      destruct post as [|p post _] using rev_ind.
      * apply app_inj_tail in E. destruct E as [-> ->]. now left.
      * rewrite app_comm_cons, app_assoc in E.
        apply app_inj_tail in E. destruct E as [-> ->].
        rewrite map_app, in_app_iff in Hnin. simpl in Hnin.
        right. split; [intros H; apply Hnin; right; left; congruence|].
        split; [reflexivity|]. exists pre, post. split; [reflexivity|].
        intros H. apply Hnin. now left.
Qed.

(** X7: the items from which the automesh times are taken are, for every
    dataset, the last mesh-requiring item of that dataset that is not of kind
    mesh; the earlier items of the same dataset are dropped. *)
Theorem needs_mesh_infos_last_of_dataset :
  forall (needed_syns : list Info.t) (info : Info.t),
    In info (needs_mesh_infos needed_syns) <->
    last_of_dataset needed_syns info.
Proof.
  intros needed_syns info. unfold needs_mesh_infos, last_of_dataset, dict_values.
  rewrite in_map_iff. split.
  - intros ([k x] & <- & Hin). apply fold_dict_set_last in Hin. apply Hin.
  - intros H. exists (Info.dataset info, info). split; [reflexivity|].
    apply fold_dict_set_last. split; [reflexivity | exact H].
Qed.

(** ** StepOrchestrator: the shape of the trace *)

Section OrchestratorTrace.

Variable V : Type.
Variable sv : Services V.
Variable starrefs : list string.
Variable do_horizon : bool.

Local Abbreviation stmt := (LoopState V -> LoopState V * option py_error).

Lemma appends_ok (P : event V -> bool) : appends P (ok V).
Proof.
  intros h. exists [], None. split; [reflexivity|].
  intros tr. unfold ok. now rewrite app_nil_r.
Qed.

Lemma appends_raise (P : event V -> bool) (e : py_error) :
  appends P (raise V e).
Proof.
  intros h. exists [], (Some e). split; [reflexivity|].
  intros tr. unfold raise. now rewrite app_nil_r.
Qed.

Lemma appends_emit (P : event V -> bool) (evs : list (event V)) :
  forallb P evs = true -> appends P (fun st => ok V (emit V evs st)).
Proof.
  intros H h. exists evs, None. split; [exact H|]. reflexivity.
Qed.

Lemma appends_after_emit (P : event V -> bool) (evs : list (event V))
      (g : stmt) :
  forallb P evs = true -> appends P g ->
  appends P (fun st => g (emit V evs st)).
Proof.
  intros H Hg h. destruct (Hg h) as (evs' & e & Hf & Heq).
  exists (evs ++ evs'), e. split.
  - rewrite forallb_app, H, Hf. reflexivity.
  - intros tr. unfold emit. cbn [trace horizons]. rewrite Heq.
    now rewrite app_assoc.
Qed.

Lemma appends_seq2 (P : event V -> bool) (f g : stmt) :
  appends P f -> appends P g -> appends P (seq2 V f g).
Proof.
  intros Hf Hg h. destruct (Hf h) as (evs1 & e1 & H1 & E1).
  destruct e1 as [e1|].
  - exists evs1, (Some e1). split; [exact H1|].
    intros tr. unfold seq2. now rewrite E1.
  - destruct (Hg h) as (evs2 & e2 & H2 & E2).
    exists (evs1 ++ evs2), e2. split.
    + rewrite forallb_app, H1, H2. reflexivity.
    + intros tr. unfold seq2. rewrite E1, E2. now rewrite app_assoc.
Qed.

Lemma appends_for_each {A : Type} (P : event V -> bool)
      (body : A -> stmt) (l : list A) :
  (forall x, In x l -> appends P (body x)) ->
  appends P (for_each V body l).
Proof.
  induction l as [|x l IH]; intros H; cbn [for_each].
  - apply appends_ok.
  - apply appends_seq2; [apply H; now left|].
    apply IH. intros y Hy. apply H. now right.
Qed.

Lemma appends_weaken (P Q : event V -> bool) (f : stmt) :
  (forall ev, P ev = true -> Q ev = true) -> appends P f -> appends Q f.
Proof.
  intros HPQ Hf h. destruct (Hf h) as (evs & e & H & E).
  exists evs, e. split; [|exact E].
  rewrite forallb_forall in *. auto.
Qed.

Lemma forallb_map_const {A : Type} (P : event V -> bool) (g : A -> event V)
      (l : list A) :
  (forall x, P (g x) = true) -> forallb P (map g l) = true.
Proof.
  intros H. induction l as [|x l IH]; simpl; [reflexivity|].
  now rewrite H, IH.
Qed.

Lemma fill_horizon_appends this_syn cind :
  appends is_assign (fill_horizon V do_horizon this_syn cind).
Proof.
  intros h. unfold fill_horizon. destruct do_horizon.
  - destruct h as [[h|]|]; cbn [horizons].
    + eexists _, None. split; [|intros tr; reflexivity]. reflexivity.
    + exists [], None. split; [reflexivity|].
      intros tr. unfold ok. now rewrite app_nil_r.
    + exists [], (Some (NameError "horizons")). split; [reflexivity|].
      intros tr. unfold raise. now rewrite app_nil_r.
  - apply appends_ok.
Qed.

Lemma fill_horizon_analytic_appends this_syn info i time cind :
  appends is_assign
          (fill_horizon_analytic V sv do_horizon this_syn info i time cind).
Proof.
  unfold fill_horizon_analytic.
  destruct do_horizon; [|apply appends_ok].
  destruct (distortion_method (get_body V sv (Info.component info)) =? "roche");
    [|apply appends_ok].
  destruct (mesh_method (get_body V sv (Info.component info)) =? "marching");
    [apply appends_emit; reflexivity|].
  destruct (mesh_method (get_body V sv (Info.component info)) =? "wd");
    [apply appends_emit; reflexivity|].
  apply appends_raise.
Qed.

Lemma fill_indep_appends info infomesh time indep :
  appends is_assign (fill_indep V sv info infomesh time indep).
Proof.
  unfold fill_indep.
  destruct (set_value_error V sv indep time (Info.dataset infomesh)
                            (Info.component info)).
  - apply appends_raise.
  - apply appends_emit. reflexivity.
Qed.

Lemma fill_dependent_appends info time infomesh :
  appends is_assign (fill_dependent V sv info time infomesh).
Proof.
  unfold fill_dependent.
  destruct (Info.needs_mesh infomesh && negb (Info.kind infomesh =? "mesh"));
    [|apply appends_ok].
  destruct (set_value_error V sv "pblum" time (Info.dataset infomesh)
                            (Info.component info));
    [apply appends_raise|].
  destruct (dict_get (Info.kind infomesh) indeps) as [qualifiers|].
  - apply (appends_after_emit is_assign _
             (for_each V (fill_indep V sv info infomesh time) qualifiers));
      [reflexivity|].
    apply appends_for_each. intros. apply fill_indep_appends.
  - apply (appends_after_emit is_assign _
             (raise V (KeyError (Info.kind infomesh)))); [reflexivity|].
    apply appends_raise.
Qed.

Lemma fill_mesh_info_appends infolist info i time :
  appends is_assign
          (fill_mesh_info V sv starrefs do_horizon infolist info i time).
Proof.
  unfold fill_mesh_info.
  apply (appends_after_emit is_assign _
           (seq2 V (fill_horizon V do_horizon (this_syn_of info time)
                                 (cind_of starrefs (Info.component info)))
                 (seq2 V (fill_horizon_analytic
                            V sv do_horizon (this_syn_of info time) info i time
                            (cind_of starrefs (Info.component info)))
                       (for_each V (fill_dependent V sv info time) infolist)))).
  - apply forallb_map_const. reflexivity.
  - apply appends_seq2; [apply fill_horizon_appends|].
    apply appends_seq2; [apply fill_horizon_analytic_appends|].
    apply appends_for_each. intros. apply fill_dependent_appends.
Qed.

Lemma is_assign_write (ev : event V) : is_assign ev = true -> is_write ev = true.
Proof. now destruct ev. Qed.

(** The fill of one item only writes into the synthetics and leaves the
    variable [horizons] alone. *)
Lemma fill_info_appends infolist i time info :
  appends is_write (fill_info V sv starrefs do_horizon infolist i time info).
Proof.
  unfold fill_info.
  destruct (Info.kind info =? "rv").
  { destruct (Info.needs_mesh info); apply appends_emit; reflexivity. }
  destruct (Info.kind info =? "lc"); [apply appends_emit; reflexivity|].
  destruct (Info.kind info =? "etv"); [apply appends_emit; reflexivity|].
  destruct (Info.kind info =? "ifm").
  { apply appends_emit. apply forallb_map_const. reflexivity. }
  destruct (Info.kind info =? "orb"); [apply appends_emit; reflexivity|].
  destruct (Info.kind info =? "mesh"); [|apply appends_raise].
  apply (appends_weaken is_assign); [apply is_assign_write|].
  apply fill_mesh_info_appends.
Qed.

Lemma update_mesh_trace time infolist tr h :
  update_mesh V sv do_horizon time infolist (mkLoop V tr h)
  = mkLoop V (tr ++ trace V (update_mesh V sv do_horizon time infolist
                                         (mkLoop V [] None)))
           (if existsb Info.needs_mesh infolist
            then Some (handle_eclipses V sv time
                         (str_in "mesh" (map Info.kind infolist) && do_horizon))
            else h).
Proof.
  unfold update_mesh. destruct (existsb Info.needs_mesh infolist);
    cbn [trace horizons]; [reflexivity | now rewrite app_nil_r].
Qed.

Lemma update_mesh_system time infolist :
  forallb is_system (trace V (update_mesh V sv do_horizon time infolist
                                          (mkLoop V [] None))) = true.
Proof.
  unfold update_mesh. now destruct (existsb Info.needs_mesh infolist).
Qed.

(** One time step: the mesh update first, then writes into the synthetics
    only, then the [yield] of the streaming mode unless a fill raised. *)
Lemma step_shape i time infolist h :
  exists evs e,
    forallb is_write evs = true
    /\ forall as_generator tr,
        step V sv starrefs do_horizon as_generator i time infolist
             (mkLoop V tr h)
        = (mkLoop V
             (tr ++ trace V (update_mesh V sv do_horizon time infolist
                                         (mkLoop V [] None))
                 ++ evs
                 ++ (if as_generator && is_none e
                     then [Yield V (Some time)] else []))
             (horizons V (update_mesh V sv do_horizon time infolist
                                      (mkLoop V [] h))),
           e).
Proof.
  destruct (appends_for_each is_write
              (fill_info V sv starrefs do_horizon infolist i time) infolist
              (fun x _ => fill_info_appends infolist i time x)
              (horizons V (update_mesh V sv do_horizon time infolist
                                       (mkLoop V [] h))))
    as (evs & e & Hw & E).
  exists evs, e. split; [exact Hw|].
  intros as_generator tr. unfold step, seq2.
  rewrite update_mesh_trace. rewrite (update_mesh_trace _ _ [] h).
  cbn [horizons]. rewrite update_mesh_trace in E. cbn [horizons] in E.
  rewrite E. destruct e as [e|].
  - rewrite andb_false_r, app_nil_r. now rewrite app_assoc.
  - rewrite andb_true_r. unfold ok, emit. cbn [trace horizons].
    destruct as_generator; rewrite <- !app_assoc; [reflexivity|].
    now rewrite app_nil_r.
Qed.

Lemma filter_none {A : Type} (P Q : A -> bool) (l : list A) :
  (forall x, P x = true -> Q x = false) ->
  forallb P l = true -> filter Q l = [].
Proof.
  intros H. induction l as [|x l IH]; simpl; [reflexivity|].
  intros Hl. apply andb_prop in Hl. destruct Hl as [Hx Hl].
  rewrite (H x Hx). now apply IH.
Qed.

Lemma filter_all {A : Type} (P Q : A -> bool) (l : list A) :
  (forall x, P x = true -> Q x = true) ->
  forallb P l = true -> filter Q l = l.
Proof.
  intros H. induction l as [|x l IH]; simpl; [reflexivity|].
  intros Hl. apply andb_prop in Hl. destruct Hl as [Hx Hl].
  rewrite (H x Hx). f_equal. now apply IH.
Qed.

Lemma write_not_yield (ev : event V) : is_write ev = true -> is_yield ev = false.
Proof. now destruct ev. Qed.

Lemma write_not_system (ev : event V) :
  is_write ev = true -> is_system ev = false.
Proof. now destruct ev. Qed.

Lemma system_not_yield (ev : event V) :
  is_system ev = true -> is_yield ev = false.
Proof. now destruct ev. Qed.

Lemma write_kept (ev : event V) :
  is_write ev = true -> negb (is_yield ev) = true.
Proof. now destruct ev. Qed.

Lemma system_kept (ev : event V) :
  is_system ev = true -> negb (is_yield ev) = true.
Proof. now destruct ev. Qed.

Lemma mesh_updates_from_split steps :
  forall tr h,
    mesh_updates_from sv do_horizon (mkLoop V tr h) steps
    = mkLoop V (tr ++ trace V (mesh_updates sv do_horizon steps))
             (horizons V (mesh_updates_from sv do_horizon (mkLoop V [] h)
                                            steps)).
Proof.
  unfold mesh_updates, mesh_updates_from.
  induction steps as [|[t l] steps IH]; intros tr h; cbn [fold_left fst snd].
  - cbn [trace horizons]. now rewrite app_nil_r.
  - rewrite (update_mesh_trace t l tr h), (update_mesh_trace t l [] h),
      (update_mesh_trace t l [] None).
    rewrite IH. symmetry. rewrite IH. cbn [trace horizons]. symmetry.
    rewrite (IH ([] ++ _)). cbn [trace horizons app].
    now rewrite app_assoc.
Qed.

Lemma mesh_updates_from_cons t l steps h :
  mesh_updates_from sv do_horizon (mkLoop V [] h) ((t, l) :: steps)
  = mkLoop V
      (trace V (update_mesh V sv do_horizon t l (mkLoop V [] None))
         ++ trace V (mesh_updates sv do_horizon steps))
      (horizons V
         (mesh_updates_from sv do_horizon
            (mkLoop V [] (horizons V (update_mesh V sv do_horizon t l
                                                  (mkLoop V [] h))))
            steps)).
Proof.
  unfold mesh_updates_from at 1. cbn [fold_left fst snd].
  rewrite (update_mesh_trace t l [] h). cbn [app horizons].
  exact (mesh_updates_from_split steps _ _).
Qed.

Lemma mesh_updates_cons_trace t l steps :
  trace V (mesh_updates sv do_horizon ((t, l) :: steps))
  = trace V (update_mesh V sv do_horizon t l (mkLoop V [] None))
      ++ trace V (mesh_updates sv do_horizon steps).
Proof. unfold mesh_updates at 1. now rewrite mesh_updates_from_cons. Qed.

(** The run of the loop over the time steps, from any state: [k] steps are
    completed, [n] steps are begun. *)
Lemma main_loop_from_run steps :
  forall i h, exists evs e k,
      let n := if is_none e then k else S k in
      let hfin := horizons V (mesh_updates_from sv do_horizon (mkLoop V [] h)
                                                (firstn n steps)) in
      (forall tr,
          main_loop_from V sv starrefs do_horizon true i steps (mkLoop V tr h)
          = (mkLoop V (tr ++ evs) hfin, e))
      /\ (forall tr,
             main_loop_from V sv starrefs do_horizon false i steps
                            (mkLoop V tr h)
             = (mkLoop V (tr ++ filter (fun ev => negb (is_yield ev)) evs) hfin,
                e))
      /\ filter is_yield evs = map step_yield (firstn k steps)
      /\ filter is_system evs
         = trace V (mesh_updates sv do_horizon (firstn n steps))
      /\ n <= List.length steps
      /\ (e = None <-> k = List.length steps).
Proof.
  induction steps as [|[t l] steps IH]; intros i h.
  - exists [], None, O. cbn -[mesh_updates_from mesh_updates].
    repeat split; try reflexivity; intros tr; unfold ok; now rewrite app_nil_r.
  - destruct (step_shape i t l h) as (evs1 & e1 & Hw & E1).
    pose proof (update_mesh_system t l) as Hs.
    destruct e1 as [e1|].
    + exists (trace V (update_mesh V sv do_horizon t l (mkLoop V [] None))
                ++ evs1), (Some e1), O.
      cbv zeta. cbn [is_none firstn].
      rewrite mesh_updates_cons_trace, mesh_updates_from_cons.
      cbn [trace horizons mesh_updates_from mesh_updates fold_left].
      rewrite !filter_app.
      rewrite (filter_none _ _ _ system_not_yield Hs),
        (filter_none _ _ _ write_not_yield Hw),
        (filter_none _ _ _ write_not_system Hw),
        (filter_all _ _ _ (fun ev H => H) Hs),
        (filter_all _ _ _ system_kept Hs),
        (filter_all _ _ _ write_kept Hw), !app_nil_r.
      repeat split; try (intros tr; cbn [main_loop_from]; unfold seq2;
                         rewrite E1; cbn [andb app is_none];
                         now rewrite app_nil_r);
        try reflexivity; try discriminate; cbn [List.length]; lia.
    + destruct (IH (S i) (horizons V (update_mesh V sv do_horizon t l
                                               (mkLoop V [] h))))
        as (evs & e & k & Ht & Hf & Hy & Hsys & Hn & He).
      exists (trace V (update_mesh V sv do_horizon t l (mkLoop V [] None))
                ++ evs1 ++ [Yield V (Some t)] ++ evs), e, (S k).
      cbv zeta in *.
      replace (if is_none e then S k else S (S k))
        with (S (if is_none e then k else S k)) by now destruct e.
      cbn [firstn]. rewrite mesh_updates_cons_trace, mesh_updates_from_cons.
      cbn [trace horizons].
      rewrite !filter_app.
      rewrite (filter_none _ _ _ system_not_yield Hs),
        (filter_none _ _ _ write_not_yield Hw),
        (filter_none _ _ _ write_not_system Hw),
        (filter_all _ _ _ (fun ev H => H) Hs),
        (filter_all _ _ _ system_kept Hs),
        (filter_all _ _ _ write_kept Hw), Hy, Hsys.
      cbn [filter is_yield is_system negb app map step_yield fst List.length].
      split; [|split; [|split; [|split; [|split]]]].
      * intros tr. cbn [main_loop_from]. unfold seq2. rewrite E1.
        cbn [andb is_none]. rewrite Ht. now rewrite <- !app_assoc.
      * intros tr. cbn [main_loop_from]. unfold seq2. rewrite E1.
        cbn [andb is_none]. rewrite Hf. now rewrite <- !app_assoc.
      * reflexivity.
      * reflexivity.
      * lia.
      * rewrite He. lia.
Qed.

Lemma filter_filter_sub {A : Type} (P Q : A -> bool) (l : list A) :
  (forall x, P x = true -> Q x = true) ->
  filter P (filter Q l) = filter P l.
Proof.
  intros H. induction l as [|x l IH]; simpl; [reflexivity|].
  destruct (Q x) eqn:EQ; simpl.
  - now rewrite IH.
  - destruct (P x) eqn:EP; [|exact IH]. rewrite (H x EP) in EQ. discriminate.
Qed.

Lemma filter_filter_none {A : Type} (P Q : A -> bool) (l : list A) :
  (forall x, Q x = true -> P x = false) ->
  filter P (filter Q l) = [].
Proof.
  intros H. induction l as [|x l IH]; simpl; [reflexivity|].
  destruct (Q x) eqn:EQ; simpl; [|exact IH].
  now rewrite (H x EQ).
Qed.

(** The run of the main loop in both modes, from the same [evs], [e]. *)
Lemma main_loop_run times infos :
  exists evs e k,
    let steps := combine times infos in
    let n := if is_none e then k else S k in
    let hfin := horizons V (mesh_updates sv do_horizon (firstn n steps)) in
    main_loop V sv starrefs do_horizon true times infos
    = (mkLoop V evs hfin, e)
    /\ main_loop V sv starrefs do_horizon false times infos
       = (mkLoop V (filter (fun ev => negb (is_yield ev)) evs
                      ++ (if is_none e then [Yield V None] else []))
                 hfin, e)
    /\ filter is_yield evs = map step_yield (firstn k steps)
    /\ filter is_system evs
       = trace V (mesh_updates sv do_horizon (firstn n steps))
    /\ n <= List.length steps
    /\ (e = None <-> k = List.length steps).
Proof.
  destruct (main_loop_from_run (combine times infos) O None)
    as (evs & e & k & Ht & Hf & Hy & Hsys & Hn & He).
  exists evs, e, k. cbv zeta in *.
  split; [|split; [|repeat split; try assumption; apply He]].
  - unfold main_loop, seq2. rewrite Ht. now destruct e.
  - unfold main_loop, seq2. rewrite Hf. cbn [app].
    destruct e; cbn [is_none]; [now rewrite app_nil_r | reflexivity].
Qed.

(** X8: the streaming mode and the one-shot mode do the same work: the same
    outcome (success or the same exception), the same eclipse horizons left
    behind and, the [yield]s apart, the same calls on the system and the same
    writes into the synthetics, in the same order. *)
Theorem streaming_does_the_same_work :
  forall (times : list Qc) (infos : list (list Info.t)),
    snd (main_loop V sv starrefs do_horizon true times infos)
    = snd (main_loop V sv starrefs do_horizon false times infos)
    /\ horizons V (fst (main_loop V sv starrefs do_horizon true times infos))
       = horizons V (fst (main_loop V sv starrefs do_horizon false times infos))
    /\ filter (fun ev => negb (is_yield ev))
              (trace V (fst (main_loop V sv starrefs do_horizon true
                                       times infos)))
       = filter (fun ev => negb (is_yield ev))
                (trace V (fst (main_loop V sv starrefs do_horizon false
                                         times infos))).
Proof.
  intros times infos.
  destruct (main_loop_run times infos) as (evs & e & k & -> & -> & _).
  cbn [fst snd trace horizons]. repeat split.
  rewrite filter_app, (filter_filter_sub _ _ _ (fun ev H => H)).
  destruct e; cbn [is_none filter is_yield negb]; now rewrite app_nil_r.
Qed.

(** X9: the one-shot mode yields once, after the last time step, and not at
    all when a step raised; the streaming mode yields once per completed time
    step, with the time of that step, in grid order, and it completes every
    step exactly when nothing is raised. *)
Theorem main_loop_yields :
  forall (times : list Qc) (infos : list (list Info.t)),
    filter is_yield
           (trace V (fst (main_loop V sv starrefs do_horizon false times infos)))
    = (if is_none (snd (main_loop V sv starrefs do_horizon false times infos))
       then [Yield V None] else [])
    /\ exists k,
        filter is_yield
               (trace V (fst (main_loop V sv starrefs do_horizon true
                                        times infos)))
        = map step_yield (firstn k (combine times infos))
        /\ (snd (main_loop V sv starrefs do_horizon true times infos) = None
            <-> k = List.length (combine times infos)).
Proof.
  intros times infos.
  destruct (main_loop_run times infos)
    as (evs & e & k & -> & -> & Hy & _ & _ & He).
  cbn [fst snd trace]. split.
  - rewrite filter_app, filter_filter_none.
    + now destruct e.
    + intros ev H. now destruct (is_yield ev).
  - exists k. split; assumption.
Qed.

(** X10: in either mode the calls on the system are those of the mesh
    updates of the steps that were begun, in grid order: the fills add none,
    and a step none of whose items needs a mesh makes none. The eclipse
    horizons left behind are those of the last mesh update. When nothing is
    raised every step was begun. *)
Theorem main_loop_system_calls :
  forall (as_generator : bool) (times : list Qc) (infos : list (list Info.t)),
  exists n,
    n <= List.length (combine times infos)
    /\ (snd (main_loop V sv starrefs do_horizon as_generator times infos) = None
        -> n = List.length (combine times infos))
    /\ filter is_system
              (trace V (fst (main_loop V sv starrefs do_horizon as_generator
                                       times infos)))
       = trace V (mesh_updates sv do_horizon (firstn n (combine times infos)))
    /\ horizons V (fst (main_loop V sv starrefs do_horizon as_generator
                                  times infos))
       = horizons V (mesh_updates sv do_horizon
                                  (firstn n (combine times infos))).
Proof.
  intros as_generator times infos.
  destruct (main_loop_run times infos)
    as (evs & e & k & Ht & Hf & _ & Hsys & Hn & He).
  cbv zeta in *. exists (if is_none e then k else S k).
  split; [exact Hn|].
  destruct as_generator; [rewrite Ht | rewrite Hf]; cbn [fst snd trace horizons].
  - repeat split; [|exact Hsys].
    intros ->. cbn [is_none]. now apply He.
  - repeat split.
    + intros ->. cbn [is_none]. now apply He.
    + rewrite filter_app, filter_filter_sub by apply system_kept.
      rewrite Hsys. destruct e; cbn [is_none filter is_system];
        now rewrite app_nil_r.
Qed.

End OrchestratorTrace.

(** ** StepOrchestrator: the exceptions of the loop's own bookkeeping *)

Section OrchestratorSafety.

Variable V : Type.
Variable sv : Services V.
Variable starrefs : list string.
Variable do_horizon : bool.

Local Abbreviation stmt := (LoopState V -> LoopState V * option py_error).

Lemma appends_horizons (P : event V -> bool) (f : stmt) :
  appends P f -> forall st, horizons V (fst (f st)) = horizons V st.
Proof.
  intros H [tr h]. destruct (H h) as (evs & e & _ & E). now rewrite E.
Qed.

Lemma safe_if_seq2 (c : Prop) (P : event V -> bool) (f g : stmt) :
  appends P f -> safe_if c f -> safe_if c g -> safe_if c (seq2 V f g).
Proof.
  intros Ha Hf Hg st Hst. unfold seq2.
  pose proof (Hf st Hst) as Hfs. pose proof (appends_horizons P f Ha st) as Hh.
  destruct (f st) as [st' [e|]]; [exact Hfs|].
  apply Hg. intros Hc. cbn [fst] in Hh. rewrite Hh. now apply Hst.
Qed.

Lemma safe_if_for_each {A : Type} (c : Prop) (P : event V -> bool)
      (body : A -> stmt) (l : list A) :
  (forall x, In x l -> appends P (body x)) ->
  (forall x, In x l -> safe_if c (body x)) ->
  safe_if c (for_each V body l).
Proof.
  induction l as [|x l IH]; intros Ha Hs; cbn [for_each].
  - intros st _. reflexivity.
  - apply (safe_if_seq2 c P); [apply Ha | apply Hs | apply IH]; auto;
      try (now left); intros y Hy; [apply Ha | apply Hs]; now right.
Qed.

Lemma safe_if_always (c : Prop) (f : stmt) :
  (forall st, is_bookkeeping_error (snd (f st)) = false) -> safe_if c f.
Proof. intros H st _. apply H. Qed.

Lemma fill_horizon_safe this_syn cind :
  safe_if True (fill_horizon V do_horizon this_syn cind).
Proof.
  intros st Hst. unfold fill_horizon.
  destruct do_horizon; [|reflexivity].
  destruct (horizons V st) as [[h|]|] eqn:E; try reflexivity.
  now destruct (Hst I).
Qed.

Lemma fill_horizon_analytic_safe this_syn info i time cind st :
  is_bookkeeping_error
    (snd (fill_horizon_analytic V sv do_horizon this_syn info i time cind st))
  = false.
Proof.
  unfold fill_horizon_analytic.
  destruct do_horizon; [|reflexivity].
  destruct (distortion_method (get_body V sv (Info.component info)) =? "roche");
    [|reflexivity].
  destruct (mesh_method (get_body V sv (Info.component info)) =? "marching");
    [reflexivity|].
  now destruct (mesh_method (get_body V sv (Info.component info)) =? "wd").
Qed.

Lemma fill_indep_safe info infomesh time indep st :
  is_bookkeeping_error (snd (fill_indep V sv info infomesh time indep st))
  = false.
Proof.
  unfold fill_indep.
  now destruct (set_value_error V sv indep time (Info.dataset infomesh)
                                (Info.component info)).
Qed.

(** No KeyError: the kinds flagged as needing a mesh are keys of [indeps]. *)
Lemma fill_dependent_safe info time infomesh st :
  (Info.needs_mesh infomesh = true ->
   In (Info.kind infomesh) ["mesh"; "lc"; "rv"]) ->
  is_bookkeeping_error (snd (fill_dependent V sv info time infomesh st))
  = false.
Proof.
  intros Hk. unfold fill_dependent.
  destruct (Info.needs_mesh infomesh); [|reflexivity].
  destruct (Info.kind infomesh =? "mesh") eqn:Em; [reflexivity|].
  cbn [andb negb].
  destruct (set_value_error V sv "pblum" time (Info.dataset infomesh)
                            (Info.component info)); [reflexivity|].
  apply str_eqb_neq in Em.
  assert (Hq : exists qualifiers,
             dict_get (Info.kind infomesh) indeps = Some qualifiers).
  { destruct (Hk eq_refl) as [H | [H | [H | []]]]; rewrite <- H in *;
      [congruence | |]; eexists; reflexivity. }
  destruct Hq as [qualifiers ->].
  apply (safe_if_for_each False is_assign).
  - intros. apply fill_indep_appends.
  - intros x _. apply safe_if_always. intros. apply fill_indep_safe.
  - intros [].
Qed.

Lemma safe_if_weaken (c : Prop) (f : stmt) : safe_if False f -> safe_if c f.
Proof. intros H st _. apply H. intros []. Qed.

Lemma fill_mesh_info_safe infolist info i time :
  flags_fit infolist ->
  safe_if True (fill_mesh_info V sv starrefs do_horizon infolist info i time).
Proof.
  intros Hl st Hst. unfold fill_mesh_info.
  apply (safe_if_seq2 True is_assign).
  - apply fill_horizon_appends.
  - apply fill_horizon_safe.
  - apply (safe_if_seq2 True is_assign).
    + apply fill_horizon_analytic_appends.
    + apply safe_if_always. intros. apply fill_horizon_analytic_safe.
    + apply (safe_if_for_each True is_assign).
      * intros. apply fill_dependent_appends.
      * intros x Hx. apply safe_if_always. intros.
        apply fill_dependent_safe. apply (Hl x Hx).
  - exact Hst.
Qed.

Lemma fill_info_safe infolist i time info :
  flags_fit infolist ->
  safe_if (Info.kind info = "mesh")
          (fill_info V sv starrefs do_horizon infolist i time info).
Proof.
  intros Hl st Hst. unfold fill_info.
  destruct (Info.kind info =? "rv");
    [now destruct (Info.needs_mesh info)|].
  destruct (Info.kind info =? "lc"); [reflexivity|].
  destruct (Info.kind info =? "etv"); [reflexivity|].
  destruct (Info.kind info =? "ifm"); [reflexivity|].
  destruct (Info.kind info =? "orb"); [reflexivity|].
  destruct (Info.kind info =? "mesh") eqn:Em; [|reflexivity].
  apply String.eqb_eq in Em.
  apply fill_mesh_info_safe; [exact Hl|]. intros _. now apply Hst.
Qed.

Lemma update_mesh_binds time infolist st :
  flags_fit infolist ->
  bound_if (exists info, In info infolist /\ Info.kind info = "mesh")
           (update_mesh V sv do_horizon time infolist st).
Proof.
  intros Hl (info & Hin & Hk). unfold update_mesh.
  assert (E : existsb Info.needs_mesh infolist = true).
  { apply existsb_exists. exists info. split; [exact Hin|].
    now apply (Hl info Hin). }
  rewrite E. discriminate.
Qed.

Lemma step_safe as_generator i time infolist st :
  flags_fit infolist ->
  is_bookkeeping_error
    (snd (step V sv starrefs do_horizon as_generator i time infolist st))
  = false.
Proof.
  intros Hl. unfold step.
  apply (safe_if_seq2
           (exists info, In info infolist /\ Info.kind info = "mesh") is_write).
  - apply appends_for_each. intros. apply fill_info_appends.
  - apply (safe_if_for_each _ is_write).
    + intros. apply fill_info_appends.
    + intros x Hx st' Hst'. apply fill_info_safe; [exact Hl|].
      intros Hk. apply Hst'. now exists x.
  - apply safe_if_always. reflexivity.
  - now apply update_mesh_binds.
Qed.

Lemma main_loop_from_safe as_generator steps :
  (forall time infolist, In (time, infolist) steps -> flags_fit infolist) ->
  forall i st,
    is_bookkeeping_error
      (snd (main_loop_from V sv starrefs do_horizon as_generator i steps st))
    = false.
Proof.
  induction steps as [|[t l] steps IH]; intros H i st; [reflexivity|].
  cbn [main_loop_from]. unfold seq2.
  pose proof (step_safe as_generator i t l st (H t l (or_introl eq_refl)))
    as Hs.
  destruct (step V sv starrefs do_horizon as_generator i t l st)
    as [st' [e|]]; [exact Hs|].
  apply IH. intros time infolist Hin. apply (H time infolist). now right.
Qed.

Lemma main_loop_safe as_generator times infos :
  (forall infolist, In infolist infos -> flags_fit infolist) ->
  is_bookkeeping_error
    (snd (main_loop V sv starrefs do_horizon as_generator times infos))
  = false.
Proof.
  intros H. unfold main_loop, seq2.
  pose proof (main_loop_from_safe as_generator (combine times infos)
                (fun t l Hin => H l (in_combine_r _ _ _ _ Hin))
                O (mkLoop V [] None)) as Hs.
  destruct (main_loop_from V sv starrefs do_horizon as_generator O
                           (combine times infos) (mkLoop V [] None))
    as [st' [e|]]; [exact Hs | reflexivity].
Qed.

End OrchestratorSafety.

(** X11: when the engine works on numerical meshes, the main loop over the
    plan of the by-time planner never reads the variable [horizons] before
    it is bound (no NameError for it) and never asks [indeps] for a kind it
    lacks (no KeyError): every item of kind mesh stands in a time step whose
    mesh update has bound [horizons], and every item flagged as needing a
    mesh has a kind that [indeps] knows. Other exceptions are not excluded. *)
Theorem by_time_plan_keeps_bookkeeping :
  forall (V : Type) (sv : Services V) (starrefs : list string)
         (do_horizon as_generator : bool)
         (b : Bundle) (compute : string) (protomesh pbmesh : bool)
         (provided_times : option (list Qc)) (allow_oversample : bool),
    str_in (compute_kind b compute) _backends_that_require_meshing = true ->
    match _extract_from_bundle_by_time b compute protomesh pbmesh
                                       provided_times allow_oversample with
    | inr (times, infos, _) =>
        is_bookkeeping_error
          (snd (main_loop V sv starrefs do_horizon as_generator times infos))
        = false
    | inl _ => False
    end.
Proof.
  intros V sv starrefs do_horizon as_generator b compute protomesh pbmesh
         provided allow Hengine.
  pose proof (by_time_items_stepped b compute protomesh pbmesh provided allow)
    as H.
  destruct (_extract_from_bundle_by_time b compute protomesh pbmesh provided
                                         allow) as [e | [[times infos] syns]];
    [assumption|].
  apply main_loop_safe. intros infolist Hl info Hi.
  specialize (H infolist info Hl Hi).
  pose proof (stepped_items_flags b compute protomesh pbmesh provided allow)
    as Hf.
  rewrite Forall_forall in Hf. specialize (Hf info H).
  unfold flag_consistent in Hf. split.
  - intros Hn. rewrite Hf in Hn. now apply needs_mesh_true_kind in Hn.
  - intros Hk. rewrite Hf, Hk. unfold _needs_mesh. rewrite Hengine.
    reflexivity.
Qed.

Lemma by_time_plan_keeps_bookkeeping_witness :
  match _extract_from_bundle_by_time (example_bundle "phoebe" "numerical")
                                     "run" true true None true with
  | inr (times, infos, _) =>
      is_bookkeeping_error
        (snd (main_loop nat (example_services "roche" "marching")
                        ["primary"; "secondary"] true true times infos))
      = false
  | inl _ => False
  end.
Proof.
  apply (by_time_plan_keeps_bookkeeping
           nat (example_services "roche" "marching") ["primary"; "secondary"]
           true true (example_bundle "phoebe" "numerical") "run" true true
           None true).
  reflexivity.
Defined.

(** ** StepOrchestrator: one value per time *)

Lemma opt_str_eqb_eq (x y : option string) : opt_str_eqb x y = true -> x = y.
Proof.
  destruct x, y; simpl; try discriminate; [|reflexivity].
  intros H. apply String.eqb_eq in H. now subst.
Qed.

Lemma slot_eqb_info (info : Info.t) (s : Slot) :
  slot_eqb (info_slot info) s = true -> s = info_slot info.
Proof.
  unfold slot_eqb, info_slot. destruct s as [c d k [t|]]; cbn.
  - now rewrite andb_false_r.
  - rewrite !andb_true_r. intros H.
    apply andb_prop in H. destruct H as [H Hk].
    apply andb_prop in H. destruct H as [Hc Hd].
    apply opt_str_eqb_eq in Hc. apply String.eqb_eq in Hd, Hk. now subst.
Qed.

Lemma list_sum_indicator {A : Type} (P : A -> bool) (l : list A) :
  list_sum (map (fun x => if P x then 1 else 0) l) = List.length (filter P l).
Proof.
  induction l as [|x l IH]; simpl; [reflexivity|].
  destruct (P x); simpl; lia.
Qed.

Section OrchestratorCount.

Variable V : Type.
Variable sv : Services V.
Variable starrefs : list string.
Variable do_horizon : bool.
Variable s : Slot.
Variable q : string.
Hypothesis q_appended : In q (appended_qualifiers (slot_kind s)).

Local Abbreviation stmt := (LoopState V -> LoopState V * option py_error).

Lemma appended_app (tr evs : list (event V)) :
  appended s q (tr ++ evs) = appended s q tr + appended s q evs.
Proof. unfold appended. now rewrite filter_app, length_app. Qed.

Lemma adds_seq2 (f g : stmt) n m :
  adds s q f n -> adds s q g m -> adds s q (seq2 V f g) (n + m).
Proof.
  intros Hf Hg st st'. unfold seq2.
  destruct (f st) as [st1 [e|]] eqn:E; [discriminate|].
  intros H. rewrite (Hg _ _ H), (Hf _ _ E). lia.
Qed.

Lemma adds_for_each {A : Type} (body : A -> stmt) (w : A -> nat) (l : list A) :
  (forall x, In x l -> adds s q (body x) (w x)) ->
  adds s q (for_each V body l) (list_sum (map w l)).
Proof.
  induction l as [|x l IH]; intros H; cbn [for_each map].
  - intros st st' [= <-]. simpl. lia.
  - change (list_sum (w x :: map w l)) with (w x + list_sum (map w l)).
    apply adds_seq2; [apply H; now left|].
    apply IH. intros y Hy. apply H. now right.
Qed.

Lemma adds_emit (evs : list (event V)) :
  adds s q (fun st => ok V (emit V evs st)) (appended s q evs).
Proof.
  intros st st' [= <-]. unfold emit. cbn [trace]. apply appended_app.
Qed.

(** A statement that only assigns appends nothing. *)
Lemma appends_adds (f : stmt) : appends is_assign f -> adds s q f 0.
Proof.
  intros Hf [tr h] st'. destruct (Hf h) as (evs & e & Ha & E).
  rewrite E. intros [= <- ->]. cbn [trace]. rewrite appended_app.
  f_equal. unfold appended.
  rewrite (filter_none is_assign); [reflexivity | | exact Ha].
  intros ev Hev. now destruct ev.
Qed.

Lemma adds_eq (f : stmt) n m : n = m -> adds s q f n -> adds s q f m.
Proof. now intros ->. Qed.

(** The fill of an item appends one value to each array of its kind, in its
    own container, and nothing anywhere else. *)
Lemma fill_info_adds infolist i time info :
  adds s q (fill_info V sv starrefs do_horizon infolist i time info)
       (if slot_eqb (info_slot info) s then 1 else 0).
Proof.
  unfold fill_info, this_syn_of.
  assert (Hs : slot_eqb (info_slot info) s = true ->
               In q (appended_qualifiers (Info.kind info))).
  { intros H. apply slot_eqb_info in H. rewrite H in q_appended.
    exact q_appended. }
  destruct (Info.kind info =? "rv") eqn:Erv.
  { apply String.eqb_eq in Erv. rewrite Erv in *.
    fold (info_slot info) in *. unfold info_slot in *. rewrite Erv in *.
    cbn [str_in existsb String.eqb Ascii.eqb Bool.eqb orb].
    destruct (Info.needs_mesh info);
      (eapply adds_eq; [|apply adds_emit]);
      unfold appended; cbn [filter appends_to];
      (destruct (slot_eqb _ s); [|reflexivity]);
      destruct (Hs eq_refl) as [<- | []]; reflexivity. }
  destruct (Info.kind info =? "lc") eqn:Elc.
  { apply String.eqb_eq in Elc. unfold info_slot in *. rewrite Elc in *.
    cbn [str_in existsb String.eqb Ascii.eqb Bool.eqb orb].
    eapply adds_eq; [|apply adds_emit].
    unfold appended; cbn [filter appends_to].
    destruct (slot_eqb _ s); [|reflexivity].
    destruct (Hs eq_refl) as [<- | []]; reflexivity. }
  destruct (Info.kind info =? "etv") eqn:Eetv.
  { apply String.eqb_eq in Eetv. unfold info_slot in *. rewrite Eetv in *.
    cbn [str_in existsb String.eqb Ascii.eqb Bool.eqb orb].
    eapply adds_eq; [|apply adds_emit].
    unfold appended; cbn [filter appends_to].
    destruct (slot_eqb _ s); [|reflexivity].
    destruct (Hs eq_refl) as [<- | [<- | [<- | [<- | []]]]]; reflexivity. }
  destruct (Info.kind info =? "ifm") eqn:Eifm.
  { apply String.eqb_eq in Eifm. unfold info_slot in *. rewrite Eifm in *.
    destruct (slot_eqb _ s); [destruct (Hs eq_refl)|].
    apply appends_adds. apply appends_emit. apply forallb_map_const.
    reflexivity. }
  destruct (Info.kind info =? "orb") eqn:Eorb.
  { apply String.eqb_eq in Eorb. unfold info_slot in *. rewrite Eorb in *.
    cbn [str_in existsb String.eqb Ascii.eqb Bool.eqb orb].
    eapply adds_eq; [|apply adds_emit].
    unfold appended; cbn [filter appends_to map].
    destruct (slot_eqb _ s); [|reflexivity].
    destruct (Hs eq_refl) as [<- | [<- | [<- | [<- | [<- | [<- | []]]]]]];
      reflexivity. }
  destruct (Info.kind info =? "mesh") eqn:Em.
  { apply String.eqb_eq in Em. unfold info_slot in *. rewrite Em in *.
    destruct (slot_eqb _ s); [destruct (Hs eq_refl)|].
    apply appends_adds. apply fill_mesh_info_appends. }
  intros st st' [=].
Qed.

Lemma update_mesh_appended time infolist st :
  appended s q (trace V (update_mesh V sv do_horizon time infolist st))
  = appended s q (trace V st).
Proof.
  unfold update_mesh. destruct (existsb Info.needs_mesh infolist);
    [|reflexivity].
  cbn [trace]. rewrite appended_app. unfold appended at 2. cbn. lia.
Qed.

Lemma step_adds as_generator i time infolist :
  adds s q (step V sv starrefs do_horizon as_generator i time infolist)
       (List.length (filter (fun info => slot_eqb (info_slot info) s) infolist)).
Proof.
  intros st st' H. unfold step in H.
  rewrite <- (update_mesh_appended time infolist st).
  revert st' H. generalize (update_mesh V sv do_horizon time infolist st).
  intros l st'. revert l st'.
  change (adds s q
            (seq2 V (for_each V (fill_info V sv starrefs do_horizon infolist
                                           i time) infolist)
                  (fun st => ok V (if as_generator
                                   then emit V [Yield V (Some time)] st
                                   else st)))
            (List.length (filter (fun info => slot_eqb (info_slot info) s)
                                 infolist))).
  eapply adds_eq; [|apply adds_seq2].
  - rewrite <- list_sum_indicator. apply Nat.add_0_r.
  - apply adds_for_each. intros. apply fill_info_adds.
  - intros st1 st2 [= <-]. destruct as_generator; [|lia].
    unfold emit. cbn [trace]. rewrite appended_app. unfold appended at 2.
    cbn. lia.
Qed.

Lemma main_loop_from_adds as_generator steps :
  forall i,
    adds s q (main_loop_from V sv starrefs do_horizon as_generator i steps)
         (entries (fun info => slot_eqb (info_slot info) s) steps).
Proof.
  induction steps as [|[t l] steps IH]; intros i; cbn [main_loop_from].
  - intros st st' [= <-]. unfold entries. simpl. lia.
  - rewrite entries_cons. apply adds_seq2; [apply step_adds | apply IH].
Qed.

Lemma main_loop_adds as_generator times infos st' :
  main_loop V sv starrefs do_horizon as_generator times infos = (st', None) ->
  appended s q (trace V st')
  = entries (fun info => slot_eqb (info_slot info) s) (combine times infos).
Proof.
  unfold main_loop. intros H.
  assert (Ha : adds s q
                 (seq2 V (main_loop_from V sv starrefs do_horizon as_generator
                                         O (combine times infos))
                       (fun st => ok V (if as_generator then st
                                        else emit V [Yield V None] st)))
                 (entries (fun info => slot_eqb (info_slot info) s)
                          (combine times infos) + 0)).
  { apply adds_seq2; [apply main_loop_from_adds|].
    intros st1 st2 [= <-]. destruct as_generator; [lia|].
    unfold emit. cbn [trace]. rewrite appended_app. unfold appended at 2.
    cbn. lia. }
  rewrite (Ha _ _ H). unfold appended. cbn. lia.
Qed.

End OrchestratorCount.

Lemma filter_map_comm {A B : Type} (Q : B -> bool) (f : A -> B) (l : list A) :
  filter Q (map f l) = map f (filter (fun x => Q (f x)) l).
Proof.
  induction l as [|x l IH]; simpl; [reflexivity|].
  destruct (Q (f x)); simpl; now rewrite IH.
Qed.

(** The entries of the plan that address a container of appended arrays,
    counted on the synthetics allocated for the plan. *)
Lemma by_time_entries_syns b compute protomesh pbmesh provided allow
      (s : Slot) (q : string) :
  In q (appended_qualifiers (slot_kind s)) ->
  match _extract_from_bundle_by_time b compute protomesh pbmesh provided allow
  with
  | inr (times, infos, syns) =>
      entries (fun info => slot_eqb (info_slot info) s) (combine times infos)
      = list_sum (map (fun syn => List.length (syn_times syn))
                      (filter (fun syn => slot_eqb (syn_slot syn) s) syns))
  | inl _ => False
  end.
Proof.
  intros Hq.
  destruct (by_time_steps b compute protomesh pbmesh provided allow)
    as (grid & infos & S & -> & Hlen & Hreg & Hperm & _ & Hsome).
  set (P := fun info => slot_eqb (info_slot info) s).
  assert (Hmesh : forall info, Info.kind info = "mesh" -> P info = false).
  { intros info Hk. unfold P. destruct (slot_eqb (info_slot info) s) eqn:E;
      [|reflexivity].
    apply slot_eqb_info in E. rewrite E in Hq. cbn [slot_kind info_slot] in Hq.
    rewrite Hk in Hq. destruct Hq. }
  unfold entries at 1.
  rewrite (list_sum_perm _ _ (Permutation_map _ Hperm)).
  fold (entries P S). rewrite (registers_entries P _ _ _ Hreg).
  unfold entries at 1. cbn [map list_sum fold_right Nat.add].
  rewrite regs_of_count.
  unfold _create_syns. rewrite filter_map_comm, map_map. cbn [syn_times].
  change (fun x : Info.t => slot_eqb (syn_slot _) s) with P.
  replace (filter P ((p_needed_syns (scan_by_time b compute provided allow)
                        ++ protomesh_items b compute protomesh) ++ _))
    with (filter P (p_needed_syns (scan_by_time b compute provided allow)
                      ++ automesh_items b compute pbmesh
                           (p_needed_syns (scan_by_time b compute provided allow)
                              ++ protomesh_items b compute protomesh))).
  - f_equal. apply map_ext_in. intros info Hin. apply filter_In in Hin.
    apply somes_all_some_length. intros ot Hot.
    eapply Hsome; [apply Hin | exact Hot].
  - rewrite !filter_app.
    replace (filter P (protomesh_items b compute protomesh)) with (@nil Info.t);
      [now rewrite app_nil_r|].
    symmetry. unfold protomesh_items.
    destruct (protomesh && _); [|reflexivity].
    induction (get_meshables b) as [|c l IH]; [reflexivity|].
    cbn [map filter]. rewrite Hmesh by reflexivity. exact IH.
Qed.

(** X12: when the main loop over the plan of the by-time planner succeeds,
    each array that is filled by appending (rvs; fluxes; Ns, time_ephems,
    time_ecls, etvs; xs, ys, zs, vxs, vys, vzs) has received, in every
    container, as many values as the time arrays of the synthetics allocated
    for that container have entries. *)
Theorem one_value_per_time :
  forall (V : Type) (sv : Services V) (starrefs : list string)
         (do_horizon as_generator : bool)
         (b : Bundle) (compute : string) (protomesh pbmesh : bool)
         (provided_times : option (list Qc)) (allow_oversample : bool)
         (s : Slot) (q : string),
    In q (appended_qualifiers (slot_kind s)) ->
    match _extract_from_bundle_by_time b compute protomesh pbmesh
                                       provided_times allow_oversample with
    | inr (times, infos, syns) =>
        forall st',
          main_loop V sv starrefs do_horizon as_generator times infos
          = (st', None) ->
          appended s q (trace V st')
          = list_sum (map (fun syn => List.length (syn_times syn))
                          (filter (fun syn => slot_eqb (syn_slot syn) s) syns))
    | inl _ => False
    end.
Proof.
  intros V sv starrefs do_horizon as_generator b compute protomesh pbmesh
         provided allow s q Hq.
  pose proof (by_time_entries_syns b compute protomesh pbmesh provided allow
                                   s q Hq) as H.
  destruct (_extract_from_bundle_by_time b compute protomesh pbmesh provided
                                         allow) as [e | [[times infos] syns]];
    [assumption|].
  intros st' Hrun. rewrite <- H.
  exact (main_loop_adds V sv starrefs do_horizon s q Hq as_generator
                        times infos st' Hrun).
Qed.

Lemma one_value_per_time_witness :
  match _extract_from_bundle_by_time (example_bundle "phoebe" "numerical")
                                     "run" true true None true with
  | inr (times, infos, syns) =>
      forall st',
        main_loop nat (example_services "roche" "marching")
                  ["primary"; "secondary"] true false times infos
        = (st', None) ->
        appended (mkSlot None "lc01" "lc" None) "fluxes" (trace nat st')
        = list_sum (map (fun syn => List.length (syn_times syn))
                        (filter (fun syn =>
                                   slot_eqb (syn_slot syn)
                                            (mkSlot None "lc01" "lc" None))
                                syns))
  | inl _ => False
  end.
Proof.
  apply (one_value_per_time
           nat (example_services "roche" "marching") ["primary"; "secondary"]
           true false (example_bundle "phoebe" "numerical") "run" true true
           None true (mkSlot None "lc01" "lc" None) "fluxes").
  left. reflexivity.
Defined.

(** The light curve of the example receives its three fluxes. *)
Example one_value_per_time_example :
  match _extract_from_bundle_by_time (example_bundle "phoebe" "numerical")
                                     "run" true true None true with
  | inr (times, infos, syns) =>
      snd (main_loop nat (example_services "roche" "marching")
                     ["primary"; "secondary"] true false times infos) = None
      /\ appended (mkSlot None "lc01" "lc" None) "fluxes"
                  (trace nat
                     (fst (main_loop nat (example_services "roche" "marching")
                                     ["primary"; "secondary"] true false
                                     times infos))) = 3
      /\ map (fun syn => (syn_dataset syn, List.length (syn_times syn))) syns
         = [("lc01", 3); ("protomesh", 1); ("protomesh", 1);
            ("pbmesh", 3); ("pbmesh", 3)]
  | inl _ => False
  end.
Proof. vm_compute. repeat split. Qed.

(** ** LuminosityCalibrator: whatever the references *)

Section CalibrationShape.

Variable Scale : Type.
Variable computed_scale : string -> string -> Scale.
Variable get_pblum_scale : option Scale -> Scale.
Variable dict_items : list (string * string) -> list (string * string).
Variable b : Bundle.
Variable dataset : string.

Hypothesis dict_items_perm : forall l, Permutation (dict_items l) l.

Local Abbreviation is_self := (mode_is_self b dataset).
Local Abbreviation is_copy := (mode_is_copy b dataset).
Local Abbreviation copy_pass :=
  (fold_left (copy_scale Scale get_pblum_scale)).
Local Abbreviation selfs_hold := (selfs_hold_scales computed_scale b dataset).

Lemma copy_pass_log (items : list (string * string)) :
  forall st,
    cal_log (copy_pass items st)
    = cal_log st ++ map (fun it => CopyScale (fst it) (snd it)) items.
Proof.
  induction items as [|[c r] items IH]; intros st; cbn [fold_left map].
  - now rewrite app_nil_r.
  - rewrite IH. cbn [copy_scale cal_log fst snd]. now rewrite <- app_assoc.
Qed.

(** The copies only write the scales of the copied components. *)
Lemma copy_pass_untouched (items : list (string * string)) (k : string) :
  ~ In k (map fst items) ->
  forall st, dict_get k (scales (copy_pass items st)) = dict_get k (scales st).
Proof.
  induction items as [|[c r] items IH]; intros Hk st; cbn [fold_left];
    [reflexivity|].
  cbn [map fst In] in Hk. rewrite IH by tauto.
  cbn [copy_scale scales]. apply dict_get_set_ne. intros ->. tauto.
Qed.

Lemma dict_items_keys (pc : list (string * string)) :
  NoDup (map fst pc) -> NoDup (map fst (dict_items pc)).
Proof.
  intros H. eapply Permutation_NoDup; [|exact H].
  apply Permutation_map. symmetry. apply dict_items_perm.
Qed.

(** X13: the calls of the calibration of a dataset, whatever the
    references (chains and cycles included): first the scale of every
    component whose reference is self, in the order of the hierarchy, then
    one copy for every other component, from the component it references;
    no copy precedes a computation and no component is copied twice. *)
Theorem calibration_log_shape :
  exists copies : list (string * string),
    cal_log (calibrate_dataset Scale computed_scale get_pblum_scale dict_items
                               b dataset)
    = map ComputeScale (filter is_self (get_meshables b))
          ++ map (fun it => CopyScale (fst it) (snd it)) copies
    /\ NoDup (map fst copies)
    /\ forall it, In it copies <-> reference_item b dataset it.
Proof.
  unfold calibrate_dataset.
  pose proof (pblum_copy_sound Scale computed_scale b dataset) as Hpc.
  destruct (first_pass_result Scale computed_scale b dataset)
    as (H1 & _ & _ & H4).
  destruct (first_pass Scale computed_scale b dataset) as [st1 pc].
  cbn [fst snd] in *.
  exists (dict_items pc). split; [|split].
  - now rewrite copy_pass_log, H1.
  - now apply dict_items_keys.
  - intros it. rewrite <- Hpc. split; apply Permutation_in;
      [|symmetry]; apply dict_items_perm.
Qed.

Hypothesis get_stored : forall v, get_pblum_scale (Some v) = v.

Lemma copy_pass_pointwise (items : list (string * string)) :
  NoDup (map fst items) ->
  (forall it, In it items -> is_copy (fst it) = true) ->
  forall st, selfs_hold st ->
    selfs_hold (copy_pass items st)
    /\ forall c r,
        In (c, r) items -> In r (get_meshables b) -> is_self r = true ->
        dict_get c (scales (copy_pass items st))
        = Some (computed_scale r dataset).
Proof.
  induction items as [|[c0 r0] items IH]; intros Hnd Hcopy st Hs;
    cbn [fold_left].
  - split; [exact Hs | intros c r []].
  - inversion Hnd as [|? ? Hnin Hnd']; subst.
    assert (Hs1 : selfs_hold (copy_scale Scale get_pblum_scale st (c0, r0))).
    { intros s Hin Hself. cbn [copy_scale scales].
      rewrite dict_get_set_ne; [now apply Hs|].
      intros ->. apply self_not_copy in Hself.
      pose proof (Hcopy (s, r0) (or_introl eq_refl)) as Hc0.
      cbn [fst] in Hc0. congruence. }
    destruct (IH Hnd' (fun it H => Hcopy it (or_intror H)) _ Hs1)
      as [Hs' Hv'].
    split; [exact Hs'|].
    intros c r [[= -> ->] | Hin] Hr Hself; [|now apply Hv'].
    rewrite copy_pass_untouched by exact Hnin.
    cbn [copy_scale scales]. rewrite dict_get_set_eq.
    now rewrite (Hs r Hr Hself), get_stored.
Qed.

(** X14: the scales held after the calibration of a dataset, reference by
    reference. A component whose reference is self holds its own computed
    scale; a component that references a component of mode self holds the
    scale of that component, whatever the other references are; the
    component _default and the components outside the hierarchy hold
    nothing. *)
Theorem calibration_pointwise :
  (forall component,
      In component (get_meshables b) -> is_self component = true ->
      stored_scale Scale computed_scale get_pblum_scale dict_items
                   b dataset component
      = Some (computed_scale component dataset))
  /\ (forall component,
         In component (get_meshables b) -> is_copy component = true ->
         In (pblum_ref b component dataset) (get_meshables b) ->
         is_self (pblum_ref b component dataset) = true ->
         stored_scale Scale computed_scale get_pblum_scale dict_items
                      b dataset component
         = Some (computed_scale (pblum_ref b component dataset) dataset))
  /\ (forall k,
         ~ In k (get_meshables b) \/ k = "_default" ->
         stored_scale Scale computed_scale get_pblum_scale dict_items
                      b dataset k
         = None).
Proof.
  unfold stored_scale, calibrate_dataset.
  pose proof (pblum_copy_sound Scale computed_scale b dataset) as Hpc.
  destruct (first_pass_result Scale computed_scale b dataset)
    as (_ & H2 & _ & H4).
  destruct (first_pass Scale computed_scale b dataset) as [st1 pc].
  cbn [fst snd] in *.
  assert (Hitems : forall it, In it (dict_items pc) ->
                              reference_item b dataset it).
  { intros it Hit. apply Hpc.
    eapply Permutation_in; [apply dict_items_perm | exact Hit]. }
  assert (Hs1 : selfs_hold st1).
  { intros s Hin Hs. rewrite H2.
    now rewrite (proj2 (str_in_filter is_self s _) (conj Hin Hs)). }
  destruct (copy_pass_pointwise (dict_items pc) (dict_items_keys pc H4)
              (fun it Hit => proj1 (proj2 (Hitems it Hit))) st1 Hs1)
    as [Hs' Hv'].
  split; [|split].
  - intros c Hin Hc. now apply Hs'.
  - intros c Hin Hc Hr Hrs. apply Hv'; [|assumption..].
    eapply Permutation_in; [symmetry; apply dict_items_perm|].
    apply Hpc. unfold reference_item. cbn [fst snd]. tauto.
  - intros k Hk. rewrite copy_pass_untouched.
    + rewrite H2.
      destruct (str_in k (filter is_self (get_meshables b))) eqn:E;
        [|reflexivity].
      apply str_in_filter in E. destruct E as [Hin Hself].
      destruct Hk as [Hk | ->]; [contradiction | discriminate Hself].
    + intros Hin. apply in_map_iff in Hin. destruct Hin as (it & <- & Hit).
      destruct (Hitems it Hit) as (Hin & Hc & _).
      destruct Hk as [Hk | Hk]; [contradiction|].
      rewrite Hk in Hc. discriminate Hc.
Qed.

(** The log of the calibration: the computations, then the copies of the
    references in the order of [items()]. *)
Lemma calibration_log :
  exists copies : list (string * string),
    cal_log (calibrate_dataset Scale computed_scale get_pblum_scale dict_items
                               b dataset)
    = map ComputeScale (filter is_self (get_meshables b))
          ++ map (fun it => CopyScale (fst it) (snd it)) copies
    /\ forall it, In it copies <-> reference_item b dataset it.
Proof.
  unfold calibrate_dataset.
  pose proof (pblum_copy_sound Scale computed_scale b dataset) as Hpc.
  destruct (first_pass_result Scale computed_scale b dataset)
    as (H1 & _ & _ & _).
  destruct (first_pass Scale computed_scale b dataset) as [st1 pc].
  cbn [fst snd] in *.
  exists (dict_items pc). split; [now rewrite copy_pass_log, H1|].
  intros it. rewrite <- Hpc. split; apply Permutation_in;
    [|symmetry]; apply dict_items_perm.
Qed.

(** The scales after the calibration, for a component of mode self and for
    a component that references one. *)
Lemma calibration_scales :
  (forall component,
      In component (get_meshables b) -> is_self component = true ->
      stored_scale Scale computed_scale get_pblum_scale dict_items
                   b dataset component
      = Some (computed_scale component dataset))
  /\ (forall component,
         In component (get_meshables b) -> is_copy component = true ->
         In (pblum_ref b component dataset) (get_meshables b) ->
         is_self (pblum_ref b component dataset) = true ->
         stored_scale Scale computed_scale get_pblum_scale dict_items
                      b dataset component
         = Some (computed_scale (pblum_ref b component dataset) dataset)).
Proof.
  unfold stored_scale, calibrate_dataset.
  pose proof (pblum_copy_sound Scale computed_scale b dataset) as Hpc.
  destruct (first_pass_result Scale computed_scale b dataset)
    as (_ & H2 & _ & H4).
  destruct (first_pass Scale computed_scale b dataset) as [st1 pc].
  cbn [fst snd] in *.
  assert (Hitems : forall it, In it (dict_items pc) ->
                              reference_item b dataset it).
  { intros it Hit. apply Hpc.
    eapply Permutation_in; [apply dict_items_perm | exact Hit]. }
  assert (Hs1 : selfs_hold st1).
  { intros s Hin Hs. rewrite H2.
    now rewrite (proj2 (str_in_filter is_self s _) (conj Hin Hs)). }
  destruct (copy_pass_pointwise (dict_items pc) (dict_items_keys pc H4)
              (fun it Hit => proj1 (proj2 (Hitems it Hit))) st1 Hs1)
    as [Hs' Hv'].
  split.
  - intros c Hin Hc. now apply Hs'.
  - intros c Hin Hc Hr Hrs. apply Hv'; [|assumption..].
    eapply Permutation_in; [symmetry; apply dict_items_perm|].
    apply Hpc. unfold reference_item. cbn [fst snd]. tauto.
Qed.

(** C4 (amended): the calibration of a light-curve dataset, reference by
    reference, whatever the other references of the hierarchy are. Every
    component of mode self has its scale computed and holds it. Every
    component that references a component of mode self is copied from it,
    every copy made for it comes after the computation of the scale it
    reads, and it ends with exactly the scale that the referenced component
    holds (in particular A and B when A references B and B is self). *)
Theorem calibration_resolves_references :
  let st := calibrate_dataset Scale computed_scale get_pblum_scale dict_items
                              b dataset in
  let stored := stored_scale Scale computed_scale get_pblum_scale dict_items
                             b dataset in
  (forall component,
      In component (get_meshables b) -> is_self component = true ->
      In (ComputeScale component) (cal_log st)
      /\ stored component = Some (computed_scale component dataset))
  /\ (forall component,
        In component (get_meshables b) -> is_copy component = true ->
        In (pblum_ref b component dataset) (get_meshables b) ->
        is_self (pblum_ref b component dataset) = true ->
        In (CopyScale component (pblum_ref b component dataset)) (cal_log st)
        /\ (forall n comp_copy,
              nth_error (cal_log st) n
              = Some (CopyScale component comp_copy) ->
              comp_copy = pblum_ref b component dataset
              /\ computed_before (cal_log st) n comp_copy)
        /\ stored component = stored (pblum_ref b component dataset)
        /\ stored component
           = Some (computed_scale (pblum_ref b component dataset) dataset)).
Proof.
  cbv zeta.
  destruct calibration_log as (copies & Hlog & Hcopies).
  destruct calibration_scales as [Hself Hcopy].
  rewrite Hlog.
  set (log1 := map ComputeScale (filter is_self (get_meshables b))) in *.
  split.
  - intros c Hin Hc. split; [|now apply Hself].
    apply in_or_app. left. apply in_map, filter_In. tauto.
  - intros c Hin Hc Hr Hrs. split; [|split; [|split]].
    + apply in_or_app. right. apply in_map_iff.
      exists (c, pblum_ref b c dataset). split; [reflexivity|].
      apply Hcopies. unfold reference_item. cbn [fst snd]. tauto.
    + intros n r Hn.
      destruct (Nat.lt_ge_cases n (List.length log1)) as [Hlt | Hge].
      * rewrite nth_error_app1 in Hn by assumption.
        apply nth_error_In, in_map_iff in Hn.
        destruct Hn as (x & Hx & _). discriminate.
      * rewrite nth_error_app2 in Hn by assumption.
        apply nth_error_In, in_map_iff in Hn.
        destruct Hn as (it & Heq & Hit).
        injection Heq as Hfst Hsnd.
        destruct (proj1 (Hcopies it) Hit) as (_ & _ & Hit3).
        rewrite Hfst in Hit3. rewrite <- Hsnd, Hit3. clear Hsnd r.
        split; [reflexivity|].
        destruct (nth_error_map_In ComputeScale
                    (filter is_self (get_meshables b))
                    (pblum_ref b c dataset)) as (m & Hm & Hnth).
        { apply filter_In. tauto. }
        exists m. unfold log1 in *. rewrite length_map in Hge.
        split; [lia|].
        rewrite nth_error_app1 by (rewrite length_map; lia). exact Hnth.
    + rewrite (Hcopy c Hin Hc Hr Hrs). symmetry. now apply Hself.
    + now apply Hcopy.
Qed.

End CalibrationShape.

(** C4, as stated, fails for a chain of references without a cycle: the
    primary references the secondary, which references the tertiary, whose
    scale is its own. When the entry of the primary comes first in
    [pblum_copy.items()], its copy reads the scale of the secondary before
    anything was stored there, and the two end with different scales. The
    first hierarchy shows it for the order of insertion, the second for the
    reverse order. *)
Lemma calibration_chain_copies_unresolved :
  cal_log (calibrate_dataset nat example_scale example_getter (fun l => l)
                             (chain_bundle ["primary"; "secondary"; "tertiary"])
                             "lc01")
  = [ComputeScale "tertiary"; CopyScale "primary" "secondary";
     CopyScale "secondary" "tertiary"]
  /\ stored_scale nat example_scale example_getter (fun l => l)
                  (chain_bundle ["primary"; "secondary"; "tertiary"])
                  "lc01" "primary"
     = Some (example_getter None)
  /\ stored_scale nat example_scale example_getter (fun l => l)
                  (chain_bundle ["primary"; "secondary"; "tertiary"])
                  "lc01" "secondary"
     = Some (example_scale "tertiary" "lc01")
  /\ example_getter None = 1
  /\ example_scale "tertiary" "lc01" = 8
  /\ cal_log (calibrate_dataset nat example_scale example_getter (@rev _)
                                (chain_bundle
                                   ["secondary"; "primary"; "tertiary"])
                                "lc01")
     = [ComputeScale "tertiary"; CopyScale "primary" "secondary";
        CopyScale "secondary" "tertiary"]
  /\ stored_scale nat example_scale example_getter (@rev _)
                  (chain_bundle ["secondary"; "primary"; "tertiary"])
                  "lc01" "primary"
     = Some 1
  /\ stored_scale nat example_scale example_getter (@rev _)
                  (chain_bundle ["secondary"; "primary"; "tertiary"])
                  "lc01" "secondary"
     = Some 8.
Proof. repeat split. Qed.

Lemma calibration_resolves_references_witness :
  stored_scale nat example_scale example_getter (fun l => l)
               copy_bundle "lc01" "primary"
  = stored_scale nat example_scale example_getter (fun l => l)
                 copy_bundle "lc01" "secondary"
  /\ stored_scale nat example_scale example_getter (fun l => l)
                  (chain_bundle ["primary"; "secondary"; "tertiary"])
                  "lc01" "secondary"
     = stored_scale nat example_scale example_getter (fun l => l)
                    (chain_bundle ["primary"; "secondary"; "tertiary"])
                    "lc01" "tertiary".
Proof.
  split.
  - refine (proj1 (proj2 (proj2 (proj2 (calibration_resolves_references
                                          nat example_scale example_getter
                                          (fun l => l) copy_bundle "lc01" _ _)
                                       "primary" _ _ _ _)))).
    + intros l. apply Permutation_refl.
    + reflexivity.
    + left. reflexivity.
    + reflexivity.
    + right. left. reflexivity.
    + reflexivity.
  - refine (proj1 (proj2 (proj2 (proj2 (calibration_resolves_references
                                          nat example_scale example_getter
                                          (fun l => l)
                                          (chain_bundle
                                             ["primary"; "secondary";
                                              "tertiary"])
                                          "lc01" _ _)
                                       "secondary" _ _ _ _)))).
    + intros l. apply Permutation_refl.
    + reflexivity.
    + right. left. reflexivity.
    + reflexivity.
    + right. right. left. reflexivity.
    + reflexivity.
Defined.

Lemma calibration_log_shape_witness :
  exists copies : list (string * string),
    cal_log (calibrate_dataset nat example_scale example_getter (fun l => l)
                               cycle_bundle "lc01")
    = map ComputeScale (filter (mode_is_self cycle_bundle "lc01")
                               (get_meshables cycle_bundle))
          ++ map (fun it => CopyScale (fst it) (snd it)) copies
    /\ NoDup (map fst copies)
    /\ forall it, In it copies <-> reference_item cycle_bundle "lc01" it.
Proof.
  apply (calibration_log_shape nat example_scale example_getter (fun l => l)
                               cycle_bundle "lc01").
  intros l. apply Permutation_refl.
Defined.

Lemma calibration_pointwise_witness :
  stored_scale nat example_scale example_getter (fun l => l)
               copy_bundle "lc01" "primary"
  = Some (example_scale "secondary" "lc01").
Proof.
  refine (proj1 (proj2 (calibration_pointwise
                           nat example_scale example_getter (fun l => l)
                           copy_bundle "lc01" _ _))
                "primary" _ _ _ _).
  - intros l. apply Permutation_refl.
  - reflexivity.
  - left. reflexivity.
  - reflexivity.
  - right. left. reflexivity.
  - reflexivity.
Defined.

(** ** LegacyAdapter: the sections of a column *)

Lemma split_sizes_spec (sizes : list nat) :
  forall ary : list Qc,
    list_sum sizes <= List.length ary ->
    map (@List.length Qc) (split_sizes sizes ary) = sizes
    /\ List.concat (split_sizes sizes ary) = firstn (list_sum sizes) ary.
Proof.
  induction sizes as [|k sizes IH]; intros ary H; cbn [split_sizes].
  - split; reflexivity.
  - change (list_sum (k :: sizes)) with (k + list_sum sizes) in *.
    destruct (IH (skipn k ary)) as [Hl Hc].
    { rewrite length_skipn. lia. }
    cbn [map List.concat]. rewrite Hl, Hc. split.
    + f_equal. rewrite length_firstn. lia.
    + rewrite <- (firstn_skipn k ary) at 3.
      rewrite firstn_app, length_firstn.
      replace (Nat.min k (List.length ary)) with k by lia.
      replace (k + list_sum sizes - k) with (list_sum sizes) by lia.
      rewrite firstn_firstn. f_equal. f_equal. lia.
Qed.

Lemma list_sum_repeat (k n : nat) : list_sum (repeat k n) = n * k.
Proof. induction n as [|n IH]; simpl; [reflexivity | rewrite IH; lia]. Qed.

Lemma array_split_ok (ary : list Qc) (n : nat) :
  n <> 0 ->
  exists sections,
    array_split ary n = inr sections
    /\ List.length sections = n
    /\ List.concat sections = ary
    /\ map (@List.length Qc) sections
       = repeat (S (List.length ary / n)) (List.length ary mod n)
           ++ repeat (List.length ary / n) (n - List.length ary mod n).
Proof.
  intros E. unfold array_split.
  rewrite (proj2 (Nat.eqb_neq n 0) E).
  set (q := List.length ary / n). set (r := List.length ary mod n).
  pose proof (Nat.div_mod_eq (List.length ary) n) as Hdm.
  pose proof (Nat.mod_upper_bound (List.length ary) n E) as Hr.
  fold q r in Hdm, Hr.
  assert (Hsum : list_sum (repeat (S q) r ++ repeat q (n - r))
                 = List.length ary).
  { rewrite list_sum_app, !list_sum_repeat. nia. }
  destruct (split_sizes_spec (repeat (S q) r ++ repeat q (n - r)) ary)
    as [Hl Hc]; [lia|].
  eexists. split; [reflexivity|]. split; [|split; [|exact Hl]].
  - rewrite <- (length_map (@List.length Qc)), Hl.
    rewrite length_app, !repeat_length. lia.
  - rewrite Hc, Hsum. apply firstn_all.
Qed.

(** X15: [np.array_split] as the automesh translation uses it. Zero
    sections is a ValueError; otherwise the array is cut, without loss and in
    order, into exactly [n] sections, the first [len mod n] of them of
    [len / n + 1] entries and the others of [len / n] entries. *)
Theorem array_split_sections :
  forall (ary : list Qc) (n : nat),
    match array_split ary n with
    | inr sections =>
        n <> 0
        /\ List.length sections = n
        /\ List.concat sections = ary
        /\ map (@List.length Qc) sections
           = repeat (S (List.length ary / n)) (List.length ary mod n)
               ++ repeat (List.length ary / n) (n - List.length ary mod n)
    | inl e =>
        n = 0 /\ e = ValueError "number sections must be larger than 0."
    end.
Proof.
  intros ary n. destruct (Nat.eq_dec n 0) as [-> | E].
  - split; reflexivity.
  - destruct (array_split_ok ary n E) as (sections & -> & Hlen & Hc & Hl).
    repeat split; assumption.
Qed.

Lemma flat_map_singleton {A B : Type} (f : A -> B) (l : list A) :
  flat_map (fun x => [f x]) l = map f l.
Proof. induction l as [|x l IH]; simpl; [reflexivity | now rewrite IH]. Qed.

Lemma combine_map_snd_eq {A B : Type} (l1 : list A) (l2 : list B) :
  List.length l1 = List.length l2 -> map snd (combine l1 l2) = l2.
Proof.
  revert l2. induction l1 as [|a l1 IH]; intros [|c l2] H; simpl in *;
    try discriminate; [reflexivity|].
  f_equal. apply IH. now injection H.
Qed.

Lemma expand8_concat (negated : list bool) (sections : list (list Qc)) :
  List.concat (map (expand8 negated) sections)
  = expand8 negated (List.concat sections).
Proof.
  unfold expand8. induction sections as [|x l IH]; simpl; [reflexivity|].
  now rewrite IH, flat_map_app.
Qed.

(** "The entry is an intensity column of the dataset for a star." *)
Lemma pbmesh_entries_ok mesh time dataset key entries :
  pbmesh_entries mesh time dataset key = inr entries ->
  if str_in key ["Inorm1"; "Inorm2"] then
    exists ary,
      dict_get key mesh = Some ary
      /\ map e_times entries = map (@Some Qc) time
      /\ List.concat (map e_value entries) = expand8 pattern_plain ary
      /\ Forall (fun e =>
                   e_qualifier e = "abs_normal_intensities"
                   /\ e_has_unit e = true
                   /\ e_dataset e = dataset
                   /\ e_component e
                      = (if key =? "Inorm1" then "primary" else "secondary"))
                entries
  else entries = [].
Proof.
  unfold pbmesh_entries, bind, mesh_get.
  destruct (ret_dict key) as [e | [[component qualifier] has_unit]] eqn:Er;
    [discriminate|].
  destruct (dict_get key mesh) as [ary|]; [|discriminate].
  destruct (array_split ary (List.length time)) as [e | sections] eqn:Ea;
    [discriminate|].
  destruct (Nat.eq_dec (List.length time) 0) as [E0 | E0];
    [unfold array_split in Ea; rewrite E0 in Ea; discriminate Ea|].
  destruct (array_split_ok ary _ E0) as (sections' & Ea' & Hlen & Hc & _).
  rewrite Ea in Ea'. injection Ea' as <-.
  intros H.
  apply (f_equal (fun r : result (list MeshEntry) =>
                    match r with inr x => x | inl _ => [] end)) in H.
  cbv beta iota in H. subst entries.
  destruct (str_in key ["Inorm1"; "Inorm2"]) eqn:Ek.
  - assert (Hsub : str_in (String.substring 0 2 key) ["vc"; "gr"] = false
                   /\ component
                      = (if key =? "Inorm1" then "primary" else "secondary")
                   /\ qualifier = "abs_normal_intensities"
                   /\ has_unit = true).
    { apply str_in_In in Ek. destruct Ek as [<- | [<- | []]];
        cbv in Er; injection Er as <- <- <-; repeat split. }
    destruct Hsub as (-> & Hcomp & -> & ->).
    rewrite flat_map_singleton. exists ary. split; [reflexivity|].
    rewrite !map_map. cbn [e_times e_value].
    split; [|split].
    + rewrite <- (map_map fst (@Some Qc)).
      now rewrite combine_map_fst_eq by (symmetry; exact Hlen).
    + rewrite <- (map_map snd (expand8 pattern_plain)).
      rewrite combine_map_snd_eq by (symmetry; exact Hlen).
      now rewrite expand8_concat, Hc.
    + apply Forall_forall. intros e He. apply in_map_iff in He.
      destruct He as (tv & <- & _). cbn. auto.
  - clear. induction (combine time sections) as [|x l IH];
      [reflexivity | exact IH].
Qed.

Lemma collect_pbmesh mesh time dataset (keys : list string) :
  forall entries,
    collect (pbmesh_entries mesh time dataset) keys = inr entries ->
    Forall (intensity_entry time dataset) entries
    /\ List.length entries
       = List.length time
         * List.length (filter (fun key => str_in key ["Inorm1"; "Inorm2"])
                               keys).
Proof.
  induction keys as [|key keys IH]; intros entries; cbn [collect filter].
  - intros [= <-]. split; [constructor | simpl; lia].
  - unfold bind.
    destruct (pbmesh_entries mesh time dataset key) as [e | ys] eqn:Ek;
      [discriminate|].
    destruct (collect (pbmesh_entries mesh time dataset) keys)
      as [e | rest]; [discriminate|].
    intros [= <-]. destruct (IH rest eq_refl) as [Hf Hl].
    apply pbmesh_entries_ok in Ek.
    destruct (str_in key ["Inorm1"; "Inorm2"]).
    + destruct Ek as (ary & _ & Ht & _ & Hq). split.
      * apply Forall_app. split; [|exact Hf].
        apply Forall_forall. intros e He.
        rewrite Forall_forall in Hq.
        destruct (Hq e He) as (H1 & H2 & H3 & H4).
        repeat split; try assumption.
        -- rewrite H4. destruct (key =? "Inorm1"); auto.
        -- assert (Hin : In (e_times e) (map (@Some Qc) time)).
           { rewrite <- Ht. now apply in_map. }
           apply in_map_iff in Hin. destruct Hin as (t & Hte & Hin).
           exists t. auto.
      * rewrite length_app, Hl. cbn [List.length].
        rewrite <- (length_map e_times ys), Ht, length_map. lia.
    + subst ys. split; assumption.
Qed.

Lemma gathered_pbmesh mesh time dataset (keys : list string) :
  Forall (intensity_entry time dataset)
         (gathered (pbmesh_entries mesh time dataset) keys)
  /\ List.length (gathered (pbmesh_entries mesh time dataset) keys)
     <= List.length time
        * List.length (filter (fun key => str_in key ["Inorm1"; "Inorm2"])
                              keys).
Proof.
  induction keys as [|key keys IH]; cbn [gathered filter].
  - split; [constructor | simpl; lia].
  - destruct (pbmesh_entries mesh time dataset key) as [e | ys] eqn:Ek;
      [split; [constructor | simpl; lia]|].
    destruct IH as [Hf Hl].
    destruct (collect_pbmesh mesh time dataset [key] ys) as [Hf1 Hl1].
    { cbn [collect]. unfold bind. rewrite Ek. now rewrite app_nil_r. }
    cbn [filter] in Hl1.
    split; [apply Forall_app; now split|].
    rewrite length_app, Hl1.
    destruct (str_in key ["Inorm1"; "Inorm2"]); cbn [List.length]; lia.
Qed.

(** ** LegacyAdapter: the keys of a legacy mesh *)

Lemma str_last_snoc (root : string) (c : ascii) :
  str_last (root ++ String c EmptyString) = Some c.
Proof.
  induction root as [|a root IH]; [reflexivity|].
  cbn [String.append str_last]. rewrite IH. now destruct root.
Qed.

Lemma str_last_inv (s : string) (c : ascii) :
  str_last s = Some c -> exists root, s = (root ++ String c EmptyString)%string.
Proof.
  induction s as [|a s IH]; [discriminate|].
  destruct s as [|a' s'].
  - intros [= ->]. now exists EmptyString.
  - intros H. destruct (IH H) as [root Hr]. exists (String a root).
    cbn [String.append]. now rewrite <- Hr.
Qed.

Lemma substring_0_append (root s : string) :
  String.substring 0 (String.length root) (root ++ s) = root.
Proof.
  induction root as [|a root IH]; cbn [String.length String.append substring].
  - now destruct s.
  - now rewrite IH.
Qed.

Lemma str_drop_last_snoc (root : string) (c : ascii) :
  str_drop_last 1 (root ++ String c EmptyString) = root.
Proof.
  unfold str_drop_last.
  replace (String.length (root ++ String c EmptyString)%string - 1)
    with (String.length root).
  - apply substring_0_append.
  - induction root as [|a root IH]; cbn [String.length String.append];
      [reflexivity|].
    destruct (String.length (root ++ String c EmptyString)%string) eqn:E;
      [destruct root; discriminate E|].
    cbn in IH |- *. lia.
Qed.

Lemma digit_of_ascii_inv (c : ascii) (n : nat) :
  digit_of_ascii c = Some n -> c = ascii_of_nat (n + 48).
Proof.
  unfold digit_of_ascii.
  destruct (Nat.leb 48 (nat_of_ascii c)) eqn:E1; [|discriminate].
  destruct (Nat.leb (nat_of_ascii c) 57); [|discriminate].
  apply Nat.leb_le in E1. intros [= <-].
  replace (nat_of_ascii c - 48 + 48) with (nat_of_ascii c) by lia.
  symmetry. apply ascii_nat_embedding.
Qed.

(** X18: [ret_dict] answers exactly for the keys that end in 1 or 2: the
    component is the primary for 1 and the secondary for 2, the qualifier is
    the PHOEBE 2 name of the root of the key (the root itself when the table
    does not list it), and a unit is attached for the root Inorm only. Any
    other key raises. *)
Theorem ret_dict_succeeds_iff :
  forall (key component qualifier : string) (has_unit : bool),
    ret_dict key = inr (component, qualifier, has_unit) <->
    exists root,
      ((key = (root ++ "1")%string /\ component = "primary")
       \/ (key = (root ++ "2")%string /\ component = "secondary"))
      /\ qualifier = legacy_qualifier root
      /\ has_unit = (root =? "Inorm").
Proof.
  intros key component qualifier has_unit. unfold ret_dict, last_digit, bind.
  split.
  - destruct (str_last key) as [c|] eqn:El; [|discriminate].
    destruct (digit_of_ascii c) as [n|] eqn:Ed; [|discriminate].
    apply str_last_inv in El. destruct El as [root ->].
    apply digit_of_ascii_inv in Ed. rewrite str_drop_last_snoc.
    destruct (Nat.eqb n 1) eqn:E1.
    { apply Nat.eqb_eq in E1. subst n. intros [= <- <- <-].
      exists root. rewrite Ed. auto. }
    destruct (Nat.eqb n 2) eqn:E2; [|discriminate].
    apply Nat.eqb_eq in E2. subst n. intros [= <- <- <-].
    exists root. rewrite Ed. auto.
  - intros (root & [[-> ->] | [-> ->]] & -> & ->);
      rewrite str_last_snoc; cbn [digit_of_ascii nat_of_ascii];
      rewrite str_drop_last_snoc; reflexivity.
Qed.

(** ** The two planners side by side *)

Lemma fold_left_related {A S1 S2 : Type} (R : S1 -> S2 -> Prop)
      (f : S1 -> A -> S1) (g : S2 -> A -> S2) (l : list A) :
  (forall s1 s2 a, R s1 s2 -> R (f s1 a) (g s2 a)) ->
  forall s1 s2, R s1 s2 -> R (fold_left f l s1) (fold_left g l s2).
Proof.
  intros H. induction l as [|a l IH]; intros s1 s2 Hs; simpl; [exact Hs|].
  apply IH. now apply H.
Qed.

(** Without oversampling the two scans record the same work items, in the
    same order. *)
Lemma scans_agree b compute provided allow :
  (forall dataset kind,
      oversample_applies b compute allow dataset kind = false) ->
  p_needed_syns (scan_by_time b compute provided allow)
  = p_needed_syns (scan_by_dataset b compute provided).
Proof.
  intros Hno. unfold scan_by_time, scan_by_dataset.
  apply (fold_left_related
           (fun st1 st2 => p_needed_syns st1 = p_needed_syns st2));
    [|reflexivity].
  intros st1 st2 dataset Hst.
  unfold extract_dataset_by_time, extract_dataset_by_dataset.
  destruct (dataset_is_planned b compute dataset); [|exact Hst].
  apply (fold_left_related
           (fun st1 st2 => p_needed_syns st1 = p_needed_syns st2));
    [|exact Hst].
  clear st1 st2 Hst. intros st1 st2 component Hst.
  unfold extract_component_by_time, extract_component_by_dataset.
  destruct (is_none component && _); [exact Hst|].
  destruct (obs_times b dataset component _) as [this_times|]; [|exact Hst].
  unfold resolve_times. rewrite Hno.
  destruct (nonempty (override_times provided this_times)); [|exact Hst].
  apply (fold_left_related
           (fun st1 st2 => p_needed_syns st1 = p_needed_syns st2));
    [|exact Hst].
  clear st1 st2 Hst. intros st1 st2 info Hst.
  unfold add_item_by_time, add_item_by_dataset.
  destruct (fold_left (add_time info) _ _) as [times infos].
  cbn [p_needed_syns]. now rewrite Hst.
Qed.

(** X19: when no dataset is oversampled, the planner of [phoebe] and the
    planner of [legacy] plan the same work: the groups of the by-dataset plan
    are the work items of the by-time scan, one by one and in order, and both
    allocate the same synthetics (protomesh and automesh ones included). *)
Theorem planners_agree_without_oversampling :
  forall (b : Bundle) (compute : string) (protomesh pbmesh : bool)
         (provided_times : option (list Qc)) (allow_oversample : bool),
    (forall dataset kind,
        oversample_applies b compute allow_oversample dataset kind = false) ->
    match _extract_from_bundle_by_time b compute protomesh pbmesh
                                       provided_times allow_oversample,
          _extract_from_bundle_by_dataset b compute protomesh pbmesh
                                          provided_times with
    | inr (_, _, syns), inr (groups, syns') =>
        syns = syns'
        /\ groups
           = map (fun info => [info])
                 (p_needed_syns (scan_by_time b compute provided_times
                                              allow_oversample))
    | _, _ => False
    end.
Proof.
  intros b compute protomesh pbmesh provided allow Hno.
  destruct (by_time_steps b compute protomesh pbmesh provided allow)
    as (grid & infos & S & -> & _).
  unfold _extract_from_bundle_by_dataset.
  destruct (scan_by_dataset_groups b compute provided) as [_ Hi].
  rewrite handle_protomesh_items, Hi.
  rewrite <- (scans_agree b compute provided allow Hno).
  unfold automesh_items, _handle_automesh.
  destruct pbmesh; cbn [andb bind]; [|now rewrite app_nil_r].
  destruct (str_in (compute_kind b compute) _backends_that_support_automesh);
    cbn [bind]; [|now rewrite app_nil_r].
  rewrite automesh_loop_unregistered. cbn [bind]. split; reflexivity.
Qed.

Lemma planners_agree_without_oversampling_witness :
  match _extract_from_bundle_by_time (example_bundle "phoebe" "numerical")
                                     "run" true true None true,
        _extract_from_bundle_by_dataset (example_bundle "phoebe" "numerical")
                                        "run" true true None with
  | inr (_, _, syns), inr (groups, syns') =>
      syns = syns'
      /\ groups
         = map (fun info => [info])
               (p_needed_syns (scan_by_time (example_bundle "phoebe" "numerical")
                                            "run" None true))
  | _, _ => False
  end.
Proof.
  apply (planners_agree_without_oversampling
           (example_bundle "phoebe" "numerical") "run" true true None true).
  intros dataset kind. unfold oversample_applies. cbn [example_bundle fti_method].
  now rewrite andb_false_r.
Defined.

(** ** LegacyAdapter: the main loop *)

(** The time arrays of the work items of the by-dataset scan hold numbers
    only: [item_times] reads them back without loss. *)
Lemma item_times_map_Some (this_times : list Qc) info :
  Info.times info = map Some this_times -> item_times info = this_times.
Proof.
  unfold item_times. intros ->.
  induction this_times as [|t l IH]; simpl; [reflexivity | now rewrite IH].
Qed.

Lemma fold_left_invariant_in {A S : Type} (P : S -> Prop) (f : S -> A -> S)
      (l : list A) :
  (forall s a, In a l -> P s -> P (f s a)) ->
  forall s, P s -> P (fold_left f l s).
Proof.
  induction l as [|a l IH]; intros Hf s H; simpl; [exact H|].
  apply IH; [intros s' a' Ha'; apply Hf; now right|].
  apply Hf; [now left | exact H].
Qed.

Lemma scan_by_dataset_times b compute provided :
  Forall (fun info => Info.times info = map Some (item_times info))
         (p_needed_syns (scan_by_dataset b compute provided)).
Proof.
  unfold scan_by_dataset.
  apply (fold_left_invariant
           (fun st => Forall (fun info => Info.times info
                                          = map Some (item_times info))
                             (p_needed_syns st))); [|constructor].
  intros st dataset Hst. unfold extract_dataset_by_dataset.
  destruct (dataset_is_planned b compute dataset); [|exact Hst].
  apply fold_left_invariant; [|exact Hst].
  clear st Hst. intros st component Hst. unfold extract_component_by_dataset.
  destruct (is_none component && _); [exact Hst|].
  destruct (obs_times b dataset component _) as [this_times|]; [|exact Hst].
  destruct (nonempty _); [|exact Hst].
  apply fold_left_invariant_in; [|exact Hst].
  clear st Hst. intros st info Hin Hst. unfold add_item_by_dataset.
  cbn [p_needed_syns]. apply Forall_app. split; [exact Hst|].
  constructor; [|constructor].
  apply in_map_iff in Hin. destruct Hin as (c & <- & _).
  now rewrite (item_times_map_Some (override_times provided this_times)).
Qed.

Lemma selected_refl {A : Type} (l : list A) : selected l l.
Proof. induction l; constructor; assumption. Qed.

Lemma selected_app {A : Type} (l1 l1' l2 l2' : list A) :
  selected l1 l1' -> selected l2 l2' -> selected (l1 ++ l2) (l1' ++ l2').
Proof. induction 1; intros H2; cbn [app]; try constructor; auto. Qed.

Lemma selected_incl {A : Type} (l l' : list A) :
  selected l l' -> incl l l'.
Proof.
  induction 1 as [|x l l' _ IH|x l l' _ IH]; intros y Hy.
  - destruct Hy.
  - destruct Hy as [<- | Hy]; [now left | right; now apply IH].
  - right. now apply IH.
Qed.

Lemma selected_length {A : Type} (l l' : list A) :
  selected l l' -> List.length l <= List.length l'.
Proof. induction 1; cbn [List.length]; lia. Qed.

Lemma gathered_collect {A B : Type} (f : A -> result (list B)) (l : list A) :
  forall all, collect f l = inr all -> gathered f l = all.
Proof.
  induction l as [|x l IH]; intros all; cbn [collect gathered].
  - now intros [= <-].
  - unfold bind. destruct (f x) as [e | ys]; [discriminate|].
    destruct (collect f l) as [e | rest]; [discriminate|].
    intros [= <-]. now rewrite (IH rest eq_refl).
Qed.

Section LegacyLoopFacts.

Variable V : Type.
Variable sqrt : Qc -> Qc.
Variable phb1 : Phb1 V.
Variable new_syns_filter : list (legacy_event V) -> MeshEntry -> bool.

Lemma legacy_emit_nil (st : LegacyState V) : legacy_emit [] st = st.
Proof. destruct st. unfold legacy_emit. cbn. now rewrite app_nil_r. Qed.

Lemma legacy_emit_emit (evs1 evs2 : list (legacy_event V)) st :
  legacy_emit evs2 (legacy_emit evs1 st) = legacy_emit (evs1 ++ evs2) st.
Proof. unfold legacy_emit. cbn. now rewrite app_assoc. Qed.

(** What [new_syns.filter] lets through is a selection from the entries
    built, all of them when it finds every parameter. *)
Lemma hand_over_shape (entries : list MeshEntry) :
  forall st : LegacyState V,
  exists handed,
    hand_over V new_syns_filter entries st
    = legacy_emit (map SetMesh handed) st
    /\ selected handed entries
    /\ (finds_all new_syns_filter -> handed = entries).
Proof.
  induction entries as [|e entries IH]; intros st; cbn [hand_over].
  - exists []. split; [now rewrite legacy_emit_nil|].
    split; [constructor | reflexivity].
  - destruct (new_syns_filter (legacy_trace st) e) eqn:Ef.
    + destruct (IH (legacy_emit [SetMesh e] st)) as (rest & -> & Hs & Hall).
      exists (e :: rest). split; [now rewrite legacy_emit_emit|].
      split; [now constructor|]. intros Hf. now rewrite (Hall Hf).
    + destruct (IH st) as (rest & -> & Hs & Hall).
      exists rest. split; [reflexivity|].
      split; [now constructor|]. intros Hf. rewrite Hf in Ef. discriminate Ef.
Qed.

Lemma store_entries_shape type (entries : list MeshEntry) :
  forall st : LegacyState V,
  exists handed,
    store_entries V new_syns_filter type entries st
    = legacy_emit (map SetMesh handed) st
    /\ selected handed entries
    /\ (type = "protomesh" \/ finds_all new_syns_filter -> handed = entries).
Proof.
  intros st. unfold store_entries.
  destruct (type =? "protomesh") eqn:Et.
  - exists entries. split; [reflexivity|].
    split; [apply selected_refl | reflexivity].
  - destruct (hand_over_shape entries st) as (handed & Hst & Hs & Hall).
    exists handed. split; [exact Hst|]. split; [exact Hs|].
    intros [-> | Hf]; [discriminate Et | now apply Hall].
Qed.

Lemma fill_mesh_keys_shape type (f : string -> result (list MeshEntry))
      (keys : list string) :
  forall st : LegacyState V,
  exists handed,
    fst (fill_mesh_keys V new_syns_filter type f keys st)
    = legacy_emit (map SetMesh handed) st
    /\ selected handed (gathered f keys)
    /\ (type = "protomesh" \/ finds_all new_syns_filter ->
        handed = gathered f keys)
    /\ snd (fill_mesh_keys V new_syns_filter type f keys st)
       = match collect f keys with
         | inr _ => None
         | inl e => Some e
         end.
Proof.
  induction keys as [|key keys IH]; intros st;
    cbn [fill_mesh_keys collect gathered].
  - exists []. split; [now rewrite legacy_emit_nil|].
    split; [constructor|]. split; reflexivity.
  - unfold bind. destruct (f key) as [e | ys].
    + exists []. split; [now rewrite legacy_emit_nil|].
      split; [constructor|]. split; reflexivity.
    + destruct (store_entries_shape type ys st) as (h1 & -> & Hs1 & Hall1).
      destruct (IH (legacy_emit (map SetMesh h1) st))
        as (h2 & Hst & Hs2 & Hall2 & Hsnd).
      exists (h1 ++ h2). split; [|split; [|split]].
      * now rewrite Hst, legacy_emit_emit, map_app.
      * now apply selected_app.
      * intros H. now rewrite (Hall1 H), (Hall2 H).
      * rewrite Hsnd. now destruct (collect f keys).
Qed.

(** The sequential translation and [fill_mesh] agree: the same exception
    is raised, if any, and the entries handed over are a selection from the
    entries built, all of them for a protomesh and when [new_syns.filter]
    finds every parameter. *)
Lemma legacy_fill_mesh_shape mesh type time dataset (st : LegacyState V) :
  exists handed,
    fst (legacy_fill_mesh V sqrt new_syns_filter mesh type time dataset st)
    = legacy_emit (map SetMesh handed) st
    /\ match fill_mesh sqrt mesh type time dataset with
       | inr all =>
           snd (legacy_fill_mesh V sqrt new_syns_filter mesh type time
                                 dataset st) = None
           /\ selected handed all
           /\ (type = "protomesh" \/ finds_all new_syns_filter ->
               handed = all)
       | inl e =>
           snd (legacy_fill_mesh V sqrt new_syns_filter mesh type time
                                 dataset st) = Some e
       end.
Proof.
  unfold legacy_fill_mesh, fill_mesh, fill_mesh_grtot.
  set (g := if type =? "protomesh"
            then g1 <- grtot_of sqrt mesh "1";;
                 g2 <- grtot_of sqrt mesh "2";; inr [g1; g2]
            else inr []).
  destruct g as [e | grtot]; cbn [bind].
  - exists []. split; [now rewrite legacy_emit_nil | reflexivity].
  - destruct (fill_mesh_keys_shape
                type (fill_mesh_key mesh type grtot time dataset)
                (map fst mesh) st) as (handed & Hst & Hs & Hall & Hsnd).
    exists handed. split; [exact Hst|].
    unfold fill_mesh_key in *.
    destruct (collect _ (map fst mesh)) as [e | all] eqn:Ec;
      [exact Hsnd|].
    rewrite (gathered_collect _ _ _ Ec) in Hs, Hall. auto.
Qed.

Lemma syn_writes_mesh (entries : list MeshEntry) :
  syn_writes (map (@SetMesh V) entries) = [].
Proof. induction entries; simpl; auto. Qed.

Lemma lc_calls_mesh (entries : list MeshEntry) :
  lc_calls (map (@SetMesh V) entries) = [].
Proof. induction entries; simpl; auto. Qed.

Lemma lcmesh_calls_mesh (entries : list MeshEntry) :
  lcmesh_calls (map (@SetMesh V) entries) = [].
Proof. induction entries; simpl; auto. Qed.

Lemma syn_writes_app (l1 l2 : list (legacy_event V)) :
  syn_writes (l1 ++ l2) = syn_writes l1 ++ syn_writes l2.
Proof. apply flat_map_app. Qed.

Lemma lc_calls_app (l1 l2 : list (legacy_event V)) :
  lc_calls (l1 ++ l2) = lc_calls l1 ++ lc_calls l2.
Proof. apply flat_map_app. Qed.

Lemma lcmesh_calls_app (l1 l2 : list (legacy_event V)) :
  lcmesh_calls (l1 ++ l2) = lcmesh_calls l1 ++ lcmesh_calls l2.
Proof. apply flat_map_app. Qed.

Lemma loop_outcome_stop pbmesh items (st st' : LegacyState V) e evs :
  legacy_trace st' = legacy_trace st ++ evs ->
  lcnum st' = lcnum st ->
  syn_writes evs = [] -> lc_calls evs = [] -> lcmesh_calls evs = [] ->
  loop_outcome pbmesh items st (st', Some e) evs 0.
Proof.
  intros Ht Hn Hs Hl Hm. unfold loop_outcome. cbn [fst snd firstn filter].
  repeat split; try assumption; try lia; try discriminate.
  destruct pbmesh; cbn [map List.length combine seq]; repeat split;
    try assumption; lia.
Qed.

(** An item that is not a light curve and appends [evs1] without calling
    [phb1.lc]. *)
Lemma loop_outcome_skip pbmesh info items (st st1 : LegacyState V) run evs1
      evs k :
  is_lc info = false ->
  legacy_trace st1 = legacy_trace st ++ evs1 ->
  lcnum st1 = lcnum st ->
  syn_writes evs1 = item_writes info ->
  lc_calls evs1 = [] -> lcmesh_calls evs1 = [] ->
  loop_outcome pbmesh items st1 run evs k ->
  loop_outcome pbmesh (info :: items) st run (evs1 ++ evs) (S k).
Proof.
  intros Hk Ht Hn Hs Hl Hm (Ht' & Hle & Hok & Hs' & Hlc).
  unfold loop_outcome. cbn [firstn filter flat_map List.length].
  rewrite Hk, syn_writes_app, lc_calls_app, lcmesh_calls_app.
  rewrite Hs, Hl, Hm, Hs', Ht', Ht, <- app_assoc. cbn [app].
  repeat split; try lia; [intros H; f_equal; auto|].
  rewrite Hn in Hlc. exact Hlc.
Qed.

Lemma loop_outcome_lc info items (st st1 : LegacyState V) run evs1 evs k :
  is_lc info = true ->
  legacy_trace st1 = legacy_trace st ++ evs1 ->
  lcnum st1 = S (lcnum st) ->
  syn_writes evs1 = item_writes info ->
  lc_calls evs1 = [(item_times info, lcnum st)] -> lcmesh_calls evs1 = [] ->
  loop_outcome false items st1 run evs k ->
  loop_outcome false (info :: items) st run (evs1 ++ evs) (S k).
Proof.
  intros Hk Ht Hn Hs Hl Hm (Ht' & Hle & Hok & Hs' & Hn' & Hm' & Hl').
  unfold loop_outcome. cbn [firstn filter flat_map List.length].
  rewrite Hk, syn_writes_app, lc_calls_app, lcmesh_calls_app.
  rewrite Hs, Hl, Hm, Hs', Hl', Hm', Hn', Ht', Ht, Hn, <- app_assoc.
  cbn [app map List.length seq combine].
  repeat split; try lia. intros H. f_equal. auto.
Qed.

Lemma loop_outcome_lcmesh info items (st st1 : LegacyState V) run evs1 evs k :
  is_lc info = true ->
  legacy_trace st1 = legacy_trace st ++ evs1 ->
  lcnum st1 = lcnum st ->
  syn_writes evs1 = item_writes info ->
  lc_calls evs1 = [] ->
  lcmesh_calls evs1 = [(item_times info, 0, lcnum st + 1)] ->
  loop_outcome true items st1 run evs k ->
  loop_outcome true (info :: items) st run (evs1 ++ evs) (S k).
Proof.
  intros Hk Ht Hn Hs Hl Hm (Ht' & Hle & Hok & Hs' & Hn' & Hl' & Hm').
  unfold loop_outcome. cbn [firstn filter flat_map List.length].
  rewrite Hk, syn_writes_app, lc_calls_app, lcmesh_calls_app.
  rewrite Hs, Hl, Hm, Hs', Hl', Hm', Hn', Ht', Ht, Hn, <- app_assoc.
  cbn [app map].
  repeat split; try lia. intros H. f_equal. auto.
Qed.

(** The loop over the work items, one group per item, from any state. *)
Lemma legacy_loop_run b compute pbmesh tolist (items : list Info.t) :
  forall st : LegacyState V,
  exists evs k,
    loop_outcome pbmesh items st
                 (legacy_loop V sqrt phb1 new_syns_filter b compute pbmesh
                              tolist (map (fun info => [info]) items) st)
                 evs k.
Proof.
  induction items as [|info items IH]; intros st.
  - exists [], 0. unfold loop_outcome. cbn. rewrite app_nil_r.
    destruct pbmesh; repeat split; lia.
  - cbn [map legacy_loop]. unfold legacy_item.
    destruct (Info.kind info =? "lc") eqn:Elc.
    + assert (Hw : item_writes info
                   = [(Info.component info, Info.dataset info, "fluxes")]).
      { unfold item_writes. now rewrite Elc. }
      destruct tolist; cbn [negb].
      2: { exists [], 0. apply loop_outcome_stop; try reflexivity.
           now rewrite app_nil_r. }
      destruct pbmesh; cbn [negb].
      * destruct (phb1_lc_mesh V phb1 (item_times info) 0 (lcnum st + 1))
          as [flux mesh].
        set (evs1 := [CallLcMesh (item_times info) 0 (lcnum st + 1);
                      SetSyn (Info.component info) (Info.dataset info)
                             "fluxes" flux]).
        destruct (legacy_fill_mesh_shape mesh "pbmesh" (item_times info)
                    (Info.dataset info) (legacy_emit evs1 st))
          as (entries & Hst & _).
        destruct (legacy_fill_mesh V sqrt new_syns_filter mesh "pbmesh"
                                   (item_times info) (Info.dataset info)
                                   (legacy_emit evs1 st))
          as [st1 [e|]]; cbn [fst] in Hst; subst st1.
        -- exists ((evs1 ++ map SetMesh entries) ++ []), 1.
           apply (loop_outcome_lcmesh
                    info items st
                    (legacy_emit (map SetMesh entries) (legacy_emit evs1 st)));
             try (unfold legacy_emit; cbn [legacy_trace lcnum];
                  now rewrite <- ?app_assoc);
             try (now rewrite ?syn_writes_app, ?lc_calls_app,
                    ?lcmesh_calls_app, ?syn_writes_mesh, ?lc_calls_mesh,
                    ?lcmesh_calls_mesh, ?Hw).
           apply loop_outcome_stop; try reflexivity.
           cbn. now rewrite app_nil_r.
        -- destruct (IH (legacy_emit (map SetMesh entries)
                                     (legacy_emit evs1 st)))
             as (evs & k & Hout).
           exists ((evs1 ++ map SetMesh entries) ++ evs), (S k).
           apply (loop_outcome_lcmesh
                    info items st
                    (legacy_emit (map SetMesh entries) (legacy_emit evs1 st)));
             try (unfold legacy_emit; cbn [legacy_trace lcnum];
                  now rewrite <- ?app_assoc);
             try (now rewrite ?syn_writes_app, ?lc_calls_app,
                    ?lcmesh_calls_app, ?syn_writes_mesh, ?lc_calls_mesh,
                    ?lcmesh_calls_mesh, ?Hw).
      * match goal with
        | |- context [legacy_loop _ _ _ _ _ _ _ _ _ ?s] =>
            destruct (IH s) as (evs & k & Hout)
        end.
        eexists (_ ++ evs), (S k).
        eapply (loop_outcome_lc info items st); [exact Elc | | | | | | exact Hout];
          try reflexivity; cbn; now rewrite ?Hw.
    + assert (Hlc : is_lc info = false) by exact Elc.
      destruct (Info.kind info =? "rv") eqn:Erv.
      * assert (Hw : item_writes info
                     = [(Info.component info, Info.dataset info, "rvs")]).
        { unfold item_writes. now rewrite Elc, Erv. }
        assert (Hb : legacy_trace (bind_dep V phb1 info st) = legacy_trace st
                     /\ lcnum (bind_dep V phb1 info st) = lcnum st).
        { unfold bind_dep. now destruct (_ || _). }
        destruct Hb as [Hbt Hbn].
        destruct (dep (bind_dep V phb1 info st)) as [d|].
        -- destruct (opt_str_is d "primary").
           { destruct tolist; cbn [negb].
             2: { eexists _, 0. apply loop_outcome_stop;
                    [cbn [legacy_emit legacy_trace]; rewrite Hbt; reflexivity
                    | exact Hbn | reflexivity..]. }
             match goal with
             | |- context [legacy_loop _ _ _ _ _ _ _ _ _ ?s] =>
                 destruct (IH s) as (evs & k & Hout)
             end.
             eexists (_ ++ evs), (S k).
             eapply (loop_outcome_skip _ info items st);
               [exact Hlc | | | | | | exact Hout];
               try (cbn [legacy_trace lcnum]; rewrite ?Hbt, ?Hbn; reflexivity);
               cbn; now rewrite ?Hw. }
           destruct (opt_str_is d "secondary").
           { destruct tolist; cbn [negb].
             2: { eexists _, 0. apply loop_outcome_stop;
                    [cbn [legacy_emit legacy_trace]; rewrite Hbt; reflexivity
                    | exact Hbn | reflexivity..]. }
             match goal with
             | |- context [legacy_loop _ _ _ _ _ _ _ _ _ ?s] =>
                 destruct (IH s) as (evs & k & Hout)
             end.
             eexists (_ ++ evs), (S k).
             eapply (loop_outcome_skip _ info items st);
               [exact Hlc | | | | | | exact Hout];
               try (cbn [legacy_trace lcnum]; rewrite ?Hbt, ?Hbn; reflexivity);
               cbn; now rewrite ?Hw. }
           exists [], 0. apply loop_outcome_stop; try reflexivity;
             [now rewrite Hbt, app_nil_r | exact Hbn].
        -- exists [], 0. apply loop_outcome_stop; try reflexivity;
             [now rewrite Hbt, app_nil_r | exact Hbn].
      * destruct (IH st) as (evs & k & Hout).
        exists ([] ++ evs), (S k).
        apply (loop_outcome_skip _ info items st st); try reflexivity;
          try assumption; [now rewrite app_nil_r|].
        unfold item_writes. now rewrite Elc, Erv.
Qed.

Lemma by_dataset_groups b compute protomesh pbmesh provided :
  exists syns,
    _extract_from_bundle_by_dataset b compute protomesh pbmesh provided
    = inr (map (fun info => [info])
               (p_needed_syns (scan_by_dataset b compute provided)),
           syns).
Proof.
  unfold _extract_from_bundle_by_dataset.
  destruct (scan_by_dataset_groups b compute provided) as [_ Hi].
  rewrite handle_protomesh_items, Hi.
  unfold _handle_automesh.
  destruct pbmesh; cbn [bind]; [|eexists; reflexivity].
  destruct (str_in (compute_kind b compute) _backends_that_support_automesh);
    cbn [bind]; [|eexists; reflexivity].
  rewrite automesh_loop_unregistered. cbn [bind]. eexists. reflexivity.
Qed.

(** The run of [legacy] on a binary: the protomesh first, then the loop
    over the work items of the by-dataset scan. *)
Lemma legacy_run b compute (protomesh pbmesh : bool) (perpass : Qc)
      (times : option TimesArg) :
  List.length (get_stars b) = 2 ->
  exists (entries : list MeshEntry) evs k,
    loop_outcome
      pbmesh
      (p_needed_syns
         (scan_by_dataset b compute (option_map times_values times)))
      (mkLegacy O O None
                (if protomesh
                 then [SetPar "phoebe_lcno" 1; CallLcMesh [perpass] 0 1]
                        ++ map SetMesh entries
                 else []))
      (legacy V sqrt phb1 new_syns_filter b compute protomesh pbmesh perpass
              times)
      evs k.
Proof.
  intros Hstars. unfold legacy.
  destruct (get_stars b) as [|p [|s [|x l]]]; try discriminate Hstars.
  destruct (by_dataset_groups b compute protomesh pbmesh
                              (option_map times_values times))
    as [syns ->].
  destruct protomesh.
  - unfold legacy_protomesh. cbn [lcnum Nat.add].
    destruct (phb1_lc_mesh V phb1 [perpass] 0 1) as [flux mesh].
    set (evs0 := [SetPar "phoebe_lcno" 1; CallLcMesh [perpass] 0 1]).
    destruct (legacy_fill_mesh_shape mesh "protomesh" [] EmptyString
                (legacy_emit evs0 (mkLegacy O O None [])))
      as (entries & Hst & _).
    destruct (legacy_fill_mesh V sqrt new_syns_filter mesh "protomesh" []
                               EmptyString
                               (legacy_emit evs0 (mkLegacy O O None [])))
      as [st1 [e|]]; cbn [fst] in Hst; subst st1; exists entries.
    + exists [], 0. apply loop_outcome_stop; try reflexivity.
      unfold legacy_emit. cbn. now rewrite app_nil_r.
    + unfold legacy_emit. cbn [legacy_trace lcnum rvnum dep app].
      apply legacy_loop_run.
  - exists []. apply legacy_loop_run.
Qed.

End LegacyLoopFacts.

(** ** LegacyAdapter: what is handed over of an automesh *)


(** X17: whatever the legacy mesh holds and whether the translation of an
    automesh ends normally or not, [new_syns.set_value] is called with
    intensity columns only, each for the dataset, one of the two stars and
    one of the times (coordinates, normals and temperatures are dropped), and
    with at most one per time for each of the columns Inorm1 and Inorm2 of
    the mesh; with exactly one when the translation ends normally and
    [new_syns.filter] finds every parameter. *)
Theorem pbmesh_translates_intensities_only :
  forall (V : Type) (sqrt : Qc -> Qc)
         (new_syns_filter : list (legacy_event V) -> MeshEntry -> bool)
         (mesh : list (string * list Qc)) (time : list Qc)
         (dataset : string) (st : LegacyState V),
  exists handed,
    fst (legacy_fill_mesh V sqrt new_syns_filter mesh "pbmesh" time dataset
                          st)
    = legacy_emit (map SetMesh handed) st
    /\ Forall (intensity_entry time dataset) handed
    /\ List.length handed
       <= List.length time
          * List.length (filter (fun key => str_in key ["Inorm1"; "Inorm2"])
                                (map fst mesh))
    /\ (snd (legacy_fill_mesh V sqrt new_syns_filter mesh "pbmesh" time
                              dataset st) = None ->
        finds_all new_syns_filter ->
        List.length handed
        = List.length time
          * List.length (filter (fun key => str_in key ["Inorm1"; "Inorm2"])
                                (map fst mesh))).
Proof.
  intros V sqrt new_syns_filter mesh time dataset st.
  unfold legacy_fill_mesh, fill_mesh_grtot.
  cbn [String.eqb Ascii.eqb Bool.eqb].
  change (fill_mesh_key mesh "pbmesh" [] time dataset)
    with (pbmesh_entries mesh time dataset).
  destruct (fill_mesh_keys_shape V new_syns_filter "pbmesh"
              (pbmesh_entries mesh time dataset) (map fst mesh) st)
    as (handed & Hst & Hs & Hall & Hsnd).
  destruct (gathered_pbmesh mesh time dataset (map fst mesh)) as [Hf Hl].
  exists handed. split; [exact Hst|]. split; [|split].
  - rewrite Forall_forall in *. intros e He.
    apply Hf. now apply (selected_incl _ _ Hs).
  - apply selected_length in Hs. lia.
  - intros Hok Hfinds. rewrite Hsnd in Hok.
    destruct (collect (pbmesh_entries mesh time dataset) (map fst mesh))
      as [e | all] eqn:Ec; [discriminate Hok|].
    rewrite (Hall (or_intror Hfinds)), (gathered_collect _ _ _ Ec).
    apply (collect_pbmesh mesh time dataset (map fst mesh) all Ec).
Qed.

Lemma pbmesh_translates_intensities_only_witness :
  exists handed,
    fst (legacy_fill_mesh nat (fun x => x) (fun _ _ => true) example_mesh
                          "pbmesh" [Q2Qc 0%Q] "lc01" (mkLegacy 0 0 None []))
    = legacy_emit (map SetMesh handed) (mkLegacy 0 0 None [])
    /\ Forall (intensity_entry [Q2Qc 0%Q] "lc01") handed
    /\ List.length handed = 1.
Proof.
  destruct (pbmesh_translates_intensities_only
              nat (fun x => x) (fun _ _ => true) example_mesh [Q2Qc 0%Q]
              "lc01" (mkLegacy 0 0 None []))
    as (handed & Hst & Hf & _ & Hlen).
  exists handed. split; [exact Hst|]. split; [exact Hf|].
  apply Hlen; [reflexivity | intros tr e; reflexivity].
Defined.


(** X20: what [legacy] fills. Whether it ends normally or with an
    exception, it has written one array for each of the first [k] work
    items of kind lc (the fluxes) or rv (the rvs), in plan order, in the
    item's own container, and no other array: the items of any other kind
    (mesh, orb, etv, ...) are passed over without an error. When it ends
    normally every work item was dealt with. *)
Theorem legacy_fills_lc_and_rv_only :
  forall (V : Type) (sqrt : Qc -> Qc) (phb1 : Phb1 V)
         (new_syns_filter : list (legacy_event V) -> MeshEntry -> bool)
         (b : Bundle) (compute : string) (protomesh pbmesh : bool)
         (perpass : Qc) (times : option TimesArg),
  exists k,
    k <= List.length
           (p_needed_syns
              (scan_by_dataset b compute (option_map times_values times)))
    /\ (snd (legacy V sqrt phb1 new_syns_filter b compute protomesh pbmesh
                    perpass times) = None
        -> k = List.length
                 (p_needed_syns
                    (scan_by_dataset b compute
                                     (option_map times_values times)))
           /\ List.length (get_stars b) = 2)
    /\ syn_writes
         (legacy_trace
            (fst (legacy V sqrt phb1 new_syns_filter b compute protomesh
                         pbmesh perpass times)))
       = flat_map item_writes
                  (firstn k (p_needed_syns
                               (scan_by_dataset
                                  b compute
                                  (option_map times_values times)))).
Proof.
  intros V sqrt phb1 new_syns_filter b compute protomesh pbmesh perpass times.
  destruct (Nat.eq_dec (List.length (get_stars b)) 2) as [Hstars | Hstars].
  - destruct (legacy_run V sqrt phb1 new_syns_filter b compute protomesh
                         pbmesh perpass times Hstars)
      as (entries & evs & k & Ht & Hle & Hok & Hs & _).
    exists k. split; [exact Hle|]. split; [auto|].
    rewrite Ht. cbn [legacy_trace]. rewrite syn_writes_app, Hs.
    destruct protomesh; [|reflexivity].
    rewrite syn_writes_app, syn_writes_mesh. reflexivity.
  - exists 0. split; [lia|]. unfold legacy.
    destruct (get_stars b) as [|p [|s [|x l]]]; cbn [fst snd legacy_trace];
      try (split; [discriminate | reflexivity]).
    now contradiction Hstars.
Qed.

(** X21: the numbering of the light curves in [legacy], for a binary. Without
    pbmesh the light curves of the plan are asked one by one with the curve
    numbers 0, 1, 2, ...; with pbmesh the counter never moves: every light
    curve is asked, together with its mesh, with the curve number 0 and the
    mesh argument 1, like the protomesh at the periastron passage. *)
Theorem legacy_light_curve_numbering :
  forall (V : Type) (sqrt : Qc -> Qc) (phb1 : Phb1 V)
         (new_syns_filter : list (legacy_event V) -> MeshEntry -> bool)
         (b : Bundle) (compute : string) (protomesh pbmesh : bool)
         (perpass : Qc) (times : option TimesArg),
    List.length (get_stars b) = 2 ->
    exists k,
      k <= List.length
             (p_needed_syns
                (scan_by_dataset b compute (option_map times_values times)))
      /\ (snd (legacy V sqrt phb1 new_syns_filter b compute protomesh pbmesh
                      perpass times)
          = None
          -> k = List.length
                   (p_needed_syns
                      (scan_by_dataset b compute
                                       (option_map times_values times))))
      /\ lc_calls
           (legacy_trace
              (fst (legacy V sqrt phb1 new_syns_filter b compute protomesh
                           pbmesh perpass times)))
         = (if pbmesh then []
            else combine
                   (map item_times
                        (filter is_lc
                           (firstn k (p_needed_syns
                                        (scan_by_dataset
                                           b compute
                                           (option_map times_values
                                                       times))))))
                   (seq 0 (List.length
                             (filter is_lc
                                (firstn k (p_needed_syns
                                             (scan_by_dataset
                                                b compute
                                                (option_map times_values
                                                            times))))))))
      /\ lcmesh_calls
           (legacy_trace
              (fst (legacy V sqrt phb1 new_syns_filter b compute protomesh
                           pbmesh perpass times)))
         = (if protomesh then [([perpass], 0, 1)] else [])
             ++ (if pbmesh
                 then map (fun info => (item_times info, 0, 1))
                          (filter is_lc
                             (firstn k (p_needed_syns
                                          (scan_by_dataset
                                             b compute
                                             (option_map times_values
                                                         times)))))
                 else []).
Proof.
  intros V sqrt phb1 new_syns_filter b compute protomesh pbmesh perpass times
         Hstars.
  destruct (legacy_run V sqrt phb1 new_syns_filter b compute protomesh pbmesh
                       perpass times Hstars)
    as (entries & evs & k & Ht & Hle & Hok & _ & Hlc).
  exists k. split; [exact Hle|]. split; [exact Hok|].
  rewrite Ht. cbn [legacy_trace lcnum] in *.
  rewrite lc_calls_app, lcmesh_calls_app.
  assert (Hpre : lc_calls
                   (if protomesh
                    then [SetPar "phoebe_lcno" 1; CallLcMesh [perpass] 0 1]
                           ++ map (@SetMesh V) entries
                    else []) = []
                 /\ lcmesh_calls
                      (if protomesh
                       then [SetPar "phoebe_lcno" 1; CallLcMesh [perpass] 0 1]
                              ++ map (@SetMesh V) entries
                       else [])
                    = if protomesh then [([perpass], 0, 1)] else []).
  { destruct protomesh; [|split; reflexivity].
    rewrite lc_calls_app, lcmesh_calls_app, lc_calls_mesh, lcmesh_calls_mesh.
    split; reflexivity. }
  destruct Hpre as [-> ->].
  destruct pbmesh.
  - destruct Hlc as (_ & -> & ->). split; reflexivity.
  - destruct Hlc as (_ & -> & ->). rewrite app_nil_r. split; reflexivity.
Qed.

Lemma legacy_light_curve_numbering_witness :
  exists k,
    k <= List.length
           (p_needed_syns (scan_by_dataset (example_bundle "legacy" "numerical")
                                           "run" (Some [Q2Qc 1%Q])))
    /\ lcmesh_calls
         (legacy_trace
            (fst (legacy nat (fun x => x) (example_phb1 "rv01")
                         (fun _ _ => true)
                         (example_bundle "legacy" "numerical") "run"
                         false true (Q2Qc 0%Q) (Some (NdArray [Q2Qc 1%Q])))))
       = map (fun info => (item_times info, 0, 1))
             (filter is_lc
                (firstn k (p_needed_syns
                             (scan_by_dataset
                                (example_bundle "legacy" "numerical")
                                "run" (Some [Q2Qc 1%Q]))))).
Proof.
  destruct (legacy_light_curve_numbering
              nat (fun x => x) (example_phb1 "rv01") (fun _ _ => true)
              (example_bundle "legacy" "numerical") "run" false true
              (Q2Qc 0%Q) (Some (NdArray [Q2Qc 1%Q])) eq_refl)
    as (k & Hle & _ & _ & Hm).
  exists k. split; [exact Hle | exact Hm].
Defined.

(** ** LegacyAdapter: the radial-velocity curves *)

Section LegacyVelocityFacts.

Variable V : Type.
Variable sqrt : Qc -> Qc.
Variable phb1 : Phb1 V.
Variable new_syns_filter : list (legacy_event V) -> MeshEntry -> bool.
Variable b : Bundle.
Variable compute : string.

Lemma is_rv_not_lc info : is_rv info = true -> (Info.kind info =? "lc") = false.
Proof.
  unfold is_rv. intros H. apply String.eqb_eq in H. now rewrite H.
Qed.

Lemma rv_calls_app (l1 l2 : list (legacy_event V)) :
  rv_calls (l1 ++ l2) = rv_calls l1 ++ rv_calls l2.
Proof. apply flat_map_app. Qed.

(** Without meshes and with times that have the method [tolist], the loop
    over items whose radial-velocity curves are known to the library and
    belong to one of the two stars. *)
Lemma legacy_loop_known_rv (items : list Info.t) :
  (forall info, In info items -> is_rv info = true ->
                known_rv_dataset phb1 info = true
                /\ (Info.component info = Some "primary"
                    \/ Info.component info = Some "secondary")) ->
  forall st : LegacyState V,
    snd (legacy_loop V sqrt phb1 new_syns_filter b compute false true
                     (map (fun info => [info]) items) st) = None
    /\ rv_calls (legacy_trace
                   (fst (legacy_loop V sqrt phb1 new_syns_filter b compute
                                     false true
                                     (map (fun info => [info]) items) st)))
       = rv_calls (legacy_trace st)
           ++ map (fun info => (str_of_component (Info.component info),
                                item_times info))
                  (filter is_rv items).
Proof.
  induction items as [|info items IH]; intros H st.
  - cbn. now rewrite app_nil_r.
  - assert (IH' := IH (fun x Hx => H x (or_intror Hx))). clear IH.
    cbn [map legacy_loop filter]. unfold legacy_item. cbn [negb].
    destruct (is_rv info) eqn:Erv.
    + rewrite (is_rv_not_lc info Erv). unfold is_rv in Erv. rewrite Erv.
      destruct (H info (or_introl eq_refl)) as [Hk Hc];
        [unfold is_rv; exact Erv|].
      unfold bind_dep. unfold known_rv_dataset in Hk. rewrite Hk.
      cbn [dep lcnum rvnum legacy_trace].
      destruct Hc as [Hc | Hc]; rewrite Hc; cbn [opt_str_is String.eqb
                                                  Ascii.eqb Bool.eqb];
        match goal with
        | |- context [legacy_loop _ _ _ _ _ _ _ _ _ ?s] =>
            destruct (IH' s) as [-> ->]
        end;
        (split; [reflexivity|]); cbn [legacy_trace map];
        rewrite rv_calls_app, <- app_assoc; cbn; rewrite ?Hc; reflexivity.
    + unfold is_rv in Erv. rewrite Erv.
      destruct (Info.kind info =? "lc").
      * match goal with
        | |- context [legacy_loop _ _ _ _ _ _ _ _ _ ?s] =>
            destruct (IH' s) as [-> ->]
        end.
        split; [reflexivity|]. cbn [legacy_trace].
        rewrite rv_calls_app. cbn. now rewrite app_nil_r.
      * apply IH'.
Qed.

(** Without meshes and with times that have the method [tolist], the loop
    up to the first radial-velocity item, when the library does not know its
    dataset. *)
Lemma legacy_loop_unknown_rv (items : list Info.t) :
  forall (k : nat) (info : Info.t) (st : LegacyState V),
    dep st = None ->
    nth_error items k = Some info ->
    (forall x, In x (firstn k items) -> is_rv x = false) ->
    is_rv info = true -> known_rv_dataset phb1 info = false ->
    snd (legacy_loop V sqrt phb1 new_syns_filter b compute false true
                     (map (fun info => [info]) items) st)
    = Some (NameError "dep")
    /\ syn_writes (legacy_trace
                     (fst (legacy_loop V sqrt phb1 new_syns_filter b compute
                                       false true
                                       (map (fun info => [info]) items) st)))
       = syn_writes (legacy_trace st)
           ++ flat_map item_writes (firstn k items).
Proof.
  induction items as [|x items IH]; intros k info st Hdep Hnth Hpre Hrv Hk;
    [destruct k; discriminate Hnth|].
  cbn [map legacy_loop]. unfold legacy_item. cbn [negb].
  destruct k as [|k].
  - injection Hnth as ->. rewrite (is_rv_not_lc info Hrv).
    unfold is_rv in Hrv. rewrite Hrv.
    unfold bind_dep. unfold known_rv_dataset in Hk. rewrite Hk, Hdep.
    cbn. now rewrite app_nil_r.
  - cbn [nth_error firstn flat_map] in *.
    assert (Hx : is_rv x = false) by (apply Hpre; now left).
    unfold is_rv in Hx. unfold item_writes at 1. rewrite Hx.
    destruct (Info.kind x =? "lc").
    + match goal with
      | |- context [legacy_loop _ _ _ _ _ _ _ _ _ ?s] =>
          destruct (IH k info s Hdep Hnth (fun y Hy => Hpre y (or_intror Hy))
                       Hrv Hk) as [-> ->]
      end.
      split; [reflexivity|]. cbn [legacy_trace].
      rewrite syn_writes_app, <- app_assoc. reflexivity.
    + apply (IH k info st Hdep Hnth (fun y Hy => Hpre y (or_intror Hy)) Hrv Hk).
Qed.

End LegacyVelocityFacts.

(** X22: [legacy] on a binary, without protomesh and pbmesh, called
    without an override of the times or with a numpy array, when every
    radial-velocity item of the plan has a dataset that the library knows as
    one of its two curves and belongs to the primary or the secondary: the
    run ends normally, and the velocity curves are asked in plan order, [rv1]
    for the items of the primary and [rv2] for those of the secondary, each
    with the times of its item. *)
Theorem legacy_known_velocity_curves :
  forall (V : Type) (sqrt : Qc -> Qc) (phb1 : Phb1 V)
         (new_syns_filter : list (legacy_event V) -> MeshEntry -> bool)
         (b : Bundle) (compute : string) (perpass : Qc)
         (times : option TimesArg),
    List.length (get_stars b) = 2 ->
    has_tolist times = true ->
    (forall info,
        In info (p_needed_syns
                   (scan_by_dataset b compute
                                    (option_map times_values times))) ->
        is_rv info = true ->
        known_rv_dataset phb1 info = true
        /\ (Info.component info = Some "primary"
            \/ Info.component info = Some "secondary")) ->
    snd (legacy V sqrt phb1 new_syns_filter b compute false false perpass
                times) = None
    /\ rv_calls (legacy_trace
                   (fst (legacy V sqrt phb1 new_syns_filter b compute false
                                false perpass times)))
       = map (fun info => (str_of_component (Info.component info),
                           item_times info))
             (filter is_rv
                     (p_needed_syns
                        (scan_by_dataset b compute
                                         (option_map times_values times)))).
Proof.
  intros V sqrt phb1 new_syns_filter b compute perpass times Hstars Htolist
         Hitems.
  unfold legacy. rewrite Htolist.
  destruct (get_stars b) as [|p [|s [|x l]]]; try discriminate Hstars.
  destruct (by_dataset_groups b compute false false
                              (option_map times_values times)) as [syns ->].
  exact (legacy_loop_known_rv V sqrt phb1 new_syns_filter b compute _ Hitems
                              (mkLegacy O O None [])).
Qed.

Lemma legacy_known_velocity_curves_witness :
  snd (legacy nat (fun x => x) (example_phb1 "rv01") (fun _ _ => true)
              two_dataset_bundle "run" false false (Q2Qc 0%Q)
              (Some (NdArray [Q2Qc 1%Q]))) = None
  /\ rv_calls (legacy_trace
                 (fst (legacy nat (fun x => x) (example_phb1 "rv01")
                              (fun _ _ => true)
                              two_dataset_bundle "run" false false
                              (Q2Qc 0%Q) (Some (NdArray [Q2Qc 1%Q])))))
     = map (fun info => (str_of_component (Info.component info),
                         item_times info))
           (filter is_rv
                   (p_needed_syns (scan_by_dataset two_dataset_bundle "run"
                                                   (Some [Q2Qc 1%Q])))).
Proof.
  apply (legacy_known_velocity_curves
           nat (fun x => x) (example_phb1 "rv01") (fun _ _ => true)
           two_dataset_bundle "run" (Q2Qc 0%Q) (Some (NdArray [Q2Qc 1%Q]))).
  - reflexivity.
  - reflexivity.
  - intros info Hin Hrv.
    vm_compute in Hin. destruct Hin as [<- | [<- | [<- | []]]];
      try discriminate Hrv; split; auto.
Defined.

(** The example: the light curve from curve 0, then the two velocity
    curves; with the times passed as a Python list the light curve already
    fails. *)
Example legacy_run_example :
  snd (legacy nat (fun x => x) (example_phb1 "rv01") (fun _ _ => true)
              two_dataset_bundle "run" false false (Q2Qc 0%Q)
              (Some (NdArray [Q2Qc 1%Q]))) = None
  /\ syn_writes (legacy_trace
                   (fst (legacy nat (fun x => x) (example_phb1 "rv01")
                                (fun _ _ => true)
                                two_dataset_bundle "run" false false
                                (Q2Qc 0%Q) (Some (NdArray [Q2Qc 1%Q])))))
     = [(None, "lc01", "fluxes"); (Some "primary", "rv01", "rvs");
        (Some "secondary", "rv01", "rvs")]
  /\ map fst (rv_calls (legacy_trace
                          (fst (legacy nat (fun x => x) (example_phb1 "rv01")
                                       (fun _ _ => true)
                                       two_dataset_bundle "run" false false
                                       (Q2Qc 0%Q)
                                       (Some (NdArray [Q2Qc 1%Q]))))))
     = ["primary"; "secondary"]
  /\ legacy nat (fun x => x) (example_phb1 "rv01") (fun _ _ => true)
            two_dataset_bundle "run" false false (Q2Qc 0%Q)
            (Some (PyList [Q2Qc 1%Q]))
     = (mkLegacy 0 0 None [], Some no_tolist).
Proof. vm_compute. repeat split. Qed.

(** X23: [legacy] on a binary, without protomesh and pbmesh, called without
    an override of the times or with a numpy array, when the first
    radial-velocity item of the plan has a dataset that is neither of the two
    curves of the library: the variable [dep] is read before it is bound and
    the run ends with a NameError, after the arrays of the items before that
    one have been written and nothing else. *)
Theorem legacy_unknown_velocity_curve :
  forall (V : Type) (sqrt : Qc -> Qc) (phb1 : Phb1 V)
         (new_syns_filter : list (legacy_event V) -> MeshEntry -> bool)
         (b : Bundle) (compute : string) (perpass : Qc)
         (times : option TimesArg) (k : nat) (info : Info.t),
    List.length (get_stars b) = 2 ->
    has_tolist times = true ->
    nth_error (p_needed_syns
                 (scan_by_dataset b compute (option_map times_values times)))
              k
    = Some info ->
    (forall x,
        In x (firstn k (p_needed_syns
                          (scan_by_dataset
                             b compute (option_map times_values times)))) ->
        is_rv x = false) ->
    is_rv info = true ->
    known_rv_dataset phb1 info = false ->
    snd (legacy V sqrt phb1 new_syns_filter b compute false false perpass
                times)
    = Some (NameError "dep")
    /\ syn_writes (legacy_trace
                     (fst (legacy V sqrt phb1 new_syns_filter b compute false
                                  false perpass times)))
       = flat_map item_writes
                  (firstn k (p_needed_syns
                               (scan_by_dataset
                                  b compute
                                  (option_map times_values times)))).
Proof.
  intros V sqrt phb1 new_syns_filter b compute perpass times k info Hstars
         Htolist Hnth Hpre Hrv Hk.
  unfold legacy. rewrite Htolist.
  destruct (get_stars b) as [|p [|s [|x l]]]; try discriminate Hstars.
  destruct (by_dataset_groups b compute false false
                              (option_map times_values times)) as [syns ->].
  exact (legacy_loop_unknown_rv V sqrt phb1 new_syns_filter b compute _ k info
                                (mkLegacy O O None []) eq_refl Hnth Hpre Hrv
                                Hk).
Qed.

Lemma legacy_unknown_velocity_curve_witness :
  snd (legacy nat (fun x => x) (example_phb1 "other") (fun _ _ => true)
              two_dataset_bundle "run" false false (Q2Qc 0%Q)
              (Some (NdArray [Q2Qc 1%Q])))
  = Some (NameError "dep")
  /\ syn_writes (legacy_trace
                   (fst (legacy nat (fun x => x) (example_phb1 "other")
                                (fun _ _ => true)
                                two_dataset_bundle "run" false false
                                (Q2Qc 0%Q) (Some (NdArray [Q2Qc 1%Q])))))
     = flat_map item_writes
                (firstn 1 (p_needed_syns
                             (scan_by_dataset two_dataset_bundle "run"
                                              (Some [Q2Qc 1%Q])))).
Proof.
  apply (legacy_unknown_velocity_curve
           nat (fun x => x) (example_phb1 "other") (fun _ _ => true)
           two_dataset_bundle "run"
           (Q2Qc 0%Q) (Some (NdArray [Q2Qc 1%Q])) 1
           (Info.mk "rv01" (Some "primary") "rv" true [Some (Q2Qc 1%Q)])).
  - reflexivity.
  - reflexivity.
  - vm_compute. reflexivity.
  - intros x Hin. vm_compute in Hin. destruct Hin as [<- | []]. reflexivity.
  - reflexivity.
  - reflexivity.
Defined.

(** ** The plan and the loop together: where the system is updated *)

Lemma mesh_updates_In (V : Type) (sv : Services V) (do_horizon : bool)
      (steps : list (Qc * list Info.t)) (t : Qc) :
  In (UpdatePositions V t) (trace V (mesh_updates sv do_horizon steps)) <->
  exists l, In (t, l) steps /\ existsb Info.needs_mesh l = true.
Proof.
  induction steps as [|[t0 l0] steps IH].
  - cbn. split; [intros [] | intros (l & [] & _)].
  - rewrite mesh_updates_cons_trace, in_app_iff, IH. unfold update_mesh.
    destruct (existsb Info.needs_mesh l0) eqn:E; cbn [trace app In].
    + split.
      * intros [[[= ->] | [[=] | [[=] | []]]] | (l & Hin & Hl)].
        -- exists l0. split; [now left | exact E].
        -- exists l. split; [now right | exact Hl].
      * intros (l & [[= -> ->] | Hin] & Hl); [left; now left|].
        right. now exists l.
    + split.
      * intros [[] | (l & Hin & Hl)]. exists l. split; [now right | exact Hl].
      * intros (l & [[= -> ->] | Hin] & Hl); [congruence|].
        right. now exists l.
Qed.

(** X25: the plan and the loop together. When the main loop over the plan
    of the by-time planner ends normally, the positions of the system are
    updated at a time exactly when some planned work item that needs a mesh
    has that time among its own times. *)
Theorem system_updated_where_a_mesh_is_needed :
  forall (V : Type) (sv : Services V) (starrefs : list string)
         (do_horizon as_generator : bool)
         (b : Bundle) (compute : string) (protomesh pbmesh : bool)
         (provided_times : option (list Qc)) (allow_oversample : bool),
    match _extract_from_bundle_by_time b compute protomesh pbmesh
                                       provided_times allow_oversample with
    | inr (times, infos, _) =>
        snd (main_loop V sv starrefs do_horizon as_generator times infos)
        = None ->
        forall t,
          In (UpdatePositions V t)
             (trace V (fst (main_loop V sv starrefs do_horizon as_generator
                                      times infos)))
          <-> exists info,
              In info (stepped_items b compute protomesh pbmesh
                                     provided_times allow_oversample)
              /\ Info.needs_mesh info = true
              /\ In (Some t) (Info.times info)
    | inl _ => False
    end.
Proof.
  intros V sv starrefs do_horizon as_generator b compute protomesh pbmesh
         provided allow.
  destruct (by_time_steps b compute protomesh pbmesh provided allow)
    as (grid & infos & S & -> & Hlen & Hreg & Hperm & _ & _).
  intros Hok t.
  (* the calls on the system are those of the mesh updates of all steps *)
  assert (Hsys : filter is_system
                        (trace V (fst (main_loop V sv starrefs do_horizon
                                                 as_generator grid infos)))
                 = trace V (mesh_updates sv do_horizon (combine grid infos))).
  { destruct (main_loop_run V sv starrefs do_horizon grid infos)
      as (evs & e & k & Ht & Hf & _ & Hs & _ & He).
    cbv zeta in *.
    assert (e = None) as ->.
    { destruct as_generator; [rewrite Ht in Hok | rewrite Hf in Hok];
        exact Hok. }
    cbn [is_none] in *. rewrite (proj1 He eq_refl), firstn_all in Hs.
    destruct as_generator; [rewrite Ht | rewrite Hf]; cbn [fst trace];
      [exact Hs|].
    rewrite filter_app, (filter_filter_sub is_system).
    - rewrite Hs. cbn. now rewrite app_nil_r.
    - intros ev Hev. now destruct ev. }
  transitivity (In (UpdatePositions V t)
                   (filter is_system
                           (trace V (fst (main_loop V sv starrefs do_horizon
                                                    as_generator grid infos))))).
  { rewrite filter_In. cbn [is_system]. tauto. }
  rewrite Hsys, mesh_updates_In.
  (* the active items of a step are the planned items at their own times *)
  split.
  - intros (l & Hin & Hl). apply existsb_exists in Hl.
    destruct Hl as (info & Hi & Hn). exists info.
    assert (Ha : active_at S info t).
    { apply (active_at_perm _ _ _ _ Hperm). now exists l. }
    apply (registers_active _ _ _ info t Hreg) in Ha.
    destruct Ha as [(l' & [] & _) | Ha]. apply regs_of_In in Ha.
    unfold stepped_items. tauto.
  - intros (info & Hin & Hn & Ht).
    assert (Ha : active_at (combine grid infos) info t).
    { apply (active_at_perm S); [now symmetry|].
      apply (registers_active _ _ _ info t Hreg). right.
      apply regs_of_In. split; assumption. }
    destruct Ha as (l & Hl & Hi). exists l. split; [exact Hl|].
    apply existsb_exists. now exists info.
Qed.

(** ** Exposure-time oversampling: the number of times *)

Lemma flat_map_length_const {A B : Type} (f : A -> list B) (n : nat)
      (l : list A) :
  (forall x, List.length (f x) = n) ->
  List.length (flat_map f l) = n * List.length l.
Proof.
  intros H. induction l as [|x l IH]; simpl; [lia|].
  rewrite length_app, H, IH. lia.
Qed.

(** X26: the number of times of a work item. Where oversampling applies
    the resolved time array has [fti_oversample] entries for every time of the
    (overridden) dataset, otherwise one. So an oversampled light curve whose
    count is 0 has no time left, and its dataset silently drops out of the
    plan. *)
Theorem resolved_times_count :
  forall (b : Bundle) (compute : string) (provided_times : option (list Qc))
         (allow_oversample : bool) (dataset kind : string)
         (this_times : list Qc),
    List.length (resolve_times b compute provided_times allow_oversample
                               dataset kind this_times)
    = (if oversample_applies b compute allow_oversample dataset kind
       then fti_oversample b dataset compute else 1)
      * List.length (override_times provided_times this_times)
    /\ (oversample_applies b compute allow_oversample dataset kind = true ->
        fti_oversample b dataset compute = 0 ->
        forall st component,
          obs_kind b dataset component = kind ->
          extract_component_by_time b compute provided_times allow_oversample
                                    dataset st component
          = st).
Proof.
  intros b compute provided allow dataset kind this_times.
  assert (Hlen : forall ts,
             List.length (resolve_times b compute provided allow dataset kind ts)
             = (if oversample_applies b compute allow dataset kind
                then fti_oversample b dataset compute else 1)
               * List.length (override_times provided ts)).
  { intros ts. unfold resolve_times.
    destruct (oversample_applies b compute allow dataset kind); [|lia].
    unfold oversample_times. apply flat_map_length_const.
    intros t. apply linspace_length. }
  split; [apply Hlen|].
  intros Happ Hzero st component Hkind. unfold extract_component_by_time.
  rewrite Hkind.
  destruct (is_none component && negb (str_in kind ["lc"; "mesh"]));
    [reflexivity|].
  destruct (obs_times b dataset component (_timequalifier_by_kind kind))
    as [ts|]; [|reflexivity].
  specialize (Hlen ts). rewrite Happ, Hzero in Hlen.
  destruct (resolve_times b compute provided allow dataset kind ts);
    [reflexivity | discriminate Hlen].
Qed.

(** A light curve oversampled with count 0 is not planned at all. *)
Example oversample_count_zero_example :
  oversample_applies (oversampled_bundle (Q2Qc (1 # 10)%Q) 0) "run" true
                     "lc01" "lc" = true
  /\ p_needed_syns (scan_by_time (oversampled_bundle (Q2Qc (1 # 10)%Q) 0)
                                 "run" None true) = [].
Proof. split; reflexivity. Qed.

(** ** LegacyAdapter: when the translation of a protomesh succeeds *)

Lemma dict_get_Some_iff {V : Type} (k : string) (d : list (string * V)) :
  (exists v, dict_get k d = Some v) <-> In k (map fst d).
Proof.
  induction d as [|[k0 v0] d IH]; cbn [dict_get map fst In].
  - split; [intros [v H]; discriminate H | intros []].
  - destruct (k =? k0) eqn:E.
    + apply String.eqb_eq in E. subst. split; [now left | intros _; eauto].
    + apply str_eqb_neq in E. rewrite IH. split; [now right|].
      intros [H | H]; [congruence | exact H].
Qed.

Lemma collect_inr_iff {A B : Type} (f : A -> result (list B)) (l : list A) :
  (exists ys, collect f l = inr ys) <->
  (forall x, In x l -> exists y, f x = inr y).
Proof.
  induction l as [|x l IH]; cbn [collect].
  - split; [intros _ x [] | intros _; eauto].
  - unfold bind. split.
    + intros [ys H] y [<- | Hy].
      * destruct (f x) as [e | v]; [discriminate H | eauto].
      * destruct (f x) as [e | v]; [discriminate H|].
        destruct (collect f l) as [e | rest]; [discriminate H|].
        apply (proj1 IH); eauto.
    + intros H. destruct (H x (or_introl eq_refl)) as [v ->].
      destruct (proj2 IH (fun y Hy => H y (or_intror Hy))) as [rest ->].
      eauto.
Qed.

Lemma collect_singletons {A B : Type} (f : A -> result B) (P : B -> Prop)
      (l : list A) :
  (forall x y, f x = inr y -> P y) ->
  forall ys,
    collect (fun x => y <- f x;; inr [y]) l = inr ys ->
    List.length ys = List.length l /\ Forall P ys.
Proof.
  intros HP. induction l as [|x l IH]; intros ys; cbn [collect].
  - intros [= <-]. split; [reflexivity | constructor].
  - unfold bind. destruct (f x) as [e | y] eqn:E; [discriminate|].
    destruct (collect _ l) as [e | rest] eqn:Ec; [discriminate|].
    intros [= <-]. destruct (IH rest) as [Hl Hf]; [reflexivity|].
    cbn [app List.length]. split; [now rewrite Hl|].
    constructor; [exact (HP x y E) | exact Hf].
Qed.

Section ProtomeshSuccess.

Variable sqrt : Qc -> Qc.

Lemma grtot_of_inr_iff (mesh : list (string * list Qc)) (n : string) :
  (exists g, grtot_of sqrt mesh n = inr g) <->
  In ("grx" ++ n)%string (map fst mesh)
  /\ In ("gry" ++ n)%string (map fst mesh)
  /\ In ("grz" ++ n)%string (map fst mesh).
Proof.
  rewrite <- !dict_get_Some_iff. unfold grtot_of, mesh_get, bind.
  destruct (dict_get ("grx" ++ n) mesh) as [gx|];
    [|split; [intros [g H]; discriminate H | intros ([v H] & _); discriminate H]].
  destruct (dict_get ("gry" ++ n) mesh) as [gy|];
    [|split; [intros [g H]; discriminate H
             | intros (_ & [v H] & _); discriminate H]].
  destruct (dict_get ("grz" ++ n) mesh) as [gz|];
    [|split; [intros [g H]; discriminate H
             | intros (_ & _ & [v H]); discriminate H]].
  split; [intros _; repeat split; eexists; reflexivity
         | intros _; eexists; reflexivity].
Qed.

Lemma protomesh_entry_inr_iff mesh (g1 g2 : list Qc) (key : string) :
  In key (map fst mesh) ->
  (exists e, protomesh_entry mesh [g1; g2] key = inr e) <->
  (exists r, ret_dict key = inr r).
Proof.
  intros Hin. apply dict_get_Some_iff in Hin. destruct Hin as [v Hv].
  unfold protomesh_entry, mesh_get, bind. rewrite Hv.
  destruct (ret_dict key) as [e | [[c q] u]] eqn:Er.
  - split; intros [x H]; discriminate H.
  - split; [eauto|]. intros _.
    destruct (String.substring 0 2 key =? "gr"); [|eauto].
    unfold ret_dict, bind in Er.
    destruct (last_digit key) as [e | n]; [discriminate Er|].
    destruct (Nat.eqb n 1) eqn:E1.
    { apply Nat.eqb_eq in E1. subst. cbn. eauto. }
    destruct (Nat.eqb n 2) eqn:E2; [|discriminate Er].
    apply Nat.eqb_eq in E2. subst. cbn. eauto.
Qed.

Lemma protomesh_entry_tags mesh grtot key e :
  protomesh_entry mesh grtot key = inr e ->
  e_dataset e = "protomesh" /\ e_times e = None.
Proof.
  unfold protomesh_entry, bind.
  destruct (ret_dict key) as [e0 | [[c q] u]]; [discriminate|].
  destruct (mesh_get mesh key) as [e0 | v]; [discriminate|].
  destruct (String.substring 0 2 key =? "gr").
  - destruct (last_digit key) as [e0 | n]; [discriminate|].
    destruct (nth_error grtot (n - 1)); [|discriminate].
    intros [= <-]. split; reflexivity.
  - intros [= <-]. split; reflexivity.
Qed.

(** X27: when the translation of a protomesh succeeds, for a mesh whose
    columns have one length (numpy refuses to add or divide columns of
    different lengths). It succeeds exactly when the mesh holds the six
    gradient columns of the two stars and [ret_dict] accepts every key of the
    mesh; it then hands over one entry per column of the mesh, each for the
    dataset protomesh and without a time. In particular the lookup of the
    gradient norm by the digit of the key never fails. *)
Theorem protomesh_translation_succeeds_iff :
  forall (mesh : list (string * list Qc)) (time : list Qc) (dataset : string),
    same_length_columns mesh ->
    ((exists entries, fill_mesh sqrt mesh "protomesh" time dataset = inr entries)
     <->
     (forall column,
         In column ["grx1"; "gry1"; "grz1"; "grx2"; "gry2"; "grz2"] ->
         In column (map fst mesh))
     /\ (forall key, In key (map fst mesh) -> exists r, ret_dict key = inr r))
    /\ (forall entries,
           fill_mesh sqrt mesh "protomesh" time dataset = inr entries ->
           List.length entries = List.length mesh
           /\ Forall (fun e => e_dataset e = "protomesh" /\ e_times e = None)
                     entries).
Proof.
  intros mesh time dataset _. unfold fill_mesh.
  cbn [String.eqb Ascii.eqb Bool.eqb].
  pose proof (grtot_of_inr_iff mesh "1") as H1.
  pose proof (grtot_of_inr_iff mesh "2") as H2.
  cbn [String.append] in H1, H2.
  split.
  - split.
    + intros [entries H]. unfold bind at 1 2 in H.
      destruct (grtot_of sqrt mesh "1") as [e | g1]; [discriminate H|].
      destruct (grtot_of sqrt mesh "2") as [e | g2]; [discriminate H|].
      cbn [bind] in H. split.
      * destruct (proj1 H1 (ex_intro _ g1 eq_refl)) as (? & ? & ?).
        destruct (proj1 H2 (ex_intro _ g2 eq_refl)) as (? & ? & ?).
        intros c [<- | [<- | [<- | [<- | [<- | [<- | []]]]]]]; assumption.
      * intros key Hkey. apply (protomesh_entry_inr_iff mesh g1 g2 key Hkey).
        destruct (proj1 (collect_inr_iff _ _) (ex_intro _ entries H) key Hkey)
          as [y Hy].
        unfold bind in Hy.
        destruct (protomesh_entry mesh [g1; g2] key); [discriminate Hy | eauto].
    + intros [Hcols Hkeys].
      destruct (proj2 H1) as [g1 ->]; [repeat split; apply Hcols; simpl; auto|].
      destruct (proj2 H2) as [g2 ->];
        [repeat split; apply Hcols; simpl; auto 10|].
      cbn [bind]. apply collect_inr_iff. intros key Hkey.
      destruct (proj2 (protomesh_entry_inr_iff mesh g1 g2 key Hkey)
                      (Hkeys key Hkey)) as [e ->].
      cbn [bind]. eauto.
  - intros entries H. unfold bind at 1 2 in H.
    destruct (grtot_of sqrt mesh "1") as [e | g1]; [discriminate H|].
    destruct (grtot_of sqrt mesh "2") as [e | g2]; [discriminate H|].
    cbn [bind] in H.
    rewrite <- (length_map fst mesh).
    apply (collect_singletons (protomesh_entry mesh [g1; g2])
                              (fun e => e_dataset e = "protomesh"
                                        /\ e_times e = None));
      [|exact H].
    intros key e. apply protomesh_entry_tags.
Qed.
End ProtomeshSuccess.

Lemma protomesh_translation_succeeds_iff_witness :
  exists entries,
    fill_mesh example_sqrt example_mesh "protomesh" [] "lc01" = inr entries
    /\ List.length entries = List.length example_mesh
    /\ Forall (fun e => e_dataset e = "protomesh" /\ e_times e = None)
              entries.
Proof.
  assert (Hm : same_length_columns example_mesh)
    by (exists 1; repeat constructor).
  destruct (protomesh_translation_succeeds_iff
              example_sqrt example_mesh [] "lc01" Hm) as [Hiff Hshape].
  destruct (proj2 Hiff) as [entries He].
  - split.
    + intros column Hc. simpl in Hc. simpl. intuition.
    + intros key Hk. simpl in Hk.
      repeat (destruct Hk as [<- | Hk]; [eexists; reflexivity|]).
      destruct Hk.
  - exists entries. split; [exact He|]. now apply Hshape.
Defined.

(** The mesh of the examples is translated; without its gradients of the
    second star it is not. *)
Example protomesh_translation_example :
  List.length (show_entries (fill_mesh example_sqrt example_mesh "protomesh"
                                       [] "lc01")) = 9
  /\ fill_mesh example_sqrt (firstn 6 example_mesh) "protomesh" [] "lc01"
     = inl (KeyError "grx2").
Proof. split; reflexivity. Qed.


(** ** The plan and the loop together: the columns of the automesh *)

Section OrchestratorIncludes.

Variable V : Type.
Variable sv : Services V.
Variable starrefs : list string.
Variable do_horizon : bool.

Local Abbreviation stmt := (LoopState V -> LoopState V * option py_error).

Lemma appends_grows (P : event V -> bool) (f : stmt) : appends P f -> grows f.
Proof.
  intros H [tr h]. destruct (H h) as (evs & e & _ & E).
  exists evs. now rewrite E.
Qed.

Lemma includes_seq2_l (ev : event V) (f g : stmt) :
  includes ev f -> grows g -> includes ev (seq2 V f g).
Proof.
  intros Hf Hg st st'. unfold seq2.
  destruct (f st) as [st1 [e|]] eqn:E; [discriminate|].
  intros H. destruct (Hg st1) as [evs Hevs]. rewrite H in Hevs.
  cbn [fst] in Hevs. rewrite Hevs. apply in_or_app. left. now apply (Hf st).
Qed.

Lemma includes_seq2_r (ev : event V) (f g : stmt) :
  includes ev g -> includes ev (seq2 V f g).
Proof.
  intros Hg st st'. unfold seq2.
  destruct (f st) as [st1 [e|]]; [discriminate|]. apply Hg.
Qed.

Lemma includes_for_each {A : Type} (ev : event V) (body : A -> stmt)
      (P : event V -> bool) (l : list A) (x : A) :
  In x l -> includes ev (body x) -> (forall y, appends P (body y)) ->
  includes ev (for_each V body l).
Proof.
  intros Hin Hx Hall. induction l as [|y l IH]; [destruct Hin|].
  cbn [for_each]. destruct Hin as [-> | Hin].
  - apply includes_seq2_l; [exact Hx|].
    apply (appends_grows P). apply appends_for_each. intros. apply Hall.
  - apply includes_seq2_r. now apply IH.
Qed.

Lemma includes_after_emit (ev : event V) (evs : list (event V)) (g : stmt) :
  includes ev g -> includes ev (fun st => g (emit V evs st)).
Proof. intros Hg st st' H. exact (Hg _ _ H). Qed.

Lemma includes_emitted (ev : event V) (evs : list (event V)) (g : stmt)
      (P : event V -> bool) :
  In ev evs -> appends P g -> includes ev (fun st => g (emit V evs st)).
Proof.
  intros Hin Hg st st' H.
  destruct (appends_grows P g Hg (emit V evs st)) as [evs' Hevs].
  rewrite H in Hevs. cbn [fst] in Hevs. rewrite Hevs. unfold emit.
  cbn [trace]. apply in_or_app. left. apply in_or_app. now right.
Qed.

(** The columns that the mesh of [info] gets for the item [infomesh]. *)
Lemma fill_dependent_includes info time infomesh :
  wants_automesh infomesh = true ->
  includes (Assign V (mesh_slot info infomesh time) "pblum"
                   (Ext V (compute_luminosity V sv (Info.component info)
                                              (Info.dataset infomesh))))
           (fill_dependent V sv info time infomesh)
  /\ forall indep,
      In indep (dataset_columns (Info.kind infomesh)) ->
      includes (Assign V (mesh_slot info infomesh time) indep
                       (Ext V (mesh_dependent
                                 V sv (Info.component info)
                                 (indep ++ ":" ++ Info.dataset infomesh))))
               (fill_dependent V sv info time infomesh).
Proof.
  unfold wants_automesh, str_in. cbn [existsb]. rewrite orb_false_r.
  intros Hw. unfold fill_dependent, dataset_columns. rewrite Hw.
  destruct (set_value_error V sv "pblum" time (Info.dataset infomesh)
                            (Info.component info));
    [split; [|intros indep _]; intros st st' H; discriminate H|].
  destruct (dict_get (Info.kind infomesh) indeps) as [qualifiers|];
    [|split; [|intros indep []]; intros st st' H; discriminate H].
  split.
  - apply (includes_emitted _ _ (for_each V (fill_indep V sv info infomesh time)
                                          qualifiers) is_assign);
      [now left|].
    apply appends_for_each. intros. apply fill_indep_appends.
  - intros indep Hin.
    apply (includes_after_emit
             _ _ (for_each V (fill_indep V sv info infomesh time) qualifiers)).
    apply (includes_for_each _ _ is_assign _ indep Hin);
      [|intros; apply fill_indep_appends].
    intros st st'. unfold fill_indep.
    destruct (set_value_error V sv indep time (Info.dataset infomesh)
                              (Info.component info)); [discriminate|].
    intros [= <-]. unfold emit. cbn [trace]. apply in_or_app. right. now left.
Qed.

Lemma fill_info_mesh_includes (ev : event V) infolist i time info infomesh :
  Info.kind info = "mesh" -> In infomesh infolist ->
  includes ev (fill_dependent V sv info time infomesh) ->
  includes ev (fill_info V sv starrefs do_horizon infolist i time info).
Proof.
  intros Hk Hin Hev. unfold fill_info. rewrite Hk.
  cbn [String.eqb Ascii.eqb Bool.eqb]. unfold fill_mesh_info.
  apply (includes_after_emit
           _ _ (seq2 V (fill_horizon V do_horizon (this_syn_of info time)
                                     (cind_of starrefs (Info.component info)))
                     (seq2 V (fill_horizon_analytic
                                V sv do_horizon (this_syn_of info time) info
                                i time (cind_of starrefs (Info.component info)))
                           (for_each V (fill_dependent V sv info time)
                                     infolist)))).
  apply includes_seq2_r, includes_seq2_r.
  apply (includes_for_each _ _ is_assign _ infomesh Hin Hev).
  intros. apply fill_dependent_appends.
Qed.

Lemma step_includes (ev : event V) as_generator i time infolist info infomesh :
  In info infolist -> Info.kind info = "mesh" -> In infomesh infolist ->
  includes ev (fill_dependent V sv info time infomesh) ->
  includes ev (step V sv starrefs do_horizon as_generator i time infolist).
Proof.
  intros Hi Hk Hm Hev st st' H. unfold step in H.
  refine (includes_seq2_l ev _ _ _ _ _ _ H).
  - apply (includes_for_each _ _ is_write _ info Hi);
      [|intros; apply fill_info_appends].
    now apply (fill_info_mesh_includes ev infolist i time info infomesh).
  - intros [tr h]. destruct as_generator; cbn; eexists;
      [reflexivity | now rewrite app_nil_r].
Qed.

Lemma main_loop_from_grows as_generator steps i :
  grows (main_loop_from V sv starrefs do_horizon as_generator i steps).
Proof.
  intros [tr h].
  destruct (main_loop_from_run V sv starrefs do_horizon steps i h)
    as (evs & e & k & Ht & Hf & _).
  destruct as_generator; [rewrite Ht | rewrite Hf]; eexists; reflexivity.
Qed.

Lemma main_loop_from_includes (ev : event V) as_generator steps time infolist :
  In (time, infolist) steps ->
  (forall i, includes ev (step V sv starrefs do_horizon as_generator i time
                               infolist)) ->
  forall i,
    includes ev (main_loop_from V sv starrefs do_horizon as_generator i steps).
Proof.
  intros Hin Hstep. induction steps as [|[t l] steps IH]; intros i;
    [destruct Hin|].
  cbn [main_loop_from]. destruct Hin as [[= -> ->] | Hin].
  - apply includes_seq2_l; [apply Hstep | apply main_loop_from_grows].
  - apply includes_seq2_r. now apply IH.
Qed.

Lemma main_loop_includes (ev : event V) as_generator times infos time infolist
      info infomesh :
  In (time, infolist) (combine times infos) ->
  In info infolist -> Info.kind info = "mesh" -> In infomesh infolist ->
  includes ev (fill_dependent V sv info time infomesh) ->
  forall st',
    main_loop V sv starrefs do_horizon as_generator times infos = (st', None) ->
    In ev (trace V st').
Proof.
  intros Hin Hi Hk Hm Hev st' H. unfold main_loop in H.
  refine (includes_seq2_l ev _ _ _ _ _ _ H).
  - apply (main_loop_from_includes ev as_generator _ time infolist Hin).
    intros i. now apply (step_includes ev as_generator i time infolist
                                       info infomesh).
  - intros [tr h]. destruct as_generator; cbn; eexists;
      [now rewrite app_nil_r | reflexivity].
Qed.

End OrchestratorIncludes.

Lemma combine_NoDup_fun {A B : Type} (l1 : list A) (l2 : list B) x y y' :
  NoDup l1 -> In (x, y) (combine l1 l2) -> In (x, y') (combine l1 l2) ->
  y = y'.
Proof.
  revert l2. induction l1 as [|a l1 IH]; intros [|b l2] Hnd H1 H2;
    simpl in *; try contradiction.
  inversion Hnd as [|? ? Hnin Hnd']; subst.
  destruct H1 as [H1 | H1], H2 as [H2 | H2].
  - congruence.
  - exfalso. apply Hnin. injection H1 as -> _.
    eapply in_combine_l; eassumption.
  - exfalso. apply Hnin. injection H2 as -> _.
    eapply in_combine_l; eassumption.
  - now apply (IH l2).
Qed.

(** X28: the plan and the loop together, with pbmesh. When the main loop
    over the plan of the by-time planner ends normally, then for every item
    from which the automesh times are taken, every time of that item and
    every body of the hierarchy, the mesh stored for that body at that time
    has received, under the dataset of the item, the passband luminosity and
    all the intensity columns of the item's kind. *)
Theorem automesh_receives_dataset_columns :
  forall (V : Type) (sv : Services V) (starrefs : list string)
         (do_horizon as_generator : bool)
         (b : Bundle) (compute : string) (protomesh : bool)
         (provided_times : option (list Qc)) (allow_oversample : bool),
    str_in (compute_kind b compute) _backends_that_support_automesh = true ->
    match _extract_from_bundle_by_time b compute protomesh true
                                       provided_times allow_oversample with
    | inr (times, infos, _) =>
        forall st',
          main_loop V sv starrefs do_horizon as_generator times infos
          = (st', None) ->
          forall item t component,
            In item (needs_mesh_infos
                       (p_needed_syns (scan_by_time b compute provided_times
                                                    allow_oversample)
                          ++ protomesh_items b compute protomesh)) ->
            In (Some t) (Info.times item) ->
            In component (get_meshables b) ->
            In (Assign V (mkSlot (Some component) (Info.dataset item)
                                 "mesh" (Some t))
                       "pblum"
                       (Ext V (compute_luminosity V sv (Some component)
                                                  (Info.dataset item))))
               (trace V st')
            /\ forall indep,
                In indep (dataset_columns (Info.kind item)) ->
                In (Assign V (mkSlot (Some component) (Info.dataset item)
                                     "mesh" (Some t))
                           indep
                           (Ext V (mesh_dependent
                                     V sv (Some component)
                                     (indep ++ ":" ++ Info.dataset item))))
                   (trace V st')
    | inl _ => False
    end.
Proof.
  intros V sv starrefs do_horizon as_generator b compute protomesh provided
         allow Hengine.
  pose proof (scan_by_time_ok b compute provided allow) as Hok.
  destruct (by_time_steps b compute protomesh true provided allow)
    as (grid & infos & S & -> & Hlen & Hreg & Hperm & Hgrid & _).
  intros st' Hrun item t component Hitem Ht Hcomp.
  set (needed1 := p_needed_syns (scan_by_time b compute provided allow)
                    ++ protomesh_items b compute protomesh) in *.
  set (auto := automesh_info (automesh_times needed1) component).
  (* the item and the automesh item of the component are planned *)
  destruct (needs_mesh_infos_In _ _ Hitem) as [Hin Hw].
  assert (Hscan : In item (p_needed_syns
                             (scan_by_time b compute provided allow))).
  { unfold needed1 in Hin. apply in_app_or in Hin.
    destruct Hin as [Hin | Hin]; [exact Hin|].
    unfold protomesh_items in Hin.
    destruct (protomesh && _); [|destruct Hin].
    apply in_map_iff in Hin. destruct Hin as (c & <- & _). discriminate Hw. }
  assert (Hauto : In auto (automesh_items b compute true needed1)).
  { unfold automesh_items. cbn [andb]. rewrite Hengine. now apply in_map. }
  assert (Htime : In (Some t) (Info.times auto)).
  { unfold auto, automesh_info, automesh_times. cbn [Info.times].
    apply sort_otimes_In, nub_otimes_In_iff, in_flat_map. eauto. }
  (* both are active at [t], in the same time step *)
  assert (Hact : forall info,
             In info (p_needed_syns (scan_by_time b compute provided allow)
                        ++ automesh_items b compute true needed1) ->
             In (Some t) (Info.times info) ->
             active_at (combine grid infos) info t).
  { intros info Hi Hti. apply (active_at_perm S); [now symmetry|].
    apply (registers_active _ _ _ info t Hreg). right.
    apply regs_of_In. split; assumption. }
  destruct (Hact item (in_or_app _ _ _ (or_introl Hscan)) Ht)
    as (l & Hl & Hil).
  destruct (Hact auto (in_or_app _ _ _ (or_intror Hauto)) Htime)
    as (l' & Hl' & Hal).
  assert (l' = l) as ->.
  { apply (combine_NoDup_fun grid infos t); try assumption.
    eapply Permutation_NoDup; [symmetry; exact Hgrid | apply (ok_nodup _ Hok)]. }
  (* the fill of the automesh item at [t] writes the columns of the item *)
  destruct (fill_dependent_includes V sv auto t item Hw) as [Hp Hq].
  split.
  - exact (main_loop_includes V sv starrefs do_horizon _ as_generator grid infos
                              t l auto item Hl Hal eq_refl Hil Hp st' Hrun).
  - intros indep Hindep.
    exact (main_loop_includes V sv starrefs do_horizon _ as_generator grid infos
                              t l auto item Hl Hal eq_refl Hil
                              (Hq indep Hindep) st' Hrun).
Qed.

Lemma automesh_receives_dataset_columns_witness :
  match _extract_from_bundle_by_time (example_bundle "phoebe" "numerical")
                                     "run" true true None true with
  | inr (times, infos, _) =>
      forall st',
        main_loop nat (example_services "roche" "marching")
                  ["primary"; "secondary"] true false times infos
        = (st', None) ->
        forall item t component,
          In item (needs_mesh_infos
                     (p_needed_syns (scan_by_time
                                       (example_bundle "phoebe" "numerical")
                                       "run" None true)
                        ++ protomesh_items (example_bundle "phoebe" "numerical")
                                           "run" true)) ->
          In (Some t) (Info.times item) ->
          In component (get_meshables (example_bundle "phoebe" "numerical")) ->
          In (Assign nat (mkSlot (Some component) (Info.dataset item)
                                 "mesh" (Some t))
                     "pblum"
                     (Ext nat (compute_luminosity
                                 nat (example_services "roche" "marching")
                                 (Some component) (Info.dataset item))))
             (trace nat st')
          /\ forall indep,
              In indep (dataset_columns (Info.kind item)) ->
              In (Assign nat (mkSlot (Some component) (Info.dataset item)
                                     "mesh" (Some t))
                         indep
                         (Ext nat (mesh_dependent
                                     nat (example_services "roche" "marching")
                                     (Some component)
                                     (indep ++ ":" ++ Info.dataset item))))
                 (trace nat st')
  | inl _ => False
  end.
Proof.
  apply (automesh_receives_dataset_columns
           nat (example_services "roche" "marching") ["primary"; "secondary"]
           true false (example_bundle "phoebe" "numerical") "run" true None
           true).
  reflexivity.
Defined.


(** ** LegacyAdapter: the meshes of the light curves *)

Section LegacyMeshFacts.

Variable V : Type.
Variable sqrt : Qc -> Qc.
Variable phb1 : Phb1 V.
Variable new_syns_filter : list (legacy_event V) -> MeshEntry -> bool.
Variable b : Bundle.
Variable compute : string.

Lemma mesh_writes_app (l1 l2 : list (legacy_event V)) :
  mesh_writes (l1 ++ l2) = mesh_writes l1 ++ mesh_writes l2.
Proof. apply flat_map_app. Qed.

Lemma mesh_writes_mesh (entries : list MeshEntry) :
  mesh_writes (map (@SetMesh V) entries) = entries.
Proof. induction entries as [|e l IH]; simpl; [reflexivity | now rewrite IH]. Qed.

(** With pbmesh, a loop that ends normally has handed over, for every light
    curve in turn, a selection from the entries built from the mesh returned
    with its fluxes. *)
Lemma legacy_loop_meshes tolist (items : list Info.t) :
  forall st : LegacyState V,
    snd (legacy_loop V sqrt phb1 new_syns_filter b compute true tolist
                     (map (fun info => [info]) items) st) = None ->
    lcnum (fst (legacy_loop V sqrt phb1 new_syns_filter b compute true tolist
                            (map (fun info => [info]) items) st))
    = lcnum st
    /\ exists handed,
        mesh_writes (legacy_trace
                       (fst (legacy_loop V sqrt phb1 new_syns_filter b
                                         compute true tolist
                                         (map (fun info => [info]) items)
                                         st)))
        = mesh_writes (legacy_trace st) ++ handed
        /\ selected handed
                    (flat_map (item_mesh_entries sqrt phb1 (lcnum st + 1))
                              (filter is_lc items))
        /\ (finds_all new_syns_filter ->
            handed = flat_map (item_mesh_entries sqrt phb1 (lcnum st + 1))
                              (filter is_lc items)).
Proof.
  induction items as [|info items IH]; intros st.
  - intros _. cbn. split; [reflexivity|]. exists [].
    rewrite app_nil_r. split; [reflexivity|]. split; [constructor|auto].
  - assert (Hf : filter is_lc (info :: items)
                 = if Info.kind info =? "lc" then info :: filter is_lc items
                   else filter is_lc items) by reflexivity.
    rewrite Hf. clear Hf.
    cbn [map legacy_loop]. unfold legacy_item.
    destruct (Info.kind info =? "lc") eqn:Elc.
    + destruct tolist; cbn [negb]; [|intros H; discriminate H].
      cbn [flat_map]. unfold item_mesh_entries at 1 3.
      destruct (phb1_lc_mesh V phb1 (item_times info) 0 (lcnum st + 1))
        as [flux mesh]. cbn [snd].
      set (evs1 := [CallLcMesh (item_times info) 0 (lcnum st + 1);
                    SetSyn (Info.component info) (Info.dataset info)
                           "fluxes" flux]).
      destruct (legacy_fill_mesh_shape V sqrt new_syns_filter mesh "pbmesh"
                  (item_times info) (Info.dataset info) (legacy_emit evs1 st))
        as (entries & Hst & Hc).
      destruct (legacy_fill_mesh V sqrt new_syns_filter mesh "pbmesh"
                                 (item_times info) (Info.dataset info)
                                 (legacy_emit evs1 st))
        as [st1 [e|]]; cbn [fst snd] in Hst, Hc; subst st1;
        [intros H; discriminate H|].
      destruct (fill_mesh sqrt mesh "pbmesh" (item_times info)
                          (Info.dataset info)) as [e | all];
        [discriminate Hc|].
      destruct Hc as (_ & Hsel & Hall). intros Hok.
      destruct (IH _ Hok) as (Hn & rest & Hm & Hsel' & Hall').
      rewrite Hn, Hm. unfold legacy_emit in *. cbn [lcnum legacy_trace] in *.
      split; [reflexivity|]. exists (entries ++ rest).
      split; [|split].
      * rewrite !mesh_writes_app, mesh_writes_mesh.
        cbn [mesh_writes flat_map evs1 app].
        now rewrite app_nil_r, <- app_assoc.
      * now apply selected_app.
      * intros Hfinds. now rewrite (Hall (or_intror Hfinds)), (Hall' Hfinds).
    + destruct (Info.kind info =? "rv").
      * assert (Hb : legacy_trace (bind_dep V phb1 info st) = legacy_trace st
                     /\ lcnum (bind_dep V phb1 info st) = lcnum st).
        { unfold bind_dep. now destruct (_ || _). }
        destruct Hb as [Hbt Hbn].
        destruct (dep (bind_dep V phb1 info st)) as [d|];
          [|intros H; discriminate H].
        destruct (opt_str_is d "primary").
        { destruct tolist; cbn [negb]; [|intros H; discriminate H].
          intros Hok.
          destruct (IH _ Hok) as (Hn & rest & Hm & Hsel' & Hall').
          rewrite Hn, Hm. cbn [lcnum legacy_trace] in *.
          rewrite Hbn in *. rewrite Hbt.
          split; [reflexivity|]. exists rest. split; [|split; assumption].
          rewrite mesh_writes_app. cbn. now rewrite app_nil_r. }
        destruct (opt_str_is d "secondary"); [|intros H; discriminate H].
        destruct tolist; cbn [negb]; [|intros H; discriminate H].
        intros Hok.
        destruct (IH _ Hok) as (Hn & rest & Hm & Hsel' & Hall').
        rewrite Hn, Hm. cbn [lcnum legacy_trace] in *.
        rewrite Hbn in *. rewrite Hbt.
        split; [reflexivity|]. exists rest. split; [|split; assumption].
        rewrite mesh_writes_app. cbn. now rewrite app_nil_r.
      * apply IH.
Qed.

End LegacyMeshFacts.

(** X29: the meshes that [legacy] stores with pbmesh. When a run without
    protomesh ends normally, the entries handed over are a selection, in
    order, from the entries that [fill_mesh] builds for every light curve of
    the plan in turn from the mesh returned with its fluxes: those whose
    parameter [new_syns.filter] found, and all of them when it finds every
    parameter. Every entry handed over is an intensity column for the
    dataset of its light curve, one of the two stars and one of the times of
    the light curve. *)
Theorem legacy_light_curve_meshes :
  forall (V : Type) (sqrt : Qc -> Qc) (phb1 : Phb1 V)
         (new_syns_filter : list (legacy_event V) -> MeshEntry -> bool)
         (b : Bundle) (compute : string) (perpass : Qc)
         (times : option TimesArg),
    snd (legacy V sqrt phb1 new_syns_filter b compute false true perpass
                times) = None ->
    selected
      (mesh_writes
         (legacy_trace
            (fst (legacy V sqrt phb1 new_syns_filter b compute false true
                         perpass times))))
      (flat_map (item_mesh_entries sqrt phb1 1)
                (filter is_lc
                        (p_needed_syns
                           (scan_by_dataset
                              b compute (option_map times_values times)))))
    /\ (finds_all new_syns_filter ->
        mesh_writes
          (legacy_trace
             (fst (legacy V sqrt phb1 new_syns_filter b compute false true
                          perpass times)))
        = flat_map (item_mesh_entries sqrt phb1 1)
                   (filter is_lc
                           (p_needed_syns
                              (scan_by_dataset
                                 b compute
                                 (option_map times_values times)))))
    /\ Forall (fun e =>
                 exists info,
                   In info (p_needed_syns
                              (scan_by_dataset
                                 b compute (option_map times_values times)))
                   /\ is_lc info = true
                   /\ intensity_entry (item_times info) (Info.dataset info) e)
              (mesh_writes
                 (legacy_trace
                    (fst (legacy V sqrt phb1 new_syns_filter b compute false
                                 true perpass times)))).
Proof.
  intros V sqrt phb1 new_syns_filter b compute perpass times Hok.
  assert (Hw : exists handed,
             mesh_writes
               (legacy_trace
                  (fst (legacy V sqrt phb1 new_syns_filter b compute false
                               true perpass times)))
             = handed
             /\ selected handed
                         (flat_map (item_mesh_entries sqrt phb1 1)
                                   (filter is_lc
                                           (p_needed_syns
                                              (scan_by_dataset
                                                 b compute
                                                 (option_map times_values
                                                             times)))))
             /\ (finds_all new_syns_filter ->
                 handed
                 = flat_map (item_mesh_entries sqrt phb1 1)
                            (filter is_lc
                                    (p_needed_syns
                                       (scan_by_dataset
                                          b compute
                                          (option_map times_values
                                                      times)))))).
  { unfold legacy in *.
    destruct (get_stars b) as [|p [|s [|x l]]]; try discriminate Hok.
    destruct (by_dataset_groups b compute false true
                                (option_map times_values times))
      as [syns E].
    rewrite E in *.
    destruct (legacy_loop_meshes V sqrt phb1 new_syns_filter b compute _ _
                                 (mkLegacy O O None []) Hok)
      as (_ & handed & Hm & Hsel & Hall).
    exists handed. auto. }
  destruct Hw as (handed & -> & Hsel & Hall).
  split; [exact Hsel|]. split; [exact Hall|].
  apply Forall_forall. intros e He.
  apply (selected_incl _ _ Hsel), in_flat_map in He.
  destruct He as (info & Hin & He). apply filter_In in Hin.
  destruct Hin as [Hin Hlc]. exists info. split; [exact Hin|].
  split; [exact Hlc|].
  unfold item_mesh_entries in He.
  destruct (fill_mesh sqrt _ "pbmesh" (item_times info) (Info.dataset info))
    as [err | entries] eqn:Ef; [destruct He|].
  unfold fill_mesh in Ef. cbn [String.eqb Ascii.eqb Bool.eqb bind] in Ef.
  destruct (collect_pbmesh _ _ _ _ _ Ef) as [Hf _].
  rewrite Forall_forall in Hf. now apply Hf.
Qed.

Lemma legacy_light_curve_meshes_witness :
  mesh_writes (legacy_trace
                 (fst (legacy nat (fun x => x) (example_phb1 "rv01")
                              (fun _ _ => true)
                              (example_bundle "legacy" "numerical") "run"
                              false true (Q2Qc 0%Q)
                              (Some (NdArray [Q2Qc 1%Q])))))
  = flat_map (item_mesh_entries (fun x => x) (example_phb1 "rv01") 1)
             (filter is_lc
                     (p_needed_syns
                        (scan_by_dataset (example_bundle "legacy" "numerical")
                                         "run" (Some [Q2Qc 1%Q])))).
Proof.
  apply (proj1 (proj2 (legacy_light_curve_meshes
                         nat (fun x => x) (example_phb1 "rv01")
                         (fun _ _ => true)
                         (example_bundle "legacy" "numerical") "run"
                         (Q2Qc 0%Q) (Some (NdArray [Q2Qc 1%Q]))
                         ltac:(vm_compute; reflexivity)))).
  intros tr e. reflexivity.
Defined.

(** In the example the light curve gets one intensity column, of the
    primary; none when [new_syns.filter] finds no parameter. *)
Example legacy_light_curve_meshes_example :
  map (fun e => (e_component e, e_qualifier e, e_dataset e))
      (mesh_writes (legacy_trace
                      (fst (legacy nat (fun x => x) (example_phb1 "rv01")
                                   (fun _ _ => true)
                                   (example_bundle "legacy" "numerical") "run"
                                   false true (Q2Qc 0%Q)
                                   (Some (NdArray [Q2Qc 1%Q]))))))
  = [("primary", "abs_normal_intensities", "lc01")]
  /\ mesh_writes (legacy_trace
                    (fst (legacy nat (fun x => x) (example_phb1 "rv01")
                                 (fun _ _ => false)
                                 (example_bundle "legacy" "numerical") "run"
                                 false true (Q2Qc 0%Q)
                                 (Some (NdArray [Q2Qc 1%Q])))))
     = [].
Proof. split; vm_compute; reflexivity. Qed.

(** ** LegacyAdapter: the star of a radial-velocity curve *)

(** X30: where [legacy] takes the star of a radial-velocity curve from.
    For an item whose dataset is one of the two curves of the library, the
    star is the component of the item: what [dep] held before does not
    matter. For an item of any other dataset the component of the item does
    not matter: the run asks the curve of the star that an earlier item left
    in [dep], and ends normally or not, whatever the component is. *)
Theorem legacy_velocity_curve_star :
  forall (V : Type) (sqrt : Qc -> Qc) (phb1 : Phb1 V)
         (new_syns_filter : list (legacy_event V) -> MeshEntry -> bool)
         (b : Bundle) (compute : string) (pbmesh tolist : bool)
         (info : Info.t) (st : LegacyState V),
    is_rv info = true ->
    (known_rv_dataset phb1 info = true ->
     forall d,
       legacy_item V sqrt phb1 new_syns_filter b compute pbmesh tolist info
                   (with_dep d st)
       = legacy_item V sqrt phb1 new_syns_filter b compute pbmesh tolist info
                     st)
    /\ (known_rv_dataset phb1 info = false ->
        forall c,
          rv_calls (legacy_trace
                      (fst (legacy_item V sqrt phb1 new_syns_filter b compute
                                        pbmesh tolist
                                        (with_component c info) st)))
          = rv_calls (legacy_trace
                        (fst (legacy_item V sqrt phb1 new_syns_filter b
                                          compute pbmesh tolist info st)))
          /\ is_none (snd (legacy_item V sqrt phb1 new_syns_filter b compute
                                       pbmesh tolist
                                       (with_component c info) st))
             = is_none (snd (legacy_item V sqrt phb1 new_syns_filter b
                                         compute pbmesh tolist info st))
          /\ dep (fst (legacy_item V sqrt phb1 new_syns_filter b compute
                                   pbmesh tolist
                                   (with_component c info) st))
             = dep st).
Proof.
  intros V sqrt phb1 new_syns_filter b compute pbmesh tolist info st Hrv.
  pose proof (is_rv_not_lc info Hrv) as Hlc. unfold is_rv in Hrv.
  unfold known_rv_dataset. split.
  - intros Hk d. unfold legacy_item, bind_dep, with_dep.
    rewrite Hlc, Hrv, Hk. cbn [lcnum rvnum dep legacy_trace]. reflexivity.
  - intros Hk c. unfold legacy_item, bind_dep, with_component.
    cbn [Info.kind Info.dataset Info.component Info.times item_times].
    rewrite Hlc, Hrv, Hk.
    change (item_times (Info.mk (Info.dataset info) c (Info.kind info)
                                (Info.needs_mesh info) (Info.times info)))
      with (item_times info).
    destruct (dep st) as [d|] eqn:Ed; [|repeat split; assumption].
    destruct (opt_str_is d "primary");
      [destruct tolist;
       cbn [negb fst snd legacy_emit legacy_trace dep is_none];
       rewrite !rv_calls_app; auto|].
    destruct (opt_str_is d "secondary");
      [destruct tolist;
       cbn [negb fst snd legacy_emit legacy_trace dep is_none];
       rewrite !rv_calls_app; auto|].
    repeat split; assumption.
Qed.

Lemma legacy_velocity_curve_star_witness :
  rv_calls (legacy_trace
              (fst (legacy_item nat (fun x => x) (example_phb1 "other")
                                (fun _ _ => true)
                                two_dataset_bundle "run" false true
                                (with_component
                                   (Some "secondary")
                                   (Info.mk "rv01" (Some "primary") "rv" true
                                            [Some (Q2Qc 1%Q)]))
                                (mkLegacy 0 0 (Some (Some "primary")) []))))
  = rv_calls (legacy_trace
                (fst (legacy_item nat (fun x => x) (example_phb1 "other")
                                (fun _ _ => true)
                                  two_dataset_bundle "run" false true
                                  (Info.mk "rv01" (Some "primary") "rv" true
                                           [Some (Q2Qc 1%Q)])
                                  (mkLegacy 0 0 (Some (Some "primary")) [])))).
Proof.
  apply (proj2 (legacy_velocity_curve_star
                  nat (fun x => x) (example_phb1 "other") (fun _ _ => true)
                  two_dataset_bundle "run" false true
                  (Info.mk "rv01" (Some "primary") "rv" true
                           [Some (Q2Qc 1%Q)])
                  (mkLegacy 0 0 (Some (Some "primary")) []) eq_refl)
               eq_refl (Some "secondary")).
Defined.

(** The example: the curve of an unknown dataset is asked for the primary,
    whose star was left by an earlier item, although the item belongs to
    the secondary. *)
Example legacy_stale_star_example :
  map fst
      (rv_calls (legacy_trace
                   (fst (legacy_item nat (fun x => x) (example_phb1 "other")
                                (fun _ _ => true)
                                     two_dataset_bundle "run" false true
                                     (Info.mk "rv01" (Some "secondary") "rv"
                                              true [Some (Q2Qc 1%Q)])
                                     (mkLegacy 0 0 (Some (Some "primary"))
                                               [])))))
  = ["primary"]
  /\ syn_writes (legacy_trace
                   (fst (legacy_item nat (fun x => x) (example_phb1 "other")
                                (fun _ _ => true)
                                     two_dataset_bundle "run" false true
                                     (Info.mk "rv01" (Some "secondary") "rv"
                                              true [Some (Q2Qc 1%Q)])
                                     (mkLegacy 0 0 (Some (Some "primary"))
                                               []))))
     = [(Some "secondary", "rv01", "rvs")].
Proof. split; reflexivity. Qed.

(** ** MeshRequirementResolver: the analytical light curves in the loop *)

Section AnalyticalLightCurves.

Variable V : Type.
Variable sv : Services V.
Variable starrefs : list string.
Variable do_horizon : bool.

(** Items that neither need a mesh nor are of kind mesh have no part in the
    mesh update of their time step. *)
Lemma update_mesh_without (P : Info.t -> bool) time infolist st :
  (forall info, In info infolist -> P info = true ->
                Info.needs_mesh info = false /\ Info.kind info <> "mesh") ->
  update_mesh V sv do_horizon time infolist st
  = update_mesh V sv do_horizon time
                (filter (fun info => negb (P info)) infolist) st.
Proof.
  intros H. unfold update_mesh.
  assert (E : existsb Info.needs_mesh
                      (filter (fun info => negb (P info)) infolist)
              = existsb Info.needs_mesh infolist
              /\ filter Info.needs_mesh
                        (filter (fun info => negb (P info)) infolist)
                 = filter Info.needs_mesh infolist
              /\ str_in "mesh"
                        (map Info.kind
                             (filter (fun info => negb (P info)) infolist))
                 = str_in "mesh" (map Info.kind infolist)).
  { induction infolist as [|x l IH]; [repeat split|].
    destruct IH as (IH1 & IH2 & IH3);
      [intros info Hin; apply H; now right|].
    unfold str_in in *. cbn [filter].
    destruct (P x) eqn:Ex; cbn [negb filter existsb map].
    - destruct (H x (or_introl eq_refl) Ex) as [Hn Hk].
      rewrite Hn, IH1, IH2, IH3. cbn [orb].
      replace ("mesh" =? Info.kind x) with false; [repeat split|].
      symmetry. apply String.eqb_neq. congruence.
    - rewrite IH1, IH2, IH3. repeat split. }
  destruct E as (-> & -> & ->). reflexivity.
Qed.

(** A time step holding light-curve items only, none of which needs a mesh:
    one flux is appended per item and nothing is asked of the system. *)
Lemma for_each_fluxes (infolist : list Info.t) i time (l : list Info.t) :
  (forall info, In info l -> Info.kind info = "lc") ->
  forall st,
    for_each V (fill_info V sv starrefs do_horizon infolist i time) l st
    = (emit V (map (flux_event sv time) l) st, None).
Proof.
  induction l as [|x l IH]; intros H [tr h]; cbn [for_each map].
  - unfold ok, emit. cbn. now rewrite app_nil_r.
  - unfold seq2. unfold fill_info at 1.
    rewrite (H x (or_introl eq_refl)). cbn [String.eqb Ascii.eqb Bool.eqb].
    unfold ok. rewrite IH by (intros info Hin; apply H; now right).
    unfold emit. cbn [trace horizons]. rewrite <- app_assoc.
    unfold flux_event at 2. rewrite (H x (or_introl eq_refl)). reflexivity.
Qed.

Lemma step_fluxes as_generator i time (infolist : list Info.t) :
  (forall info, In info infolist ->
                Info.kind info = "lc" /\ Info.needs_mesh info = false) ->
  forall st,
    step V sv starrefs do_horizon as_generator i time infolist st
    = (emit V (map (flux_event sv time) infolist
                 ++ (if as_generator then [Yield V (Some time)] else [])) st,
       None).
Proof.
  intros H st. unfold step, seq2.
  assert (E : update_mesh V sv do_horizon time infolist st = st).
  { unfold update_mesh.
    replace (existsb Info.needs_mesh infolist) with false; [reflexivity|].
    symmetry. apply not_true_is_false. intros Hex.
    apply existsb_exists in Hex. destruct Hex as (x & Hx & Hn).
    destruct (H x Hx) as [_ Hf]. congruence. }
  rewrite E, for_each_fluxes by (intros info Hin; now apply H).
  destruct st as [tr h]. unfold ok, emit. cbn [trace horizons].
  destruct as_generator; [now rewrite app_assoc | now rewrite app_nil_r].
Qed.

End AnalyticalLightCurves.

Lemma is_lc_of_spec dataset info :
  is_lc_of dataset info = true <->
  Info.dataset info = dataset /\ Info.kind info = "lc".
Proof.
  unfold is_lc_of. rewrite andb_true_iff, !String.eqb_eq. reflexivity.
Qed.

(** C3 (amended): for a light curve whose flux method is analytical,
    [_needs_mesh] is false under the engine phoebe, for every component. In
    the plan of the by-time planner every light-curve item of the dataset
    then carries the flag false, and in the main loop no time step evaluates
    a mesh because of it: taking the items of the dataset out of a time step
    leaves the mesh update of the step as it is, and a time step that holds
    items of the dataset only appends one flux per item and asks nothing of
    the system. Under the engine legacy [_needs_mesh] is true for every
    light curve. *)
Theorem needs_mesh_analytical_lc :
  forall (b : Bundle) (dataset compute : string),
    (compute_kind b compute = "phoebe" ->
     lc_method b compute dataset = "analytical" ->
     (forall component,
         _needs_mesh b dataset "lc" component compute = false)
     /\ forall (protomesh pbmesh : bool) (provided_times : option (list Qc))
               (allow_oversample : bool) times infos syns,
         _extract_from_bundle_by_time b compute protomesh pbmesh
                                      provided_times allow_oversample
         = inr (times, infos, syns) ->
         forall infolist,
           In infolist infos ->
           (forall info,
               In info infolist -> is_lc_of dataset info = true ->
               Info.needs_mesh info = false)
           /\ forall (V : Type) (sv : Services V) (starrefs : list string)
                     (do_horizon as_generator : bool) (i : nat) (time : Qc)
                     (st : LoopState V),
               update_mesh V sv do_horizon time infolist st
               = update_mesh V sv do_horizon time
                             (filter (fun info => negb (is_lc_of dataset info))
                                     infolist) st
               /\ (forallb (is_lc_of dataset) infolist = true ->
                   step V sv starrefs do_horizon as_generator i time
                        infolist st
                   = (emit V (map (flux_event sv time) infolist
                                ++ (if as_generator
                                    then [Yield V (Some time)] else []))
                           st,
                      None)))
    /\ (compute_kind b compute = "legacy" ->
        forall component,
          _needs_mesh b dataset "lc" component compute = true).
Proof.
  intros b dataset compute. split.
  - intros Hk Hm.
    assert (H : forall component,
               _needs_mesh b dataset "lc" component compute = false).
    { intros component. unfold _needs_mesh. rewrite Hk, Hm. reflexivity. }
    split; [exact H|].
    intros protomesh pbmesh provided allow times infos syns Hplan infolist Hl.
    pose proof (by_time_items_stepped b compute protomesh pbmesh provided
                                      allow) as Hstep.
    rewrite Hplan in Hstep.
    pose proof (stepped_items_flags b compute protomesh pbmesh provided allow)
      as Hflags.
    rewrite Forall_forall in Hflags.
    assert (Hf : forall info,
               In info infolist -> is_lc_of dataset info = true ->
               Info.needs_mesh info = false).
    { intros info Hin Hlc. apply is_lc_of_spec in Hlc.
      destruct Hlc as [Hd Hkind].
      rewrite (Hflags info (Hstep infolist info Hl Hin)), Hd, Hkind.
      apply H. }
    split; [exact Hf|].
    intros V sv starrefs do_horizon as_generator i time st. split.
    + apply update_mesh_without. intros info Hin Hlc.
      split; [now apply Hf|]. apply is_lc_of_spec in Hlc.
      destruct Hlc as [_ ->]. discriminate.
    + intros Hall. rewrite forallb_forall in Hall.
      apply step_fluxes. intros info Hin. split; [|apply Hf; auto].
      now apply (is_lc_of_spec dataset info), Hall.
  - intros Hk component. unfold _needs_mesh. rewrite Hk. reflexivity.
Qed.

Lemma needs_mesh_analytical_lc_witness :
  _needs_mesh (example_bundle "phoebe" "analytical") "lc01" "lc" None "run"
  = false
  /\ forall infolist,
      In infolist [[Info.mk "lc01" None "lc" false [Some (Q2Qc 0%Q)]]] ->
      forall st : LoopState nat,
        step nat (example_services "roche" "marching")
             ["primary"; "secondary"] true false 0 (Q2Qc 0%Q) infolist st
        = (emit nat (map (flux_event (example_services "roche" "marching")
                                     (Q2Qc 0%Q)) infolist) st,
           None).
Proof.
  destruct (proj1 (needs_mesh_analytical_lc
                     (example_bundle "phoebe" "analytical") "lc01" "run")
                  eq_refl eq_refl) as [Hflag Hplan].
  split; [apply Hflag|].
  intros infolist Hin st.
  assert (E : _extract_from_bundle_by_time
                 (example_bundle "phoebe" "analytical") "run" false false
                 (Some [Q2Qc 0%Q]) true
               = inr ([Q2Qc 0%Q],
                      [[Info.mk "lc01" None "lc" false [Some (Q2Qc 0%Q)]]],
                      _create_syns
                        (example_bundle "phoebe" "analytical")
                        [Info.mk "lc01" None "lc" false [Some (Q2Qc 0%Q)]]))
    by (vm_compute; reflexivity).
  destruct (Hplan false false (Some [Q2Qc 0%Q]) true _ _ _ E infolist Hin)
    as [_ Hloop].
  destruct (Hloop nat (example_services "roche" "marching")
                  ["primary"; "secondary"] true false 0 (Q2Qc 0%Q) st)
    as [_ Hstep].
  rewrite Hstep; [now rewrite app_nil_r|].
  destruct Hin as [<- | []]. reflexivity.
Defined.
